(** * Ledger reconciliation of the dish-line bill collection app

    A shallow embedding of the billing logic of [src/contexts.tsx]
    (the [DataProvider] mutations and the automatic bill generator) and of
    the subscription gate [useSubscriptionStatus] of the main screen file.

    Modelling conventions.
    - A JavaScript [number] holding an amount is an IEEE 754 double
      ([JS.Number], the binary64 format of the Standard Library's
      [SpecFloat]), added, subtracted and compared as the language does;
      a whole literal such as [500] stands for the double of that value.
      Years, months and millisecond times are whole numbers far below 2^53
      and stay in [Z].
    - A string is the sequence of its UTF-8 bytes.
    - An object used as a record of amounts ([billsToPay], [selectedBills])
      is the list of its entries in the order [Object.keys] lists them.
    - A Firestore collection is a finite map from document id to document
      data ([gmap string _]); the arrays the React state holds
      ([customers], [bills], ...) are the snapshot of these maps, each
      document paired with its id, as the [onSnapshot] listeners build them.
      A mutation reads the arrays of the latest snapshot: the listeners have
      delivered the previous commit before the next call.
    - A write batch is a list of writes, committed all-or-nothing; an
      [update] of a missing document makes the whole commit fail, [set] and
      [delete] never fail.  Network failures are not modelled.
    - A [Date] is read through its local calendar fields. *)

From Stdlib Require Import ZArith Lia Bool Ascii SpecFloat.
From stdpp Require Import base option list gmap strings pretty sorting.

#[local] Open Scope Z_scope.

(** ** JavaScript values used by the code *)

Module JS.

(** A [Date], as the local-time getters show it: [getFullYear],
    [getMonth] (0-based), [getDate], and the milliseconds elapsed in
    that day. *)
Record Date := mkDate {
  getFullYear : Z;
  getMonth : Z;
  getDate : Z;
  msOfDay : Z
}.

#[global] Instance Date_eq_dec : EqDecision Date.
Proof. solve_decision. Defined.

Definition isLeapYear (y : Z) : bool :=
  ((y mod 4 =? 0) && negb (y mod 100 =? 0)) || (y mod 400 =? 0).

(** Length of month [m] (0-based) of year [y]. *)
Definition daysInMonth (y m : Z) : Z :=
  if m =? 1 then (if isLeapYear y then 29 else 28)
  else if (m =? 3) || (m =? 5) || (m =? 8) || (m =? 10) then 30
  else 31.

Definition prevDay (d : Date) : Date :=
  if 1 <? getDate d then mkDate (getFullYear d) (getMonth d) (getDate d - 1) (msOfDay d)
  else
    let y := if getMonth d =? 0 then getFullYear d - 1 else getFullYear d in
    let m := if getMonth d =? 0 then 11 else getMonth d - 1 in
    mkDate y m (daysInMonth y m) (msOfDay d).

Definition nextDay (d : Date) : Date :=
  if getDate d <? daysInMonth (getFullYear d) (getMonth d)
  then mkDate (getFullYear d) (getMonth d) (getDate d + 1) (msOfDay d)
  else
    let y := if getMonth d =? 11 then getFullYear d + 1 else getFullYear d in
    let m := if getMonth d =? 11 then 0 else getMonth d + 1 in
    mkDate y m 1 (msOfDay d).

Definition shiftDays (n : Z) (d : Date) : Date :=
  if n <? 0 then Nat.iter (Z.to_nat (- n)) prevDay d
  else Nat.iter (Z.to_nat n) nextDay d.

(** [MakeDay(year, month, date)] of ECMAScript at midnight: the month
    overflows into the year, the day of month is counted from the first
    of that month. *)
Definition makeDay (y m d : Z) : Date :=
  shiftDays (d - 1) (mkDate (y + m / 12) (m mod 12) 1 0).

(** [new Date(year, monthIndex, day)]: a year from 0 to 99 means
    1900 + year. *)
Definition newDate (y m d : Z) : Date :=
  makeDay (if (0 <=? y) && (y <=? 99) then 1900 + y else y) m d.

(** [date.setMonth(m)]: the year and the day of month are those of the
    date, the time of day is kept. *)
Definition setMonth (dt : Date) (m : Z) : Date :=
  let r := makeDay (getFullYear dt) m (getDate dt) in
  mkDate (getFullYear r) (getMonth r) (getDate r) (msOfDay dt).

(** [a > b] on dates compares the instants, which the local calendar
    fields order lexicographically. *)
Definition Date_gtb (a b : Date) : bool :=
  (getFullYear b <? getFullYear a) ||
  ((getFullYear b =? getFullYear a) &&
   ((getMonth b <? getMonth a) ||
    ((getMonth b =? getMonth a) &&
     ((getDate b <? getDate a) ||
      ((getDate b =? getDate a) && (msOfDay b <? msOfDay a)))))).

(** *** Strings *)

(** [s.toLowerCase()].  On a string of ASCII characters it lowers the
    letters A to Z and keeps the rest.  For a string with other characters
    the result is the one of Unicode's case conversion, which is not spelled
    out here: [toLowerCaseUnicode] stands for it, and what is proved holds
    for every function in its place. *)
Class UnicodeCase := toLowerCaseUnicode : string → string.

Definition isAscii (c : ascii) : bool := (nat_of_ascii c <? 128)%nat.

Fixpoint allAscii (s : string) : bool :=
  match s with
  | EmptyString => true
  | String c s' => isAscii c && allAscii s'
  end.

Definition lowerAscii (c : ascii) : ascii :=
  let n := nat_of_ascii c in
  if ((65 <=? n) && (n <=? 90))%nat then ascii_of_nat (n + 32) else c.

Fixpoint lowerAsciiString (s : string) : string :=
  match s with
  | EmptyString => EmptyString
  | String c s' => String (lowerAscii c) (lowerAsciiString s')
  end.

Definition toLowerCase `{UnicodeCase} (s : string) : string :=
  if allAscii s then lowerAsciiString s else toLowerCaseUnicode s.

(** The white space and line terminators [trim] removes, in UTF-8: U+0009
    to U+000D, U+0020, U+00A0, U+1680, U+2000 to U+200A, U+2028, U+2029,
    U+202F, U+205F, U+3000 and U+FEFF. *)
Definition whiteSpace : list (list nat) :=
  ((λ n, [n]) <$> [9; 10; 11; 12; 13; 32])%nat
  ++ [[194; 160]; [225; 154; 128]]%nat
  ++ ((λ n, [226; 128; n]) <$> [128; 129; 130; 131; 132; 133; 134; 135; 136; 137; 138;
                                168; 169; 175])%nat
  ++ [[226; 129; 159]; [227; 128; 128]; [239; 187; 191]]%nat.

Fixpoint stripPrefix (p s : list nat) : option (list nat) :=
  match p, s with
  | [], _ => Some s
  | x :: p', y :: s' => if (x =? y)%nat then stripPrefix p' s' else None
  | _ :: _, [] => None
  end.

(** [s] without the white space character it starts with, if any. *)
Definition dropWhiteSpace (s : list nat) : option (list nat) :=
  list_find is_Some ((λ w, stripPrefix w s) <$> whiteSpace) ≫= snd.

Fixpoint trimStartBytes (fuel : nat) (s : list nat) : list nat :=
  match fuel with
  | O => s
  | S fuel' =>
      match dropWhiteSpace s with
      | Some s' => trimStartBytes fuel' s'
      | None => s
      end
  end.

(** The same from the end of [s], given reversed. *)
Definition dropWhiteSpaceEnd (s : list nat) : option (list nat) :=
  list_find is_Some ((λ w, stripPrefix (reverse w) s) <$> whiteSpace) ≫= snd.

Fixpoint trimEndBytes (fuel : nat) (s : list nat) : list nat :=
  match fuel with
  | O => s
  | S fuel' =>
      match dropWhiteSpaceEnd s with
      | Some s' => trimEndBytes fuel' s'
      | None => s
      end
  end.

Fixpoint bytesOf (s : string) : list nat :=
  match s with
  | EmptyString => []
  | String c s' => nat_of_ascii c :: bytesOf s'
  end.

Fixpoint stringOf (l : list nat) : string :=
  match l with
  | [] => EmptyString
  | n :: l' => String (ascii_of_nat n) (stringOf l')
  end.

Definition trimStart (s : string) : string :=
  stringOf (trimStartBytes (String.length s) (bytesOf s)).

Definition trimEnd (s : string) : string :=
  stringOf (reverse (trimEndBytes (String.length s) (reverse (bytesOf s)))).

Definition trim (s : string) : string := trimEnd (trimStart s).

(** *** Numbers *)

(** A [number]: an IEEE 754 double. *)
Definition Number : Type := spec_float.

Definition NaN : Number := S754_nan.
Definition zero : Number := S754_zero false.

(** [x + y], [x - y] and [x / y], rounded to the nearest double, ties to
    even. *)
Definition add : Number → Number → Number := SFadd 53 1024.
Definition sub : Number → Number → Number := SFsub 53 1024.
Definition div : Number → Number → Number := SFdiv 53 1024.

(** [x < y], [x <= y], [x > y] and [x >= y]; false when one side is [NaN]. *)
Definition ltb : Number → Number → bool := SFltb.
Definition leb : Number → Number → bool := SFleb.
Definition gtb (x y : Number) : bool := SFltb y x.
Definition geb (x y : Number) : bool := SFleb y x.

Definition isNaN (x : Number) : bool :=
  match x with S754_nan => true | _ => false end.

(** The double of a whole number (the nearest one beyond 2^53), and the
    double a decimal literal with [k] decimals denotes, [n / 10^k]:
    [decimal 1 1] is [0.1]. *)
Definition ofZ (n : Z) : Number := binary_normalize 53 1024 n 0 false.
Definition decimal (n k : Z) : Number := div (ofZ n) (ofZ (10 ^ k)).

(** The whole part of a finite number ([Math.trunc]); 0 for the others. *)
Definition toZ (x : Number) : Z :=
  match x with
  | S754_finite s m e => cond_Zopp s (Z.shiftl (Z.pos m) e)
  | _ => 0
  end.

(** [x || 0] on a number: [0], [-0] and [NaN] are falsy. *)
Definition orZero (x : Number) : Number :=
  match x with
  | S754_zero _ | S754_nan => zero
  | _ => x
  end.

(** *** Objects used as records *)

(** The entries of an object, in the order of [Object.keys]: the order in
    which the keys were added, for keys that are not array indices (a bill
    id holds a [-]).  An object holds each key once; a statement that
    depends on it says [NoDup (keys o)]. *)
Abbreviation Obj V := (list (string * V)).

(** [Object.keys(o)], [Object.values(o)], [o[k]] and
    [o.hasOwnProperty(k)]. *)
Definition keys {V} (o : Obj V) : list string := o.*1.
Definition values {V} (o : Obj V) : list V := o.*2.
Definition get {V} (o : Obj V) (k : string) : option V :=
  snd <$> find (λ e, bool_decide (e.1 = k)) o.
Definition hasOwnProperty {V} (o : Obj V) (k : string) : bool :=
  bool_decide (k ∈ keys o).

(** [{ ...o, [k]: v }]: the entry of [k] gets the value [v] where it is,
    a new key goes last. *)
Fixpoint assign {V} (o : Obj V) (k : string) (v : V) : Obj V :=
  match o with
  | [] => [(k, v)]
  | (k', v') :: o' => if decide (k' = k) then (k, v) :: o' else (k', v') :: assign o' k v
  end.

(** [delete o[k]] *)
Definition remove {V} (o : Obj V) (k : string) : Obj V :=
  filter (λ e, e.1 ≠ k) o.

(** The string a template literal gives a whole number. *)
Definition numToString (n : Z) : string := pretty n.

End JS.

(** A whole literal where an amount is expected is the double of that
    value. *)
Coercion JS.ofZ : Z >-> JS.Number.

(** ** The entities of [types.ts] *)

Inductive ConnectionStatus := ACTIVE | INACTIVE | PAUSED.
Inductive BillStatus := PAID | UNPAID.

#[global] Instance ConnectionStatus_eq_dec : EqDecision ConnectionStatus.
Proof. solve_decision. Defined.
#[global] Instance BillStatus_eq_dec : EqDecision BillStatus.
Proof. solve_decision. Defined.

(** A document of a snapshot: [{ id: doc.id, ...doc.data() }]. *)
Record Doc (A : Type) := mkDoc { id : string; data : A }.
Arguments mkDoc {A} _ _.
Arguments id {A} _.
Arguments data {A} _.

Record CustomerData := mkCustomer {
  c_name : string;
  c_phone : string;
  c_address : string;
  c_area : string;
  c_monthlyBill : JS.Number;
  c_connectionStatus : ConnectionStatus;
  (* the date [new Date(customer.startDate)] reads from the stored string *)
  c_startDate : JS.Date;
  c_openingDue : JS.Number;
  c_reactivationDate : option string
}.

Record PaymentData := mkPayment {
  p_customerId : string;
  p_amount : JS.Number;
  p_date : string;
  p_notes : option string
}.

Record BillData := mkBill {
  b_customerId : string;
  b_amount : JS.Number;
  b_month : Z;
  b_year : Z;
  b_status : BillStatus;
  (* the date whose [toISOString()] is stored *)
  b_dueDate : JS.Date;
  b_paidDate : option string;
  b_paymentId : option string;
  b_paidAmount : option JS.Number
}.

Record DuePaymentData := mkDuePayment {
  dp_customerId : string;
  dp_amount : JS.Number;
  dp_date : string;
  dp_notes : option string
}.

Record AreaData := mkArea { a_name : string }.

Abbreviation Customer := (Doc CustomerData).
Abbreviation Payment := (Doc PaymentData).
Abbreviation Bill := (Doc BillData).
Abbreviation DuePayment := (Doc DuePaymentData).
Abbreviation Area := (Doc AreaData).

Record MutationResult := mkResult { success : bool; message : option string }.

Definition ok : MutationResult := mkResult true None.
Definition failure (msg : string) : MutationResult := mkResult false (Some msg).

(** ** The document store and its write batches *)

Module Firestore.

Record Store := mkStore {
  customers : gmap string CustomerData;
  payments : gmap string PaymentData;
  areas : gmap string AreaData;
  duePayments : gmap string DuePaymentData;
  bills : gmap string BillData
}.

Definition emptyStore : Store := mkStore ∅ ∅ ∅ ∅ ∅.

Definition withCustomers (m : gmap string CustomerData) (db : Store) : Store :=
  mkStore m (payments db) (areas db) (duePayments db) (bills db).
Definition withPayments (m : gmap string PaymentData) (db : Store) : Store :=
  mkStore (customers db) m (areas db) (duePayments db) (bills db).
Definition withAreas (m : gmap string AreaData) (db : Store) : Store :=
  mkStore (customers db) (payments db) m (duePayments db) (bills db).
Definition withDuePayments (m : gmap string DuePaymentData) (db : Store) : Store :=
  mkStore (customers db) (payments db) (areas db) m (bills db).
Definition withBills (m : gmap string BillData) (db : Store) : Store :=
  mkStore (customers db) (payments db) (areas db) (duePayments db) m.

(** [snapshot.docs.map(doc => ({ id: doc.id, ...doc.data() }))] *)
Definition snapshot {A} (m : gmap string A) : list (Doc A) :=
  (λ kd, mkDoc kd.1 kd.2) <$> map_to_list m.

(** The field updates the code sends to a bill document. *)
Inductive BillPatch :=
| MarkPaid (paidDate paymentId : string)
    (* { status: PAID, paidDate, paymentId } *)
| MarkUnpaid.
    (* { status: UNPAID, paidDate: deleteField(), paymentId: deleteField() } *)

Definition patchBill (p : BillPatch) (b : BillData) : BillData :=
  match p with
  | MarkPaid d pid =>
      mkBill (b_customerId b) (b_amount b) (b_month b) (b_year b) PAID
             (b_dueDate b) (Some d) (Some pid) (b_paidAmount b)
  | MarkUnpaid =>
      mkBill (b_customerId b) (b_amount b) (b_month b) (b_year b) UNPAID
             (b_dueDate b) None None (b_paidAmount b)
  end.

Definition setOpeningDue (v : JS.Number) (c : CustomerData) : CustomerData :=
  mkCustomer (c_name c) (c_phone c) (c_address c) (c_area c) (c_monthlyBill c)
             (c_connectionStatus c) (c_startDate c) v (c_reactivationDate c).

(** [update(ref, data)] of a due payment: the fields present in [data]
    replace the stored ones; [notes] is optional. *)
Definition mergeDuePayment (new old : DuePaymentData) : DuePaymentData :=
  mkDuePayment (dp_customerId new) (dp_amount new) (dp_date new)
               (match dp_notes new with Some n => Some n | None => dp_notes old end).

Inductive Write :=
| SetBill (k : string) (b : BillData)
| UpdateBill (k : string) (p : BillPatch)
| SetPayment (k : string) (p : PaymentData)
| DeletePayment (k : string)
| SetDuePayment (k : string) (d : DuePaymentData)
| UpdateDuePayment (k : string) (d : DuePaymentData)
| DeleteDuePayment (k : string)
| UpdateOpeningDue (k : string) (v : JS.Number)
| SetArea (k : string) (a : AreaData).

Definition applyWrite (w : Write) (db : Store) : option Store :=
  match w with
  | SetBill k b => Some (withBills (<[k := b]> (bills db)) db)
  | UpdateBill k p =>
      b ← bills db !! k;
      Some (withBills (<[k := patchBill p b]> (bills db)) db)
  | SetPayment k p => Some (withPayments (<[k := p]> (payments db)) db)
  | DeletePayment k => Some (withPayments (delete k (payments db)) db)
  | SetDuePayment k d => Some (withDuePayments (<[k := d]> (duePayments db)) db)
  | UpdateDuePayment k d =>
      old ← duePayments db !! k;
      Some (withDuePayments (<[k := mergeDuePayment d old]> (duePayments db)) db)
  | DeleteDuePayment k => Some (withDuePayments (delete k (duePayments db)) db)
  | UpdateOpeningDue k v =>
      c ← customers db !! k;
      Some (withCustomers (<[k := setOpeningDue v c]> (customers db)) db)
  | SetArea k a => Some (withAreas (<[k := a]> (areas db)) db)
  end.

(** [batch.commit()]: every write, in order, or none. *)
Fixpoint commit (batch : list Write) (db : Store) : option Store :=
  match batch with
  | [] => Some db
  | w :: rest => db' ← applyWrite w db; commit rest db'
  end.

End Firestore.

Import Firestore.

(** ** The data context ([DataProvider]) *)

(** The provider works under a signed-in user ([userId = user?.id], the
    Firebase uid) on the collections below [users/{userId}]; with no user
    the arrays are reset to [[]] and every mutation returns at its first
    line. *)
Inductive Session := SignedOut | SignedIn (db : Store).

Definition customersOf (s : Session) : list Customer :=
  match s with SignedOut => [] | SignedIn db => snapshot (customers db) end.
Definition paymentsOf (s : Session) : list Payment :=
  match s with SignedOut => [] | SignedIn db => snapshot (payments db) end.
Definition areasOf (s : Session) : list Area :=
  match s with SignedOut => [] | SignedIn db => snapshot (areas db) end.
Definition duePaymentsOf (s : Session) : list DuePayment :=
  match s with SignedOut => [] | SignedIn db => snapshot (duePayments db) end.
Definition billsOf (s : Session) : list Bill :=
  match s with SignedOut => [] | SignedIn db => snapshot (bills db) end.

(** [arr.find(x => x.id === k)] *)
Definition findById {A} (l : list (Doc A)) (k : string) : option (Doc A) :=
  find (λ x, bool_decide (id x = k)) l.

Definition getCustomerById (s : Session) (cid : string) : option Customer :=
  findById (customersOf s) cid.

(** *** Automatic bill generation *)

(** [`${customer.id}-${year}-${month}`] *)
Definition billIdOf (customerId : string) (year month : Z) : string :=
  customerId +:+ "-" +:+ JS.numToString year +:+ "-" +:+ JS.numToString month.

(** The condition of the [while] loop. *)
Definition inRange (currentYear currentMonth : Z) (loopDate : JS.Date) : bool :=
  (JS.getFullYear loopDate <? currentYear) ||
  ((JS.getFullYear loopDate =? currentYear) && (JS.getMonth loopDate <=? currentMonth)).

Definition newBillOf (customer : Customer) (year month : Z) : BillData :=
  mkBill (id customer) (c_monthlyBill (data customer)) month year UNPAID
         (JS.newDate year month 0) None None None.

(** The [while] loop over [loopDate]; [fuel] bounds the iterations. *)
Fixpoint billLoop (fuel : nat) (bills : list Bill) (customer : Customer)
    (currentYear currentMonth : Z) (loopDate : JS.Date) (batch : list Write)
    : list Write :=
  match fuel with
  | O => batch
  | S fuel' =>
      if inRange currentYear currentMonth loopDate then
        let year := JS.getFullYear loopDate in
        let month := JS.getMonth loopDate + 1 in
        let billId := billIdOf (id customer) year month in
        let billExists := existsb (λ b, bool_decide (id b = billId)) bills in
        let batch' :=
          if negb billExists
          then batch ++ [SetBill billId (newBillOf customer year month)]
          else batch in
        billLoop fuel' bills customer currentYear currentMonth
                 (JS.setMonth loopDate (JS.getMonth loopDate + 1)) batch'
      else batch
  end.

(** Months left from [loopDate] to the current month, both included. *)
Definition monthsLeft (currentYear currentMonth : Z) (loopDate : JS.Date) : nat :=
  Z.to_nat ((currentYear - JS.getFullYear loopDate) * 12
            + (currentMonth - JS.getMonth loopDate) + 1).

(** The body of [customers.forEach]. *)
Definition billsForCustomer (bills : list Bill) (currentDate : JS.Date)
    (batch : list Write) (customer : Customer) : list Write :=
  if bool_decide (c_connectionStatus (data customer) = ACTIVE) then
    let startDate := c_startDate (data customer) in
    if JS.Date_gtb startDate currentDate then batch
    else
      let currentYear := JS.getFullYear currentDate in
      let currentMonth := JS.getMonth currentDate in
      let loopDate := JS.newDate (JS.getFullYear startDate) (JS.getMonth startDate) 1 in
      billLoop (monthsLeft currentYear currentMonth loopDate) bills customer
               currentYear currentMonth loopDate batch
  else batch.

(** The writes [generateBills] puts in its batch. *)
Definition generatedBatch (customers : list Customer) (bills : list Bill)
    (currentDate : JS.Date) : list Write :=
  fold_left (billsForCustomer bills currentDate) customers [].

Definition generateBills (currentDate : JS.Date) (s : Session) : Session :=
  match s with
  | SignedOut => s
  | SignedIn db =>
      match commit (generatedBatch (customersOf s) (billsOf s) currentDate) db with
      | Some db' => SignedIn db'
      | None => s
      end
  end.

(** The effect that runs the generator:
    [if (!userId || !initialBillsLoaded || customers.length === 0) return]. *)
Definition billGenerationEffect (initialBillsLoaded : bool) (currentDate : JS.Date)
    (s : Session) : Session :=
  match s with
  | SignedOut => s
  | SignedIn _ =>
      if negb initialBillsLoaded || (length (customersOf s) =? 0)%nat then s
      else generateBills currentDate s
  end.

(** *** Areas *)

(** [addArea]; [newId] is the id [addDoc] gives the new document. *)
Definition addArea `{JS.UnicodeCase} (s : Session) (newId : string) (name : string)
    : MutationResult * Session :=
  match s with
  | SignedOut => (failure "User not authenticated.", s)
  | SignedIn db =>
      if bool_decide (name = "") ||
         existsb (λ a, bool_decide (JS.toLowerCase (a_name (data a)) = JS.toLowerCase name))
                 (areasOf s)
      then (failure "Area already exists or name is invalid.", s)
      else
        match commit [SetArea newId (mkArea name)] db with
        | Some db' => (ok, SignedIn db')
        | None => (failure "Failed to add area.", s)
        end
  end.

(** *** Payments against bills *)

Definition deletePayment (s : Session) (paymentId : string)
    : MutationResult * Session :=
  match s with
  | SignedOut => (failure "User not authenticated.", s)
  | SignedIn db =>
      let billsToUpdate :=
        filter (λ b, b_paymentId (data b) = Some paymentId) (billsOf s) in
      let batch :=
        ((λ bill, UpdateBill (id bill) MarkUnpaid) <$> billsToUpdate)
        ++ [DeletePayment paymentId] in
      match commit batch db with
      | Some db' => (ok, SignedIn db')
      | None => (failure "Failed to undo payment.", s)
      end
  end.

(** One turn of the [for] loop of [addPayment] over
    [Object.keys(billsToPay)]: the running [totalDueDifference] and the
    batch.  [billsToPay[billId]] is there for a key of the object. *)
Definition payBill (bills : list Bill) (billsToPay : JS.Obj JS.Number)
    (paidDate paymentId : string) (acc : JS.Number * list Write) (billId : string)
    : JS.Number * list Write :=
  match findById bills billId with
  | None => acc
  | Some originalBill =>
      let paidAmount := default JS.NaN (JS.get billsToPay billId) in
      let dueDifference := JS.sub (b_amount (data originalBill)) paidAmount in
      let total :=
        if JS.gtb dueDifference JS.zero then JS.add acc.1 dueDifference else acc.1 in
      (total, acc.2 ++ [UpdateBill billId (MarkPaid paidDate paymentId)])
  end.

(** The batch [addPayment] builds once the customer document is read;
    [newId] is the id of [doc(paymentCollection)]. *)
Definition addPaymentBatch (bills : list Bill) (newId : string)
    (paymentData : PaymentData) (billsToPay : JS.Obj JS.Number)
    (customerSnap : CustomerData) : list Write :=
  let batch0 := [SetPayment newId paymentData] in
  let '(totalDueDifference, batch1) :=
    fold_left (payBill bills billsToPay (p_date paymentData) newId)
              (JS.keys billsToPay) (JS.zero, batch0) in
  if JS.gtb totalDueDifference JS.zero then
    let currentOpeningDue := JS.orZero (c_openingDue customerSnap) in
    let newOpeningDue := JS.add currentOpeningDue totalDueDifference in
    batch1 ++ [UpdateOpeningDue (p_customerId paymentData) newOpeningDue]
  else batch1.

Definition addPayment (s : Session) (newId : string) (paymentData : PaymentData)
    (billsToPay : JS.Obj JS.Number) : MutationResult * Session :=
  match s with
  | SignedOut => (failure "User not authenticated.", s)
  | SignedIn db =>
      match customers db !! p_customerId paymentData with
      | None => (failure "Failed to add payment.", s)
      | Some customerSnap =>
          match commit (addPaymentBatch (billsOf s) newId paymentData billsToPay
                                        customerSnap) db with
          | Some db' => (ok, SignedIn db')
          | None => (failure "Failed to add payment.", s)
          end
      end
  end.

(** *** Payments against the opening due *)

Definition addDuePayment (s : Session) (newId : string) (paymentData : DuePaymentData)
    : MutationResult * Session :=
  match s with
  | SignedOut => (failure "User not authenticated.", s)
  | SignedIn db =>
      match getCustomerById s (dp_customerId paymentData) with
      | None => (failure "Customer not found.", s)
      | Some customer =>
          let newOpeningDue :=
            JS.sub (c_openingDue (data customer)) (dp_amount paymentData) in
          let batch := [SetDuePayment newId paymentData;
                        UpdateOpeningDue (id customer) newOpeningDue] in
          match commit batch db with
          | Some db' => (ok, SignedIn db')
          | None => (failure "Failed to add due payment.", s)
          end
      end
  end.

Definition updateDuePayment (s : Session) (updatedPayment : DuePayment)
    : MutationResult * Session :=
  match s with
  | SignedOut => (failure "User not authenticated.", s)
  | SignedIn db =>
      match findById (duePaymentsOf s) (id updatedPayment),
            getCustomerById s (dp_customerId (data updatedPayment)) with
      | Some originalPayment, Some customer =>
          let amountDifference :=
            JS.sub (dp_amount (data updatedPayment)) (dp_amount (data originalPayment)) in
          let newOpeningDue := JS.sub (c_openingDue (data customer)) amountDifference in
          let batch := [UpdateDuePayment (id updatedPayment) (data updatedPayment);
                        UpdateOpeningDue (id customer) newOpeningDue] in
          match commit batch db with
          | Some db' => (ok, SignedIn db')
          | None => (failure "Failed to update due payment.", s)
          end
      | _, _ => (failure "Payment or customer not found.", s)
      end
  end.

Definition deleteDuePayment (s : Session) (paymentId : string)
    : MutationResult * Session :=
  match s with
  | SignedOut => (failure "User not authenticated.", s)
  | SignedIn db =>
      let paymentToDelete := findById (duePaymentsOf s) paymentId in
      let customer :=
        match paymentToDelete with
        | Some p => getCustomerById s (dp_customerId (data p))
        | None => None
        end in
      match paymentToDelete, customer with
      | Some paymentToDelete, Some customer =>
          let newOpeningDue :=
            JS.add (c_openingDue (data customer)) (dp_amount (data paymentToDelete)) in
          let batch := [DeleteDuePayment paymentId;
                        UpdateOpeningDue (id customer) newOpeningDue] in
          match commit batch db with
          | Some db' => (ok, SignedIn db')
          | None => (failure "Failed to delete due payment.", s)
          end
      | _, _ => (failure "Payment or customer not found.", s)
      end
  end.

(** The customer's [openingDue] as the session shows it. *)
Definition openingDueOf (s : Session) (cid : string) : option JS.Number :=
  c_openingDue ∘ data <$> getCustomerById s cid.

(** *** The subscription gate ([useSubscriptionStatus]) *)

Module Subscription.

Record User := mkUser {
  subscriptionStatus : option string;
  (* [new Date(user.trialEndDate).getTime()], absent when the field is *)
  trialEndDate : option Z
}.

Record Gate := mkGate {
  status : string;
  isSubscribed : bool;
  isTrialActive : bool;
  isPending : bool;
  trialDaysLeft : Z;
  isLocked : bool
}.

Definition msPerDay : Z := 1000 * 60 * 60 * 24.

(** [Math.ceil(a / b)] for [b > 0]. *)
Definition ceilDiv (a b : Z) : Z := - ((- a) / b).

(** [s || 'free_trial'] on an optional string. *)
Definition orFreeTrial (s : option string) : string :=
  match s with
  | Some EmptyString | None => "free_trial"
  | Some s => s
  end.

Definition useSubscriptionStatus `{JS.UnicodeCase} (user : option User) (now : Z) : Gate :=
  let status :=
    orFreeTrial (JS.toLowerCase ∘ JS.trim <$> (user ≫= subscriptionStatus)) in
  let isSubscribed := bool_decide (status = "active") in
  let isPending := bool_decide (status = "pending") in
  let trialEndDate := user ≫= trialEndDate in
  let trialDaysLeft :=
    match trialEndDate with
    | None => 0
    | Some t => let diffTime := t - now in Z.max 0 (ceilDiv diffTime msPerDay)
    end in
  let isTrialActive := bool_decide (status = "free_trial") && (0 <? trialDaysLeft) in
  let isLocked := negb isSubscribed && negb isTrialActive && negb isPending in
  mkGate status isSubscribed isTrialActive isPending trialDaysLeft isLocked.

End Subscription.

Import Subscription.

(** * Notions the statements use *)

(** The bills after the patch [p] was sent to every bill id of [ks]. *)
Definition markAll (p : BillPatch) (ks : list string) (bs : gmap string BillData)
    : gmap string BillData :=
  map_imap (λ k b, Some (if decide (k ∈ ks) then patchBill p b else b)) bs.

(** Sums of whole numbers. *)
Definition Zsum (l : list Z) : Z := foldr Z.add 0 l.

(** The positive number [p] shifted left by [k] bits, and the double of the
    whole number [±p] below 2^53: the mantissa normalised to 53 bits. *)
Definition shiftl_pos (p : positive) (k : Z) : positive :=
  match k with Zpos d => Pos.iter xO p d | _ => p end.

Definition canon (s : bool) (p : positive) : JS.Number :=
  S754_finite s (shiftl_pos p (53 - Zpos (digits2_pos p))) (Zpos (digits2_pos p) - 53).

Definition signed (s : bool) (p : positive) : Z := cond_Zopp s (Zpos p).

(** A whole amount: the double of a whole number below 2^53 in size. *)
Definition whole (x : JS.Number) : Prop :=
  x = JS.ofZ (JS.toZ x) ∧ Z.abs (JS.toZ x) < 2 ^ 53.

(** The running shortfall with the allocation of [k] taken in: the
    difference [bill.amount − amountApplied] is added when it is positive;
    an allocation that matches no bill adds nothing. *)
Definition addShortfall (bs : gmap string BillData) (billsToPay : JS.Obj JS.Number)
    (total : JS.Number) (k : string) : JS.Number :=
  match bs !! k with
  | Some b =>
      let d := JS.sub (b_amount b) (default JS.NaN (JS.get billsToPay k)) in
      if JS.gtb d JS.zero then JS.add total d else total
  | None => total
  end.

(** The shortfall of a payment: the positive differences, added up in
    double arithmetic from 0 in the order of the allocations. *)
Definition totalShortfall (bs : gmap string BillData) (billsToPay : JS.Obj JS.Number)
    : JS.Number :=
  fold_left (addShortfall bs billsToPay) (JS.keys billsToPay) JS.zero.

(** The opening due [due] after a payment with the shortfall [total]. *)
Definition dueAfter (due total : JS.Number) : JS.Number :=
  if JS.gtb total JS.zero then JS.add (JS.orZero due) total else due.

(** The store after a successful [addPayment]. *)
Definition paidStore (db : Store) (newId : string) (paymentData : PaymentData)
    (billsToPay : JS.Obj JS.Number) (customerSnap : CustomerData) : Store :=
  let total := totalShortfall (bills db) billsToPay in
  mkStore
    (if JS.gtb total JS.zero
     then <[p_customerId paymentData :=
              setOpeningDue (JS.add (JS.orZero (c_openingDue customerSnap)) total)
                            customerSnap]>
            (customers db)
     else customers db)
    (<[newId := paymentData]> (payments db))
    (areas db) (duePayments db)
    (markAll (MarkPaid (p_date paymentData) newId) (JS.keys billsToPay) (bills db)).

Definition storeOf (s : Session) : Store :=
  match s with SignedOut => emptyStore | SignedIn db => db end.

(** The sum the payment-conservation property writes, for whole amounts:
    over the allocations [(billId, amountApplied)],
    [max(0, bill.amount − amountApplied)]. *)
Definition shortfallSum (bs : gmap string BillData) (billsToPay : JS.Obj JS.Number) : Z :=
  Zsum ((λ ka, match bs !! ka.1 with
               | Some b => Z.max 0 (JS.toZ (b_amount b) - JS.toZ ka.2)
               | None => 0
               end) <$> billsToPay).

(** The size of the amounts a payment works on: the allocations and the
    amounts of their bills. *)
Definition allocationsSize (bs : gmap string BillData) (billsToPay : JS.Obj JS.Number) : Z :=
  Zsum ((λ ka, match bs !! ka.1 with
               | Some b => Z.abs (JS.toZ (b_amount b)) + Z.abs (JS.toZ ka.2)
               | None => 0
               end) <$> billsToPay).

(** The allocations and the amounts of their bills are whole. *)
Definition wholeAllocations (bs : gmap string BillData) (billsToPay : JS.Obj JS.Number)
    : Prop :=
  ∀ k a b, (k, a) ∈ billsToPay → bs !! k = Some b → whole a ∧ whole (b_amount b).

(** A store for the concrete scenarios: one customer with an opening due of
    200 and its unpaid bill of January 2024. *)
Definition exCustomer : CustomerData :=
  mkCustomer "Rahim" "01700" "Road 1" "North" 500 ACTIVE (JS.mkDate 2024 0 15 0) 200 None.

Definition exBillA : BillData :=
  mkBill "c1" 500 1 2024 UNPAID (JS.mkDate 2024 0 31 0) None None None.

Definition exStore : Store :=
  mkStore {["c1" := exCustomer]} ∅ ∅ ∅ {["c1-2024-1" := exBillA]}.

(** The same store with an opening due of 400. *)
Definition exPaidStore : Store :=
  mkStore {["c1" := setOpeningDue 400 exCustomer]} ∅ ∅ ∅
          {["c1-2024-1" := patchBill (MarkPaid "2024-02-01T00:00:00.000Z" "p1") exBillA]}.

Definition exPayment : PaymentData := mkPayment "c1" 300 "2024-02-01T00:00:00.000Z" None.

(** The store of the scenario with an opening due of 2^53, the first whole
    number whose successor is not a double. *)
Definition exLargeDue : Store :=
  mkStore {["c1" := setOpeningDue (JS.ofZ (2 ^ 53)) exCustomer]} ∅ ∅ ∅
          {["c1-2024-1" := exBillA]}.

(** A write that touches the bill document [k]. *)
Definition targetsBill (k : string) (w : Write) : Prop :=
  match w with
  | SetBill k' _ | UpdateBill k' _ => k' = k
  | _ => False
  end.

(** The allocations whose bill is in the bill list. *)
Definition knownAllocations (bs : gmap string BillData) (billsToPay : JS.Obj JS.Number)
    : JS.Obj JS.Number :=
  filter (λ ka, is_Some (bs !! ka.1)) billsToPay.

(** The bills once every bill referencing [paymentId] is reverted. *)
Definition undoBills (paymentId : string) (bs : gmap string BillData)
    : gmap string BillData :=
  (λ b, if decide (b_paymentId b = Some paymentId) then patchBill MarkUnpaid b else b)
  <$> bs.

Definition undoneStore (db : Store) (paymentId : string) : Store :=
  mkStore (customers db) (delete paymentId (payments db)) (areas db)
          (duePayments db) (undoBills paymentId (bills db)).

(** The scenario store after the payment "p1" of 300 against the bill of 500. *)
Definition exPaid : Session :=
  (addPayment (SignedIn exStore) "p1" exPayment [("c1-2024-1", JS.ofZ 300)]).2.

(** The payment "p1" undone, then made again with the same allocations and
    date; the new payment document gets the id "p2". *)
Definition exUndone : Session := (deletePayment exPaid "p1").2.
Definition exRepaid : Session :=
  (addPayment exUndone "p2" exPayment [("c1-2024-1", JS.ofZ 300)]).2.

(** Some area already has the name, letter case apart. *)
Definition nameTaken `{JS.UnicodeCase} (ars : gmap string AreaData) (name : string) : Prop :=
  ∃ k a, ars !! k = Some a ∧ JS.toLowerCase (a_name a) = JS.toLowerCase name.

(** No two area documents have names equal up to letter case. *)
Definition caseUnique `{JS.UnicodeCase} (ars : gmap string AreaData) : Prop :=
  ∀ k1 k2 a1 a2, ars !! k1 = Some a1 → ars !! k2 = Some a2 →
    JS.toLowerCase (a_name a1) = JS.toLowerCase (a_name a2) → k1 = k2.

(** The scenarios hold ASCII strings only, on which [toLowerCase] does not
    look at the conversion of the other strings: they are run with the
    conversion that leaves those as they are. *)
Definition asciiOnly : JS.UnicodeCase := λ s, s.

(** A store with the single area "North". *)
Definition exAreas : Store := mkStore ∅ ∅ {["a1" := mkArea "North"]} ∅ ∅.

(** A user whose subscription request is pending and whose trial ended. *)
Definition exPendingUser : User := mkUser (Some "pending") (Some 0).

(** The (year, month) pairs the [while] loop goes through. *)
Fixpoint visitedMonths (fuel : nat) (currentYear currentMonth : Z)
    (loopDate : JS.Date) : list (Z * Z) :=
  match fuel with
  | O => []
  | S fuel' =>
      if inRange currentYear currentMonth loopDate then
        (JS.getFullYear loopDate, JS.getMonth loopDate + 1)
        :: visitedMonths fuel' currentYear currentMonth
             (JS.setMonth loopDate (JS.getMonth loopDate + 1))
      else []
  end.

(** [bills.some(b => b.id === billId)] *)
Definition billExists (bills : list Bill) (billId : string) : bool :=
  existsb (λ b, bool_decide (id b = billId)) bills.

(** The bills emitted for [customer] over [months]: one per month whose key
    is not in [bills]. *)
Definition emitBills (bills : list Bill) (customer : Customer)
    (months : list (Z * Z)) : list Write :=
  (λ ym, SetBill (billIdOf (id customer) ym.1 ym.2) (newBillOf customer ym.1 ym.2))
  <$> filter (λ ym, billExists bills (billIdOf (id customer) ym.1 ym.2) = false) months.

Definition monthsVisited (currentDate : JS.Date) (customer : Customer) : list (Z * Z) :=
  if bool_decide (c_connectionStatus (data customer) = ACTIVE) then
    let startDate := c_startDate (data customer) in
    if JS.Date_gtb startDate currentDate then []
    else
      let loopDate := JS.newDate (JS.getFullYear startDate) (JS.getMonth startDate) 1 in
      visitedMonths
        (monthsLeft (JS.getFullYear currentDate) (JS.getMonth currentDate) loopDate)
        (JS.getFullYear currentDate) (JS.getMonth currentDate) loopDate
  else [].

Definition isSetBill (w : Write) : Prop :=
  match w with SetBill _ _ => True | _ => False end.

(** [n] calendar months from ([year], [month]) on, [month] from 1 to 12. *)
Fixpoint monthsFrom (n : nat) (year month : Z) : list (Z * Z) :=
  match n with
  | O => []
  | S n' =>
      (year, month)
      :: (if month =? 12 then monthsFrom n' (year + 1) 1
          else monthsFrom n' year (month + 1))
  end.

(** The calendar months from the month of [startDate] through the month of
    [currentDate], both included. *)
Definition calendarMonths (startDate currentDate : JS.Date) : list (Z * Z) :=
  monthsFrom
    (Z.to_nat ((JS.getFullYear currentDate - JS.getFullYear startDate) * 12
               + (JS.getMonth currentDate - JS.getMonth startDate) + 1))
    (JS.getFullYear startDate) (JS.getMonth startDate + 1).

(** The customer of the generation scenario, the start year typed as 0024
    instead of 2024, and the day of the run, 2024-03-20. *)
Definition exTypoCustomer : Customer :=
  mkDoc "c1" (mkCustomer "Rahim" "01700" "Road 1" "North" 500 ACTIVE
                         (JS.mkDate 24 0 15 0) 0 None).

Definition exToday : JS.Date := JS.mkDate 2024 2 20 0.

(** * More of the data context and of the screens *)

(** ** Customers and areas: [updateCustomer], [addCustomer],
    [deleteCustomer], [deleteArea] *)

(** The writes of these functions, beside the ones above. *)
Inductive WriteMore :=
| Basic (w : Write)
| SetCustomer (k : string) (c : CustomerData)
| UpdateCustomer (k : string) (c : CustomerData)
| DeleteCustomer (k : string)
| DeleteBill (k : string)
| DeleteArea (k : string).

(** [update(ref, cleanData(data))] of a customer: [cleanData] drops the
    fields that are [undefined], here an absent [reactivationDate], and the
    fields left replace the stored ones. *)
Definition mergeCustomer (new old : CustomerData) : CustomerData :=
  mkCustomer (c_name new) (c_phone new) (c_address new) (c_area new)
             (c_monthlyBill new) (c_connectionStatus new) (c_startDate new)
             (c_openingDue new)
             (match c_reactivationDate new with
              | Some r => Some r
              | None => c_reactivationDate old
              end).

Definition applyWriteMore (w : WriteMore) (db : Store) : option Store :=
  match w with
  | Basic w => applyWrite w db
  | SetCustomer k c => Some (withCustomers (<[k := c]> (customers db)) db)
  | UpdateCustomer k c =>
      old ← customers db !! k;
      Some (withCustomers (<[k := mergeCustomer c old]> (customers db)) db)
  | DeleteCustomer k => Some (withCustomers (delete k (customers db)) db)
  | DeleteBill k => Some (withBills (delete k (bills db)) db)
  | DeleteArea k => Some (withAreas (delete k (areas db)) db)
  end.

Fixpoint commitMore (batch : list WriteMore) (db : Store) : option Store :=
  match batch with
  | [] => Some db
  | w :: rest => db' ← applyWriteMore w db; commitMore rest db'
  end.

(** [updateCustomer]: [const { id, ...data } = updatedCustomer] and one
    [updateDoc]. *)
Definition updateCustomer (s : Session) (updatedCustomer : Customer)
    : MutationResult * Session :=
  match s with
  | SignedOut => (failure "User not authenticated.", s)
  | SignedIn db =>
      match applyWriteMore (UpdateCustomer (id updatedCustomer) (data updatedCustomer)) db with
      | Some db' => (ok, SignedIn db')
      | None => (failure "Failed to update customer.", s)
      end
  end.

Definition deleteArea (s : Session) (areaId : string) : MutationResult * Session :=
  match s with
  | SignedOut => (failure "User not authenticated.", s)
  | SignedIn db =>
      match applyWriteMore (DeleteArea areaId) db with
      | Some db' => (ok, SignedIn db')
      | None => (failure "Failed to delete area.", s)
      end
  end.

(** [addCustomer]: the customer document, then [addArea] when the customer
    names an area that no area has letter for letter; the result of
    [addArea] is not looked at.  [newId] and [newAreaId] are the ids
    [addDoc] gives. *)
Definition addCustomer `{JS.UnicodeCase} (s : Session) (newId newAreaId : string)
    (customerData : CustomerData) (openingDue : JS.Number) : MutationResult * Session :=
  match s with
  | SignedOut => (failure "User not authenticated.", s)
  | SignedIn db =>
      let newCustomerData := setOpeningDue openingDue customerData in
      match applyWriteMore (SetCustomer newId newCustomerData) db with
      | Some db1 =>
          if negb (bool_decide (c_area customerData = "")) &&
             negb (existsb (λ a, bool_decide (a_name (data a) = c_area customerData))
                           (areasOf s))
          then (ok, (addArea (SignedIn db1) newAreaId (c_area customerData)).2)
          else (ok, SignedIn db1)
      | None => (failure "Failed to add customer.", s)
      end
  end.

(** [deleteCustomer]: the payments, due payments and bills of the customer
    and the customer, in one batch. *)
Definition deleteCustomer (s : Session) (customerId : string)
    : MutationResult * Session :=
  match s with
  | SignedOut => (failure "User not authenticated.", s)
  | SignedIn db =>
      let batch :=
        ((λ p : Payment, Basic (DeletePayment (id p)))
           <$> filter (λ p : Payment, p_customerId (data p) = customerId) (paymentsOf s))
        ++ ((λ p : DuePayment, Basic (DeleteDuePayment (id p)))
              <$> filter (λ p : DuePayment, dp_customerId (data p) = customerId)
                         (duePaymentsOf s))
        ++ ((λ b : Bill, DeleteBill (id b))
              <$> filter (λ b : Bill, b_customerId (data b) = customerId) (billsOf s))
        ++ [DeleteCustomer customerId] in
      match commitMore batch db with
      | Some db' => (ok, SignedIn db')
      | None => (failure "Failed to delete customer.", s)
      end
  end.

(** ** Lists of bills: [getBillsByCustomerId] and the unpaid bills of
    [CollectBillModal] *)

(** [arr.sort(cmp)], a stable sort: [x] goes after [y] when [cmp x y > 0]. *)
Fixpoint insertBy {A} (cmp : A → A → Z) (x : A) (l : list A) : list A :=
  match l with
  | [] => [x]
  | y :: l' => if 0 <? cmp x y then y :: insertBy cmp x l' else x :: l
  end.

Definition sortBy {A} (cmp : A → A → Z) (l : list A) : list A :=
  foldr (insertBy cmp) [] l.

(** [x || y] on numbers. *)
Definition orElse (x y : Z) : Z := if x =? 0 then y else x.

(** [(a, b) => b.year - a.year || b.month - a.month] *)
Definition compareNewestFirst (a b : Bill) : Z :=
  orElse (b_year (data b) - b_year (data a)) (b_month (data b) - b_month (data a)).

(** [(a, b) => a.year - b.year || a.month - a.month] *)
Definition compareOldestFirst (a b : Bill) : Z :=
  orElse (b_year (data a) - b_year (data b)) (b_month (data a) - b_month (data a)).

Definition getBillsByCustomerId (s : Session) (customerId : string) : list Bill :=
  sortBy compareNewestFirst
         (filter (λ b : Bill, b_customerId (data b) = customerId) (billsOf s)).

Definition unpaidBills (s : Session) (customerId : string) : list Bill :=
  sortBy compareOldestFirst
         (filter (λ b : Bill, b_status (data b) = UNPAID)
                 (getBillsByCustomerId s customerId)).

(** ** The totals of the screens *)

(** [bills.filter(b => b.status === UNPAID).reduce((sum, bill) => sum + bill.amount, 0)] *)
Definition unpaidTotal (bills : list Bill) : JS.Number :=
  fold_left (λ sum bill, JS.add sum (b_amount (data bill)))
            (filter (λ b : Bill, b_status (data b) = UNPAID) bills) JS.zero.

(** [customers.reduce((sum, customer) => sum + customer.openingDue, 0)] *)
Definition openingDueTotal (customers : list Customer) : JS.Number :=
  fold_left (λ sum customer, JS.add sum (c_openingDue (data customer))) customers JS.zero.

(** [totalDue] of [HomeScreen]. *)
Definition homeTotalDue (s : Session) : JS.Number :=
  let totalMonthlyDue := unpaidTotal (billsOf s) in
  let totalOpeningDue := openingDueTotal (customersOf s) in
  JS.add totalMonthlyDue totalOpeningDue.

(** [monthlyDue] of [CustomerDetailScreen]. *)
Definition customerMonthlyDue (s : Session) (customerId : string) : JS.Number :=
  unpaidTotal (getBillsByCustomerId s customerId).

(** [totalDue] and [totalCustomersInFilter] of [ReportsScreen]. *)
Definition reportCustomers (s : Session) (areaFilter : string) : list Customer :=
  filter (λ c : Customer, areaFilter = "all" ∨ c_area (data c) = areaFilter)
         (customersOf s).

Definition reportTotalDue (s : Session) (areaFilter : string) : JS.Number :=
  let filteredCustomers := reportCustomers s areaFilter in
  let filteredCustomerIds : gset string := list_to_set (id <$> filteredCustomers) in
  let filteredBills :=
    filter (λ b : Bill, b_customerId (data b) ∈ filteredCustomerIds) (billsOf s) in
  let monthlyDue := unpaidTotal filteredBills in
  let openingDue := openingDueTotal filteredCustomers in
  JS.add monthlyDue openingDue.

(** ** The selection of [CollectBillModal] *)

(** The text of an amount input: [''], a text [parseFloat] reads as the
    number [amount], or one it reads as [NaN]. *)
Inductive AmountText := EmptyText | NumberText (amount : JS.Number) | NotANumber.

(** [parseFloat(value)] *)
Definition parseFloat (value : AmountText) : JS.Number :=
  match value with
  | NumberText amount => amount
  | EmptyText | NotANumber => JS.NaN
  end.

Definition handleToggleBillSelection (prev : JS.Obj JS.Number) (bill : Bill)
    : JS.Obj JS.Number :=
  if JS.hasOwnProperty prev (id bill) then JS.remove prev (id bill)
  else JS.assign prev (id bill) (b_amount (data bill)).

Definition handleAmountChange (prev : JS.Obj JS.Number) (billId : string)
    (value : AmountText) (maxAmount : JS.Number) : JS.Obj JS.Number :=
  let amount := parseFloat value in
  match value with
  | EmptyText => JS.assign prev billId JS.zero
  | _ =>
      if negb (JS.isNaN amount) && JS.geb amount JS.zero && JS.leb amount maxAmount
      then JS.assign prev billId amount
      else prev
  end.

(** [Object.values(selectedBills).reduce((total, amount) => total + amount, 0)] *)
Definition totalSelectedAmount (selectedBills : JS.Obj JS.Number) : JS.Number :=
  fold_left (λ total amount, JS.add total amount) (JS.values selectedBills) JS.zero.

(** What the user does on a bill row: the checkbox, or the amount input,
    which calls [handleAmountChange(bill.id, value, bill.amount)]. *)
Inductive ModalEvent :=
| ToggleBill (bill : Bill)
| ChangeAmount (bill : Bill) (value : AmountText).

Definition eventBill (e : ModalEvent) : Bill :=
  match e with ToggleBill b | ChangeAmount b _ => b end.

Definition modalStep (selectedBills : JS.Obj JS.Number) (e : ModalEvent)
    : JS.Obj JS.Number :=
  match e with
  | ToggleBill bill => handleToggleBillSelection selectedBills bill
  | ChangeAmount bill value =>
      handleAmountChange selectedBills (id bill) value (b_amount (data bill))
  end.

(** The selection after the events, from the empty selection the modal
    opens with. *)
Definition selectionAfter (events : list ModalEvent) : JS.Obj JS.Number :=
  fold_left modalStep events [].

(** [handleSubmit] of [CollectBillModal]: nothing with an empty selection,
    else one [addPayment] of the selected total. *)
Definition collectBillSubmit (s : Session) (newId : string) (customerId : string)
    (selectedBills : JS.Obj JS.Number) (date : string)
    : option (MutationResult * Session) :=
  if (length (JS.keys selectedBills) =? 0)%nat then None
  else
    Some (addPayment s newId
            (mkPayment customerId (totalSelectedAmount selectedBills) date
               (Some ("Paid for " +:+ pretty (length (JS.keys selectedBills))
                      +:+ " bill(s).")))
            selectedBills).

(** A selection of the modal: no bill twice, each entry on a bill of
    [unpaid] with an amount between 0 and the amount of the bill, the
    amounts in [P]. *)
Definition selectionOk (unpaid : list Bill) (P : JS.Number → Prop)
    (sel : JS.Obj JS.Number) : Prop :=
  NoDup (JS.keys sel)
  ∧ ∀ k a, (k, a) ∈ sel →
      P a ∧ ∃ b : Bill, b ∈ unpaid ∧ id b = k
                        ∧ JS.leb JS.zero a = true
                        ∧ JS.leb a (b_amount (data b)) = true.

(** ** Trial and subscription request *)

(** The user document: the profile fields the gate reads and the request
    [submitSubscriptionRequest] stores (sender phone, transaction id,
    request date). *)
Record UserDoc := mkUserDoc {
  profile : User;
  subscriptionRequest : option (string * string * string)
}.

(** The trial end of [register] and of the migration of old users, in
    milliseconds: [new Date()], [setDate(getDate() + 30)],
    [setHours(23, 59, 59, 999)], for a local time at a fixed offset
    [tzOffset] from UTC. *)
Definition trialEndFor (tzOffset now : Z) : Z :=
  let localNow := now + tzOffset in
  let shifted := localNow + 30 * msPerDay in
  let endOfDay := shifted / msPerDay * msPerDay
                  + (23 * 3600000 + 59 * 60000 + 59 * 1000 + 999) in
  endOfDay - tzOffset.

(** The user document [register] writes. *)
Definition registeredUser (tzOffset now : Z) : UserDoc :=
  mkUserDoc (mkUser (Some "free_trial") (Some (trialEndFor tzOffset now))) None.

(** [submitSubscriptionRequest] on the user document ([None]: no user). *)
Definition submitSubscriptionRequest (user : option UserDoc)
    (senderPhone transactionId requestDate : string)
    : MutationResult * option UserDoc :=
  match user with
  | None => (failure "User not authenticated.", user)
  | Some u =>
      (ok, Some (mkUserDoc (mkUser (Some "pending") (trialEndDate (profile u)))
                           (Some (senderPhone, transactionId, requestDate))))
  end.

(** The banner of [TrialStatusBanner]. *)
Inductive Banner := PendingBanner | TrialBanner (daysLeft : Z) | ExpiredBanner | NoBanner.

Definition trialStatusBanner (g : Gate) : Banner :=
  if isPending g then PendingBanner
  else if isTrialActive g then TrialBanner (trialDaysLeft g)
  else if isLocked g then ExpiredBanner
  else NoBanner.

(** ** Notions the further statements use *)

(** Every bill belongs to a customer of the store. *)
Definition billsHaveCustomers (db : Store) : Prop :=
  ∀ k b, bills db !! k = Some b → is_Some (customers db !! b_customerId b).

(** Sum of [f] over the documents of a collection. *)
Definition mapSum {A} (f : string * A → Z) (m : gmap string A) : Z :=
  Zsum (f <$> map_to_list m).

(** The whole amount a bill counts for in the total due. *)
Definition unpaidAmount (b : BillData) : Z :=
  if decide (b_status b = UNPAID) then JS.toZ (b_amount b) else 0.

(** The amounts of the store are whole: the amounts of the bills and the
    opening dues of the customers. *)
Definition wholeStore (db : Store) : Prop :=
  (∀ k b, bills db !! k = Some b → whole (b_amount b))
  ∧ (∀ k c, customers db !! k = Some c → whole (c_openingDue c)).

(** The size of the amounts the total due adds up, the unpaid bills and
    the opening dues, and the total due in whole numbers. *)
Definition storeSize (db : Store) : Z :=
  mapSum (λ kv, Z.abs (unpaidAmount kv.2)) (bills db)
  + mapSum (λ kv, Z.abs (JS.toZ (c_openingDue kv.2))) (customers db).

Definition totalDueZ (db : Store) : Z :=
  mapSum (λ kv, unpaidAmount kv.2) (bills db)
  + mapSum (λ kv, JS.toZ (c_openingDue kv.2)) (customers db).

(** The money of the allocations and the unpaid amounts of the bills they
    name, in whole numbers. *)
Definition collectedZ (billsToPay : JS.Obj JS.Number) : Z :=
  Zsum ((λ ka, JS.toZ ka.2) <$> billsToPay).

Definition selectedDue (bs : gmap string BillData) (billsToPay : JS.Obj JS.Number) : Z :=
  Zsum ((λ ka, match bs !! ka.1 with
               | Some b => unpaidAmount b
               | None => 0
               end) <$> billsToPay).

(** A selection that names each bill once and unpaid bills only, each
    amount between 0 and the amount of its bill. *)
Definition validSelection (bs : gmap string BillData) (selectedBills : JS.Obj JS.Number)
    : Prop :=
  NoDup (JS.keys selectedBills)
  ∧ ∀ k a, (k, a) ∈ selectedBills →
      ∃ b, bs !! k = Some b ∧ b_status b = UNPAID
           ∧ JS.leb JS.zero a = true ∧ JS.leb a (b_amount b) = true.

(** Bills ordered newest first, and the order [unpaidBills] ends with:
    years ascending, the months of one year newest first. *)
Definition newestFirst (a b : Bill) : Prop :=
  b_year (data b) < b_year (data a)
  ∨ (b_year (data b) = b_year (data a) ∧ b_month (data b) ≤ b_month (data a)).

Definition yearsUpMonthsDown (a b : Bill) : Prop :=
  b_year (data a) < b_year (data b)
  ∨ (b_year (data a) = b_year (data b) ∧ b_month (data b) ≤ b_month (data a)).

(** What a signed-in user can do to the store, and its effect. *)
Inductive Mutation :=
| DoAddCustomer (newId newAreaId : string) (customerData : CustomerData)
    (openingDue : JS.Number)
| DoUpdateCustomer (updatedCustomer : Customer)
| DoDeleteCustomer (customerId : string)
| DoAddArea (newId name : string)
| DoDeleteArea (areaId : string)
| DoGenerateBills (initialBillsLoaded : bool) (currentDate : JS.Date)
| DoAddPayment (newId : string) (paymentData : PaymentData)
    (billsToPay : JS.Obj JS.Number)
| DoDeletePayment (paymentId : string)
| DoAddDuePayment (newId : string) (paymentData : DuePaymentData)
| DoUpdateDuePayment (updatedPayment : DuePayment)
| DoDeleteDuePayment (paymentId : string).

Definition runMutation `{JS.UnicodeCase} (s : Session) (m : Mutation) : Session :=
  match m with
  | DoAddCustomer newId newAreaId c due => (addCustomer s newId newAreaId c due).2
  | DoUpdateCustomer c => (updateCustomer s c).2
  | DoDeleteCustomer cid => (deleteCustomer s cid).2
  | DoAddArea newId name => (addArea s newId name).2
  | DoDeleteArea areaId => (deleteArea s areaId).2
  | DoGenerateBills loaded now => billGenerationEffect loaded now s
  | DoAddPayment newId pd billsToPay => (addPayment s newId pd billsToPay).2
  | DoDeletePayment pid => (deletePayment s pid).2
  | DoAddDuePayment newId pd => (addDuePayment s newId pd).2
  | DoUpdateDuePayment p => (updateDuePayment s p).2
  | DoDeleteDuePayment pid => (deleteDuePayment s pid).2
  end.

(** ** The customer form ([CustomerForm]) *)

(** The state of the form; the amounts are the texts of their inputs and
    [f_startDate] the date of the date input. *)
Record CustomerFormState := mkForm {
  f_name : string;
  f_phone : string;
  f_area : string;
  f_monthlyBill : AmountText;
  f_status : ConnectionStatus;
  f_startDate : JS.Date;
  f_openingDue : AmountText;
  f_reactivationDate : string
}.

(** [parseFloat(text) || 0] *)
Definition parseOrZero (text : AmountText) : JS.Number :=
  JS.orZero (parseFloat text).

(** [commonData] of [handleSubmit], with the opening due of the form. *)
Definition formCustomerData (f : CustomerFormState) (finalMonthlyBill : JS.Number)
    : CustomerData :=
  mkCustomer (f_name f) (f_phone f) (f_area f) (f_area f) finalMonthlyBill
             (f_status f) (f_startDate f) (parseOrZero (f_openingDue f))
             (if bool_decide (f_status f = PAUSED)
                 && negb (bool_decide (f_reactivationDate f = ""))
              then Some (f_reactivationDate f) else None).

(** [handleSubmit] of the form: [None] when the monthly bill is refused
    and nothing is sent; else [updateCustomer] for the customer edited or
    [addCustomer] for a new one. *)
Definition customerFormSubmit `{JS.UnicodeCase} (s : Session) (newId newAreaId : string)
    (customer : option Customer) (f : CustomerFormState)
    : option (MutationResult * Session) :=
  let finalMonthlyBill := parseFloat (f_monthlyBill f) in
  if JS.isNaN finalMonthlyBill || JS.ltb finalMonthlyBill JS.zero then None
  else
    let data := formCustomerData f finalMonthlyBill in
    Some (match customer with
          | Some c => updateCustomer s (mkDoc (id c) data)
          | None => addCustomer s newId newAreaId data (parseOrZero (f_openingDue f))
          end).

(** * Properties *)

(** ** Whole numbers in double arithmetic

    Additions and subtractions of whole numbers are exact as long as the
    operands and the result are below 2^53 in size. *)

Lemma iter_pos_iter {A} (f : A -> A) (n : positive) (x : A) :
  SpecFloat.iter_pos f n x = Pos.iter f x n.
Proof.
  revert x. induction n as [n IH|n IH|]; intros x; cbn [SpecFloat.iter_pos Pos.iter].
  - rewrite !IH. rewrite <- !Pos.iter_swap. reflexivity.
  - rewrite !IH. reflexivity.
  - reflexivity.
Qed.

Lemma shiftl_pos_add p j k : 0 <= j -> 0 <= k ->
  shiftl_pos (shiftl_pos p j) k = shiftl_pos p (j + k).
Proof.
  intros Hj Hk. destruct j as [|j|j]; [reflexivity| |lia].
  destruct k as [|k|k]; [reflexivity| |lia].
  change (Z.pos j + Z.pos k) with (Z.pos (j + k)). cbn [shiftl_pos].
  rewrite Pos.add_comm. symmetry. apply Pos.iter_add.
Qed.

Lemma digits_iter p d : digits2_pos (Pos.iter xO p d) = (digits2_pos p + d)%positive.
Proof.
  induction d as [|d IH] using Pos.peano_ind.
  - cbn. lia.
  - rewrite Pos.iter_succ. cbn [digits2_pos]. rewrite IH. lia.
Qed.

Lemma digits_shiftl p k : 0 <= k ->
  Zpos (digits2_pos (shiftl_pos p k)) = Zpos (digits2_pos p) + k.
Proof.
  intros Hk. destruct k as [|k|k]; [cbn; lia| |lia].
  cbn [shiftl_pos]. rewrite digits_iter. lia.
Qed.

Lemma Zpos_iter p d : Zpos (Pos.iter xO p d) = Zpos p * 2 ^ Zpos d.
Proof.
  induction d as [|d IH] using Pos.peano_ind.
  - cbn. lia.
  - rewrite Pos.iter_succ, Pos2Z.inj_succ, Z.pow_succ_r by lia.
    rewrite Pos2Z.inj_xO, IH. lia.
Qed.

Lemma Zpos_shiftl p k : 0 <= k -> Zpos (shiftl_pos p k) = Zpos p * 2 ^ k.
Proof.
  intros Hk. destruct k as [|k|k]; [cbn; lia| |lia]. apply Zpos_iter.
Qed.

Lemma shr_iter q k :
  Pos.iter shr_1 (Build_shr_record (Zpos (Pos.iter xO q k)) false false) k
  = Build_shr_record (Zpos q) false false.
Proof.
  induction k as [|k IH] using Pos.peano_ind.
  - reflexivity.
  - rewrite Pos.iter_succ_r. rewrite Pos.iter_succ. cbn [shr_1 orb]. exact IH.
Qed.

Lemma digits_lower p : 2 ^ (Zpos (digits2_pos p) - 1) <= Zpos p.
Proof.
  induction p as [p IH|p IH|]; cbn [digits2_pos]; [| |cbn; lia].
  - rewrite Pos2Z.inj_succ. replace (Z.succ (Zpos (digits2_pos p)) - 1)
      with (Z.succ (Zpos (digits2_pos p) - 1)) by lia.
    rewrite Z.pow_succ_r by lia. lia.
  - rewrite Pos2Z.inj_succ. replace (Z.succ (Zpos (digits2_pos p)) - 1)
      with (Z.succ (Zpos (digits2_pos p) - 1)) by lia.
    rewrite Z.pow_succ_r by lia. lia.
Qed.

Lemma digits_le_53 p : Zpos p < 2 ^ 53 -> Zpos (digits2_pos p) <= 53.
Proof.
  intros Hp. pose proof (digits_lower p) as Hl.
  destruct (Z_le_gt_dec (Zpos (digits2_pos p)) 53) as [|Hgt]; [assumption|].
  assert (2 ^ 53 <= 2 ^ (Zpos (digits2_pos p) - 1)) by (apply Z.pow_le_mono_r; lia).
  lia.
Qed.

Lemma binary_round_shifted s p j :
  0 <= j -> Zpos (digits2_pos p) <= 53 ->
  binary_round 53 1024 s (shiftl_pos p j) (- j) = canon s p.
Proof.
  intros Hj Hd. unfold binary_round, canon.
  set (d := Zpos (digits2_pos p)) in *.
  assert (1 <= d) as Hd1 by (unfold d; lia).
  rewrite digits_shiftl by assumption. fold d.
  assert (fexp 53 1024 (d + j + - j) = d - 53) as ->.
  { unfold fexp, emin. lia. }
  unfold shl_align.
  destruct (d - 53 - - j) as [|k|k] eqn:Hk.
  - (* already canonical *)
    unfold binary_round_aux, shr_fexp. cbn [Zdigits2].
    rewrite digits_shiftl by assumption. fold d.
    assert (fexp 53 1024 (d + j + - j) - - j = 0) as ->.
    { unfold fexp, emin. lia. }
    cbn [shr shr_record_of_loc shr_m loc_of_shr_record round_nearest_even Zdigits2].
    rewrite digits_shiftl by assumption. fold d.
    assert (fexp 53 1024 (d + j + - j) - - j = 0) as ->.
    { unfold fexp, emin. lia. }
    cbn [shr shr_record_of_loc shr_m].
    assert ((- j <=? 1024 - 53) = true) as -> by (apply Z.leb_le; lia).
    f_equal; [f_equal|]; lia.
  - (* shift right by k *)
    unfold binary_round_aux, shr_fexp. cbn [Zdigits2].
    rewrite digits_shiftl by assumption. fold d.
    assert (fexp 53 1024 (d + j + - j) - - j = Zpos k) as ->.
    { unfold fexp, emin. lia. }
    cbn [shr shr_record_of_loc]. rewrite iter_pos_iter.
    assert (shiftl_pos p j = Pos.iter xO (shiftl_pos p (53 - d)) k) as ->.
    { change (Pos.iter xO (shiftl_pos p (53 - d)) k)
        with (shiftl_pos (shiftl_pos p (53 - d)) (Zpos k)).
      rewrite shiftl_pos_add by lia. f_equal. lia. }
    rewrite shr_iter.
    cbn [shr_m loc_of_shr_record round_nearest_even Zdigits2].
    rewrite digits_shiftl by lia. fold d.
    assert (fexp 53 1024 (d + (53 - d) + (- j + Zpos k)) - (- j + Zpos k) = 0) as ->.
    { unfold fexp, emin. lia. }
    cbn [shr shr_record_of_loc shr_m].
    assert ((- j + Zpos k <=? 1024 - 53) = true) as -> by (apply Z.leb_le; lia).
    f_equal. lia.
  - (* shift left by k *)
    change (Pos.iter xO (shiftl_pos p j) k) with (shiftl_pos (shiftl_pos p j) (Zpos k)).
    rewrite shiftl_pos_add by lia.
    replace (j + Zpos k) with (53 - d) by lia.
    unfold binary_round_aux, shr_fexp. cbn [Zdigits2].
    rewrite digits_shiftl by lia. fold d.
    assert (fexp 53 1024 (d + (53 - d) + (d - 53)) - (d - 53) = 0) as ->.
    { unfold fexp, emin. lia. }
    cbn [shr shr_record_of_loc shr_m loc_of_shr_record round_nearest_even Zdigits2].
    rewrite digits_shiftl by lia. fold d.
    assert (fexp 53 1024 (d + (53 - d) + (d - 53)) - (d - 53) = 0) as ->.
    { unfold fexp, emin. lia. }
    cbn [shr shr_record_of_loc shr_m].
    assert ((d - 53 <=? 1024 - 53) = true) as -> by (apply Z.leb_le; lia).
    reflexivity.
Qed.


Lemma ofZ_canon n :
  Z.abs n < 2 ^ 53 ->
  JS.ofZ n = match n with
             | Z0 => S754_zero false
             | Zpos p => canon false p
             | Zneg p => canon true p
             end.
Proof.
  intros Hn. destruct n as [|p|p]; [reflexivity| |].
  - apply (binary_round_shifted false p 0); [lia|]. apply digits_le_53. lia.
  - apply (binary_round_shifted true p 0); [lia|]. apply digits_le_53. lia.
Qed.

Lemma ofZ_signed s p : Zpos p < 2 ^ 53 -> JS.ofZ (signed s p) = canon s p.
Proof.
  intros Hp. rewrite ofZ_canon by (destruct s; cbn; lia). destruct s; reflexivity.
Qed.

Lemma shl_align_fst m ex ez :
  ez <= ex -> fst (shl_align m ex ez) = shiftl_pos m (ex - ez).
Proof.
  intros H. unfold shl_align.
  destruct (ez - ex) as [|d|d] eqn:Hd; [| lia |].
  - replace (ex - ez) with 0 by lia. reflexivity.
  - replace (ex - ez) with (Zpos d) by lia. reflexivity.
Qed.

Lemma binary_normalize_shifted n j :
  0 <= j -> Z.abs n < 2 ^ 53 ->
  binary_normalize 53 1024 (n * 2 ^ j) (- j) false = JS.ofZ n.
Proof.
  intros Hj Hn. rewrite ofZ_canon by assumption.
  destruct n as [|p|p].
  - reflexivity.
  - assert (Zpos p * 2 ^ j = Zpos (shiftl_pos p j)) as -> by (rewrite Zpos_shiftl; lia).
    apply binary_round_shifted; [assumption|]. apply digits_le_53. lia.
  - assert (Zneg p * 2 ^ j = Zneg (shiftl_pos p j)) as ->.
    { rewrite <- !Pos2Z.opp_pos, Zpos_shiftl by assumption. lia. }
    apply binary_round_shifted; [assumption|]. apply digits_le_53. lia.
Qed.

Lemma aligned_mantissa s p ez :
  Zpos (digits2_pos p) <= 53 -> ez <= Zpos (digits2_pos p) - 53 ->
  cond_Zopp s (Zpos (fst (shl_align (shiftl_pos p (53 - Zpos (digits2_pos p)))
                                     (Zpos (digits2_pos p) - 53) ez)))
  = signed s p * 2 ^ (- ez).
Proof.
  intros Hd He. rewrite shl_align_fst by assumption.
  rewrite shiftl_pos_add by lia. rewrite Zpos_shiftl by lia.
  replace (53 - Zpos (digits2_pos p) + (Zpos (digits2_pos p) - 53 - ez)) with (- ez) by lia.
  unfold signed. destruct s; cbn [cond_Zopp]; lia.
Qed.

Lemma add_canon sa pa sb pb :
  Zpos pa < 2 ^ 53 -> Zpos pb < 2 ^ 53 ->
  Z.abs (signed sa pa + signed sb pb) < 2 ^ 53 ->
  JS.add (canon sa pa) (canon sb pb) = JS.ofZ (signed sa pa + signed sb pb).
Proof.
  intros Ha Hb Hab. apply digits_le_53 in Ha, Hb.
  unfold JS.add, canon, SFadd.
  set (ez := Z.min _ _).
  rewrite !aligned_mantissa by (assumption || (unfold ez; lia)).
  rewrite <- Z.mul_add_distr_r.
  rewrite <- (Z.opp_involutive ez) at 2.
  apply binary_normalize_shifted; [unfold ez; lia|assumption].
Qed.

Lemma sub_canon sa pa sb pb :
  Zpos pa < 2 ^ 53 -> Zpos pb < 2 ^ 53 ->
  Z.abs (signed sa pa - signed sb pb) < 2 ^ 53 ->
  JS.sub (canon sa pa) (canon sb pb) = JS.ofZ (signed sa pa - signed sb pb).
Proof.
  intros Ha Hb Hab. apply digits_le_53 in Ha, Hb.
  unfold JS.sub, canon, SFsub.
  set (ez := Z.min _ _).
  rewrite !aligned_mantissa by (assumption || (unfold ez; lia)).
  rewrite <- Z.mul_sub_distr_r.
  rewrite <- (Z.opp_involutive ez) at 2.
  apply binary_normalize_shifted; [unfold ez; lia|assumption].
Qed.

Lemma ofZ_cases n :
  Z.abs n < 2 ^ 53 ->
  (n = 0 /\ JS.ofZ n = S754_zero false)
  \/ (exists s p, n = signed s p /\ Zpos p < 2 ^ 53 /\ JS.ofZ n = canon s p).
Proof.
  intros Hn. destruct n as [|p|p].
  - left. split; reflexivity.
  - right. exists false, p. split; [reflexivity|]. split; [lia|].
    apply (ofZ_signed false). lia.
  - right. exists true, p. split; [reflexivity|]. split; [lia|].
    apply (ofZ_signed true). lia.
Qed.

Lemma add_ofZ a b :
  Z.abs a < 2 ^ 53 -> Z.abs b < 2 ^ 53 -> Z.abs (a + b) < 2 ^ 53 ->
  JS.add (JS.ofZ a) (JS.ofZ b) = JS.ofZ (a + b).
Proof.
  intros Ha Hb Hab.
  destruct (ofZ_cases a Ha) as [[-> Ea]|(sa & pa & -> & Hpa & Ea)];
  destruct (ofZ_cases b Hb) as [[-> Eb]|(sb & pb & -> & Hpb & Eb)];
  rewrite ?Ea, ?Eb.
  - reflexivity.
  - rewrite Z.add_0_l. symmetry. assumption.
  - rewrite Z.add_0_r. symmetry. assumption.
  - apply add_canon; assumption.
Qed.

Lemma sub_ofZ a b :
  Z.abs a < 2 ^ 53 -> Z.abs b < 2 ^ 53 -> Z.abs (a - b) < 2 ^ 53 ->
  JS.sub (JS.ofZ a) (JS.ofZ b) = JS.ofZ (a - b).
Proof.
  intros Ha Hb Hab.
  destruct (ofZ_cases a Ha) as [[-> Ea]|(sa & pa & -> & Hpa & Ea)];
  destruct (ofZ_cases b Hb) as [[-> Eb]|(sb & pb & -> & Hpb & Eb)];
  rewrite ?Ea, ?Eb.
  - reflexivity.
  - rewrite Z.sub_0_l.
    replace (- signed sb pb) with (signed (negb sb) pb) by (destruct sb; reflexivity).
    rewrite ofZ_signed by assumption. reflexivity.
  - rewrite Z.sub_0_r. symmetry. assumption.
  - apply sub_canon; assumption.
Qed.

Lemma gtb_ofZ a : Z.abs a < 2 ^ 53 -> JS.gtb (JS.ofZ a) JS.zero = (0 <? a).
Proof.
  intros Ha. destruct (ofZ_cases a Ha) as [[-> Ea]|(sa & pa & -> & Hpa & Ea)];
    rewrite Ea; [reflexivity|]. destruct sa; reflexivity.
Qed.



Lemma toZ_canon s p : Zpos p < 2 ^ 53 -> JS.toZ (canon s p) = signed s p.
Proof.
  intros Hp. apply digits_le_53 in Hp. unfold canon, JS.toZ, signed. f_equal.
  rewrite Z.shiftl_div_pow2 by lia. rewrite Zpos_shiftl by lia.
  replace (- (Zpos (digits2_pos p) - 53)) with (53 - Zpos (digits2_pos p)) by lia.
  apply Z.div_mul. apply Z.pow_nonzero; lia.
Qed.

Lemma toZ_ofZ n : Z.abs n < 2 ^ 53 -> JS.toZ (JS.ofZ n) = n.
Proof.
  intros Hn. destruct (ofZ_cases n Hn) as [[-> E]|(s & p & -> & Hp & E)]; rewrite E.
  - reflexivity.
  - apply toZ_canon. assumption.
Qed.

Lemma whole_ofZ n : Z.abs n < 2 ^ 53 -> whole (JS.ofZ n).
Proof. intros Hn. unfold whole. rewrite toZ_ofZ by assumption. split; [reflexivity|assumption]. Qed.

Lemma whole_add x y :
  whole x -> whole y -> Z.abs (JS.toZ x + JS.toZ y) < 2 ^ 53 ->
  JS.add x y = JS.ofZ (JS.toZ x + JS.toZ y).
Proof.
  intros [Hx Hbx] [Hy Hby] Hb. rewrite Hx at 1. rewrite Hy at 1. apply add_ofZ; assumption.
Qed.

Lemma whole_sub x y :
  whole x -> whole y -> Z.abs (JS.toZ x - JS.toZ y) < 2 ^ 53 ->
  JS.sub x y = JS.ofZ (JS.toZ x - JS.toZ y).
Proof.
  intros [Hx Hbx] [Hy Hby] Hb. rewrite Hx at 1. rewrite Hy at 1. apply sub_ofZ; assumption.
Qed.

Lemma whole_gtb x : whole x -> JS.gtb x JS.zero = (0 <? JS.toZ x).
Proof. intros [Hx Hbx]. rewrite Hx at 1. apply gtb_ofZ. assumption. Qed.

Lemma whole_orZero x : whole x -> JS.orZero x = x.
Proof.
  intros [Hx Hbx]. rewrite Hx.
  destruct (ofZ_cases _ Hbx) as [[_ E]|(s & p & _ & _ & E)]; rewrite E; reflexivity.
Qed.


Lemma digits_upper p : Zpos p < 2 ^ Zpos (digits2_pos p).
Proof.
  induction p as [p IH|p IH|]; cbn [digits2_pos]; [| |cbn; lia].
  - rewrite Pos2Z.inj_succ, Z.pow_succ_r by lia. lia.
  - rewrite Pos2Z.inj_succ, Z.pow_succ_r by lia. lia.
Qed.

Lemma compare_canon_pos pa pb :
  Zpos pa < 2 ^ 53 → Zpos pb < 2 ^ 53 →
  match Zpos (digits2_pos pa) - 53 ?= Zpos (digits2_pos pb) - 53 with
  | Lt => Lt
  | Gt => Gt
  | Eq => Pos.compare_cont Eq (shiftl_pos pa (53 - Zpos (digits2_pos pa)))
                              (shiftl_pos pb (53 - Zpos (digits2_pos pb)))
  end = (Zpos pa ?= Zpos pb).
Proof.
  intros Ha Hb. apply digits_le_53 in Ha, Hb.
  pose proof (digits_upper pa). pose proof (digits_upper pb).
  pose proof (digits_lower pa). pose proof (digits_lower pb).
  destruct (Z.compare_spec (Zpos (digits2_pos pa) - 53) (Zpos (digits2_pos pb) - 53))
    as [He|He|He].
  - assert (Zpos (digits2_pos pa) = Zpos (digits2_pos pb)) as Hd by lia.
    rewrite Hd. change (Pos.compare_cont Eq ?x ?y) with (Zpos x ?= Zpos y).
    rewrite !Zpos_shiftl by lia.
    symmetry. apply Zmult_compare_compat_r. apply Z.lt_gt, Z.pow_pos_nonneg; lia.
  - symmetry. apply Z.compare_lt_iff.
    assert (2 ^ Zpos (digits2_pos pa) ≤ 2 ^ (Zpos (digits2_pos pb) - 1))
      by (apply Z.pow_le_mono_r; lia).
    lia.
  - symmetry. apply Z.compare_gt_iff.
    assert (2 ^ Zpos (digits2_pos pb) ≤ 2 ^ (Zpos (digits2_pos pa) - 1))
      by (apply Z.pow_le_mono_r; lia).
    lia.
Qed.

Lemma compare_canon sa pa sb pb :
  Zpos pa < 2 ^ 53 → Zpos pb < 2 ^ 53 →
  SFcompare (canon sa pa) (canon sb pb) = Some (signed sa pa ?= signed sb pb).
Proof.
  intros Ha Hb. unfold canon, SFcompare, signed.
  destruct sa, sb; cbn [cond_Zopp]; [| done | done |].
  - pose proof (compare_canon_pos pa pb Ha Hb) as H.
    change (- Z.pos pa ?= - Z.pos pb) with (CompOpp (Z.pos pa ?= Z.pos pb)).
    rewrite <- H. by destruct (_ - 53 ?= _ - 53).
  - by rewrite compare_canon_pos.
Qed.

Lemma compare_ofZ a b :
  Z.abs a < 2 ^ 53 → Z.abs b < 2 ^ 53 →
  SFcompare (JS.ofZ a) (JS.ofZ b) = Some (a ?= b).
Proof.
  intros Ha Hb.
  destruct (ofZ_cases a Ha) as [[-> Ea]|(sa & pa & -> & Hpa & Ea)];
  destruct (ofZ_cases b Hb) as [[-> Eb]|(sb & pb & -> & Hpb & Eb)];
  rewrite ?Ea, ?Eb.
  - done.
  - by destruct sb.
  - by destruct sa.
  - by apply compare_canon.
Qed.

Lemma leb_ofZ a b :
  Z.abs a < 2 ^ 53 → Z.abs b < 2 ^ 53 → JS.leb (JS.ofZ a) (JS.ofZ b) = (a <=? b).
Proof.
  intros Ha Hb. unfold JS.leb, SFleb, Z.leb. rewrite compare_ofZ by done.
  by destruct (a ?= b).
Qed.

Lemma ltb_ofZ a b :
  Z.abs a < 2 ^ 53 → Z.abs b < 2 ^ 53 → JS.ltb (JS.ofZ a) (JS.ofZ b) = (a <? b).
Proof.
  intros Ha Hb. unfold JS.ltb, SFltb, Z.ltb. rewrite compare_ofZ by done.
  by destruct (a ?= b).
Qed.

Lemma whole_leb x y : whole x → whole y → JS.leb x y = (JS.toZ x <=? JS.toZ y).
Proof.
  intros [Hx Hbx] [Hy Hby]. rewrite Hx at 1. rewrite Hy at 1. by apply leb_ofZ.
Qed.
(** ** Snapshots and lookups *)

Section Snapshot.
Context {A : Type}.
Implicit Types (m : gmap string A) (l : list (string * A)) (k : string).

Lemma find_pairs l k :
  find (λ x : Doc A, bool_decide (id x = k)) ((λ kd, mkDoc kd.1 kd.2) <$> l)
  = mkDoc k <$> (list_to_map l : gmap string A) !! k.
Proof.
  induction l as [|[k' d] l IH]; simpl.
  - by rewrite lookup_empty.
  - case_bool_decide as Hk; simplify_eq/=.
    + by rewrite lookup_insert_eq.
    + by rewrite lookup_insert_ne.
Qed.

Lemma findById_snapshot m k : findById (snapshot m) k = mkDoc k <$> m !! k.
Proof.
  unfold findById, snapshot. by rewrite find_pairs, list_to_map_to_list.
Qed.

Lemma existsb_find (p : Doc A → bool) (l : list (Doc A)) :
  existsb p l = bool_decide (is_Some (find p l)).
Proof.
  induction l as [|x l IH]; simpl.
  - done.
  - destruct (p x); simpl; done.
Qed.

Lemma existsb_snapshot m k :
  existsb (λ b, bool_decide (id b = k)) (snapshot m) = bool_decide (is_Some (m !! k)).
Proof.
  rewrite existsb_find. fold (findById (snapshot m) k).
  rewrite findById_snapshot. apply bool_decide_ext.
  by rewrite fmap_is_Some.
Qed.

Lemma elem_of_snapshot m (x : Doc A) : x ∈ snapshot m ↔ m !! id x = Some (data x).
Proof.
  unfold snapshot. rewrite list_elem_of_fmap. split.
  - intros [[k d] [-> Hin]]. by apply elem_of_map_to_list.
  - intros Hx. exists (id x, data x). split; [by destruct x|].
    by apply elem_of_map_to_list.
Qed.

Lemma snapshot_ids m : id <$> snapshot m = (map_to_list m).*1.
Proof. unfold snapshot. rewrite <- list_fmap_compose. done. Qed.

Lemma NoDup_snapshot_ids m : NoDup (id <$> snapshot m).
Proof. rewrite snapshot_ids. apply NoDup_fst_map_to_list. Qed.
End Snapshot.

(** ** Committing batches *)

Lemma commit_app (b1 b2 : list Write) (db : Store) :
  commit (b1 ++ b2) db = commit b1 db ≫= commit b2.
Proof.
  revert db. induction b1 as [|w b1 IH]; intros db; simpl; [done|].
  destruct (applyWrite w db) as [db'|]; simpl; [apply IH|done].
Qed.

Lemma patchBill_idemp (p : BillPatch) (b : BillData) :
  patchBill p (patchBill p b) = patchBill p b.
Proof. by destruct p. Qed.

Lemma lookup_markAll p ks bs k :
  markAll p ks bs !! k
  = (λ b, if decide (k ∈ ks) then patchBill p b else b) <$> bs !! k.
Proof. unfold markAll. rewrite map_lookup_imap. by destruct (bs !! k). Qed.

Lemma commit_updateBills (p : BillPatch) (ks : list string) (db : Store) :
  (∀ k, k ∈ ks → is_Some (bills db !! k)) →
  commit ((λ k, UpdateBill k p) <$> ks) db
  = Some (withBills (markAll p ks (bills db)) db).
Proof.
  revert db. induction ks as [|k0 ks IH]; intros db Hks; simpl.
  - f_equal. destruct db; unfold withBills; simpl. f_equal.
    apply map_eq; intros k. rewrite lookup_markAll.
    destruct (_ !! k); [|done]. cbn. case_decide; [set_solver|done].
  - destruct (Hks k0) as [b Hb]; [set_solver|]. rewrite Hb; simpl.
    rewrite IH; simpl.
    + f_equal. unfold withBills; simpl. f_equal.
      apply map_eq; intros k. rewrite !lookup_markAll.
      destruct (decide (k = k0)) as [->|Hne].
      * rewrite lookup_insert_eq, Hb; simpl.
        rewrite (decide_True (P := k0 ∈ k0 :: ks)) by set_solver.
        destruct (decide (k0 ∈ ks)); [by rewrite patchBill_idemp|done].
      * rewrite lookup_insert_ne by done.
        destruct (bills db !! k); simpl; [|done]. f_equal.
        destruct (decide (k ∈ ks)) as [Hin|Hnin].
        -- by rewrite decide_True by (by apply list_elem_of_further).
        -- rewrite decide_False; [done|].
           rewrite elem_of_cons. tauto.
    + intros k Hk; simpl. destruct (decide (k = k0)) as [->|Hne].
      * rewrite lookup_insert_eq. eauto.
      * rewrite lookup_insert_ne by done. apply Hks. set_solver.
Qed.

Lemma markAll_ext p ks ks' bs :
  (∀ k, is_Some (bs !! k) → (k ∈ ks ↔ k ∈ ks')) →
  markAll p ks bs = markAll p ks' bs.
Proof.
  intros H. apply map_eq; intros k. rewrite !lookup_markAll.
  destruct (bs !! k) as [b|] eqn:Hb; simpl; [|done]. f_equal.
  specialize (H k (mk_is_Some _ _ Hb)).
  destruct (decide (k ∈ ks)), (decide (k ∈ ks')); tauto.
Qed.

Lemma Zsum_cons x l : Zsum (x :: l) = x + Zsum l.
Proof. done. Qed.

Lemma Zsum_app l1 l2 : Zsum (l1 ++ l2) = Zsum l1 + Zsum l2.
Proof. induction l1 as [|x l1 IH]; simpl; [done|]. rewrite IH. lia. Qed.

Lemma Zsum_Permutation l1 l2 : l1 ≡ₚ l2 → Zsum l1 = Zsum l2.
Proof. induction 1; simpl; lia. Qed.

Lemma Zsum_fmap_filter {A} (f : A → Z) (P : A → Prop) `{∀ x, Decision (P x)} (l : list A) :
  (∀ x, x ∈ l → ¬ P x → f x = 0) →
  Zsum (f <$> filter P l) = Zsum (f <$> l).
Proof.
  induction l as [|x l IH]; intros Hf; [done|].
  assert (Zsum (f <$> filter P l) = Zsum (f <$> l)) as IH'.
  { apply IH. intros; apply Hf; [set_solver|done]. }
  rewrite filter_cons. destruct (decide (P x)).
  - by rewrite !fmap_cons, !Zsum_cons, IH'.
  - rewrite fmap_cons, Zsum_cons, IH', (Hf x); [lia|set_solver|done].
Qed.

Lemma Zsum_fmap_ext {A} (f g : A → Z) (l : list A) :
  (∀ x, x ∈ l → f x = g x) → Zsum (f <$> l) = Zsum (g <$> l).
Proof.
  induction l as [|x l IH]; intros Hf; [done|].
  rewrite !fmap_cons, !Zsum_cons, IH, (Hf x); [done|set_solver|].
  intros; apply Hf; set_solver.
Qed.

Lemma NoDup_fmap_filter {A B} (f : A → B) (P : A → Prop) `{∀ x, Decision (P x)}
    (l : list A) :
  NoDup (f <$> l) → NoDup (f <$> filter P l).
Proof.
  induction l as [|x l IH]; [done|]. rewrite fmap_cons, NoDup_cons. intros [Hx Hnd].
  rewrite filter_cons. destruct (decide (P x)); [|by apply IH].
  rewrite fmap_cons. apply NoDup_cons. split; [|by apply IH].
  intros (y & Hy & Hin)%list_elem_of_fmap. apply Hx, list_elem_of_fmap.
  exists y. split; [done|]. by apply list_elem_of_filter in Hin as [_ ?].
Qed.
(** ** Objects *)

Lemma get_cons {V} (k' : string) (v : V) (o : JS.Obj V) (k : string) :
  JS.get ((k', v) :: o) k = if decide (k' = k) then Some v else JS.get o k.
Proof.
  unfold JS.get. cbn [find fst]. case_bool_decide; [by rewrite decide_True|].
  by rewrite decide_False.
Qed.

Lemma get_elem_of {V} (o : JS.Obj V) k a : JS.get o k = Some a → (k, a) ∈ o.
Proof.
  induction o as [|[k' v] o IH]; [done|]. rewrite get_cons.
  destruct (decide (k' = k)) as [->|Hne].
  - intros [= ->]. apply list_elem_of_here.
  - intros H. by apply list_elem_of_further, IH.
Qed.


Lemma get_NoDup {V} (o : JS.Obj V) k a :
  NoDup (JS.keys o) → (k, a) ∈ o → JS.get o k = Some a.
Proof.
  unfold JS.keys. induction o as [|[k' v] o IH]; [by intros _ ?%elem_of_nil|].
  rewrite fmap_cons, NoDup_cons, get_cons. cbn [fst]. intros [Hk' Hnd] Hin.
  apply elem_of_cons in Hin as [[= -> ->]|Hin]; [by rewrite decide_True|].
  rewrite decide_False; [by apply IH|].
  intros ->. apply Hk', list_elem_of_fmap. by exists (k, a).
Qed.

Lemma get_filter_keys {V} (P : string → Prop) `{∀ k, Decision (P k)} (o : JS.Obj V) k :
  P k → JS.get (filter (λ e, P e.1) o) k = JS.get o k.
Proof.
  intros Hk. induction o as [|[k' v] o IH]; [done|].
  rewrite filter_cons. cbn [fst]. destruct (decide (P k')) as [Hk'|Hk'].
  - rewrite !get_cons. by destruct (decide (k' = k)).
  - rewrite get_cons, decide_False; [done|]. by intros ->.
Qed.

(** ** [addPayment] *)

Lemma payBill_fold bs billsToPay paidDate pid ks t batch :
  fold_left (payBill (snapshot bs) billsToPay paidDate pid) ks (t, batch)
  = (fold_left (addShortfall bs billsToPay) ks t,
     batch ++ ((λ k, UpdateBill k (MarkPaid paidDate pid))
               <$> filter (λ k, is_Some (bs !! k)) ks)).
Proof.
  revert t batch. induction ks as [|k ks IH]; intros t batch.
  - simpl. by rewrite app_nil_r.
  - rewrite filter_cons. cbn [fold_left].
    destruct (bs !! k) as [b|] eqn:Hb.
    + assert (payBill (snapshot bs) billsToPay paidDate pid (t, batch) k
              = (addShortfall bs billsToPay t k,
                 batch ++ [UpdateBill k (MarkPaid paidDate pid)])) as ->.
      { unfold payBill, addShortfall. by rewrite findById_snapshot, Hb. }
      rewrite IH, decide_True by eauto.
      by rewrite fmap_cons, <- app_assoc.
    + assert (payBill (snapshot bs) billsToPay paidDate pid (t, batch) k = (t, batch)) as ->.
      { unfold payBill. by rewrite findById_snapshot, Hb. }
      rewrite IH, decide_False by (by intros [? ?]).
      assert (addShortfall bs billsToPay t k = t) as ->; [|done].
      unfold addShortfall. by rewrite Hb.
Qed.

Lemma addPaymentBatch_eq bs newId paymentData billsToPay customerSnap :
  addPaymentBatch (snapshot bs) newId paymentData billsToPay customerSnap
  = [SetPayment newId paymentData]
    ++ ((λ k, UpdateBill k (MarkPaid (p_date paymentData) newId))
        <$> filter (λ k, is_Some (bs !! k)) (JS.keys billsToPay))
    ++ (if JS.gtb (totalShortfall bs billsToPay) JS.zero
        then [UpdateOpeningDue (p_customerId paymentData)
                (JS.add (JS.orZero (c_openingDue customerSnap))
                        (totalShortfall bs billsToPay))]
        else []).
Proof.
  unfold addPaymentBatch. rewrite payBill_fold.
  fold (totalShortfall bs billsToPay).
  destruct (JS.gtb (totalShortfall bs billsToPay) JS.zero).
  - by rewrite <- app_assoc.
  - by rewrite app_nil_r.
Qed.

Lemma addPayment_SignedIn db newId paymentData billsToPay customerSnap :
  customers db !! p_customerId paymentData = Some customerSnap →
  addPayment (SignedIn db) newId paymentData billsToPay
  = (ok, SignedIn (paidStore db newId paymentData billsToPay customerSnap)).
Proof.
  intros Hc. unfold addPayment. rewrite Hc. cbn [billsOf].
  rewrite addPaymentBatch_eq.
  set (total := totalShortfall (bills db) billsToPay).
  set (ks := filter (λ k, is_Some (bills db !! k)) (JS.keys billsToPay)).
  set (p := MarkPaid (p_date paymentData) newId).
  rewrite commit_app. cbn [commit applyWrite mbind option_bind].
  rewrite commit_app, commit_updateBills.
  2:{ intros k Hk. cbn. unfold ks in Hk. apply list_elem_of_filter in Hk. tauto. }
  assert (markAll p ks (bills db) = markAll p (JS.keys billsToPay) (bills db)) as Hm.
  { apply markAll_ext. intros k Hk. unfold ks. rewrite list_elem_of_filter. tauto. }
  unfold paidStore. fold total. fold p.
  destruct (JS.gtb total JS.zero); cbn.
  - rewrite Hc. cbn. unfold withCustomers, withBills, withPayments; cbn.
    by rewrite Hm.
  - unfold withBills, withPayments; cbn. by rewrite Hm.
Qed.

Lemma openingDueOf_SignedIn db cid :
  openingDueOf (SignedIn db) cid = c_openingDue <$> customers db !! cid.
Proof.
  unfold openingDueOf, getCustomerById. cbn [customersOf].
  rewrite findById_snapshot. by destruct (customers db !! cid).
Qed.

Lemma openingDueOf_storeOf s cid :
  openingDueOf s cid = c_openingDue <$> customers (storeOf s) !! cid.
Proof. destruct s; [done|apply openingDueOf_SignedIn]. Qed.

Lemma addPayment_openingDue_gen db newId paymentData billsToPay c :
  customers db !! p_customerId paymentData = Some c →
  openingDueOf (addPayment (SignedIn db) newId paymentData billsToPay).2
               (p_customerId paymentData)
  = Some (dueAfter (c_openingDue c) (totalShortfall (bills db) billsToPay)).
Proof.
  intros Hc. rewrite (addPayment_SignedIn _ _ _ _ _ Hc). cbn [snd].
  rewrite openingDueOf_SignedIn. unfold paidStore, dueAfter. cbn [customers].
  destruct (JS.gtb (totalShortfall (bills db) billsToPay) JS.zero).
  - by rewrite lookup_insert_eq.
  - by rewrite Hc.
Qed.


(** On whole amounts the shortfall is the exact sum. *)
Lemma shortfallSum_cons bs k a (l : JS.Obj JS.Number) :
  shortfallSum bs ((k, a) :: l)
  = match bs !! k with
    | Some b => Z.max 0 (JS.toZ (b_amount b) - JS.toZ a)
    | None => 0
    end + shortfallSum bs l.
Proof. done. Qed.

Lemma allocationsSize_cons bs k a (l : JS.Obj JS.Number) :
  allocationsSize bs ((k, a) :: l)
  = match bs !! k with
    | Some b => Z.abs (JS.toZ (b_amount b)) + Z.abs (JS.toZ a)
    | None => 0
    end + allocationsSize bs l.
Proof. done. Qed.

Lemma fold_addShortfall_whole bs (billsToPay l : JS.Obj JS.Number) (T : Z) :
  (∀ k a, (k, a) ∈ l → JS.get billsToPay k = Some a) →
  wholeAllocations bs l →
  0 ≤ T → T + allocationsSize bs l < 2 ^ 53 →
  fold_left (addShortfall bs billsToPay) (JS.keys l) (JS.ofZ T)
  = JS.ofZ (T + shortfallSum bs l)
  ∧ 0 ≤ shortfallSum bs l ≤ allocationsSize bs l.
Proof.
  revert T. induction l as [|[k a] l IH]; intros T Hget Hwhole HT Hsize.
  - cbn. unfold shortfallSum, allocationsSize. cbn. by rewrite Z.add_0_r.
  - assert (∀ k a, (k, a) ∈ l → JS.get billsToPay k = Some a) as Hget'.
    { intros k' a' Hin. by apply Hget, list_elem_of_further. }
    assert (wholeAllocations bs l) as Hwhole'.
    { intros k' a' b' Hin. by apply Hwhole, list_elem_of_further. }
    rewrite shortfallSum_cons, allocationsSize_cons in *.
    change (JS.keys ((k, a) :: l)) with (k :: JS.keys l). cbn [fold_left].
    assert (0 ≤ shortfallSum bs l ≤ allocationsSize bs l) as Hrest.
    { apply (IH 0); [done|done|done|]. destruct (bs !! k); lia. }
    unfold addShortfall at 2.
    destruct (bs !! k) as [b|] eqn:Hb.
    + destruct (Hwhole k a b (list_elem_of_here _ _) Hb) as [Ha Hamount].
      rewrite (Hget k a (list_elem_of_here _ _)).
      change (default JS.NaN (Some a)) with a.
      assert (JS.sub (b_amount b) a = JS.ofZ (JS.toZ (b_amount b) - JS.toZ a)) as ->.
      { apply whole_sub; [done|done|]. lia. }
      rewrite gtb_ofZ by lia.
      destruct (Z.ltb_spec 0 (JS.toZ (b_amount b) - JS.toZ a)).
      * rewrite add_ofZ by lia.
        destruct (IH (T + (JS.toZ (b_amount b) - JS.toZ a)) Hget' Hwhole') as [-> _];
          [lia|lia|].
        split; [f_equal; lia|lia].
      * destruct (IH T Hget' Hwhole') as [-> _]; [lia|lia|].
        split; [f_equal; lia|lia].
    + destruct (IH T Hget' Hwhole') as [-> _]; [lia|lia|].
      split; [f_equal; lia|lia].
Qed.

Lemma totalShortfall_whole bs (billsToPay : JS.Obj JS.Number) :
  NoDup (JS.keys billsToPay) → wholeAllocations bs billsToPay →
  allocationsSize bs billsToPay < 2 ^ 53 →
  totalShortfall bs billsToPay = JS.ofZ (shortfallSum bs billsToPay)
  ∧ 0 ≤ shortfallSum bs billsToPay ≤ allocationsSize bs billsToPay.
Proof.
  intros Hnd Hwhole Hsize.
  destruct (fold_addShortfall_whole bs billsToPay billsToPay 0) as [H1 H2];
    [intros k a; by apply get_NoDup|done|done|lia|].
  split; [|done]. unfold totalShortfall. exact H1.
Qed.

Lemma dueAfter_whole (due : JS.Number) (S : Z) :
  whole due → 0 ≤ S → Z.abs (JS.toZ due) + S < 2 ^ 53 →
  dueAfter due (JS.ofZ S) = JS.ofZ (JS.toZ due + S).
Proof.
  intros Hdue HS Hsize. unfold dueAfter. rewrite gtb_ofZ by lia.
  destruct (Z.ltb_spec 0 S).
  - rewrite whole_orZero by done. rewrite (proj1 Hdue) at 1.
    apply add_ofZ; destruct Hdue; lia.
  - replace S with 0 by lia. rewrite Z.add_0_r. exact (proj1 Hdue).
Qed.




(** Past 2^53 the sum rounds as every sum of doubles: a shortfall of 1 on
    an opening due of 2^53 leaves 2^53. *)
Lemma addPayment_rounds_large_due :
  openingDueOf (addPayment (SignedIn exLargeDue) "p1" exPayment
                  [("c1-2024-1", JS.ofZ 499)]).2 "c1"
  = Some (JS.ofZ (2 ^ 53))
  ∧ JS.add (JS.ofZ (2 ^ 53)) (JS.ofZ 1) = JS.ofZ (2 ^ 53).
Proof. split; vm_compute; reflexivity. Qed.

Lemma fold_addShortfall_known bs (o1 o2 l : JS.Obj JS.Number) t :
  (∀ k, is_Some (bs !! k) → JS.get o1 k = JS.get o2 k) →
  fold_left (addShortfall bs o1) (JS.keys (knownAllocations bs l)) t
  = fold_left (addShortfall bs o2) (JS.keys l) t.
Proof.
  intros Hget. revert t. induction l as [|[k a] l IH]; intros t; [done|].
  unfold knownAllocations in *. rewrite filter_cons. cbn [fst].
  change (JS.keys ((k, a) :: l)) with (k :: JS.keys l).
  destruct (decide (is_Some (bs !! k))) as [Hk|Hk].
  - change (JS.keys ((k, a) :: ?l')) with (k :: JS.keys l'). cbn [fold_left].
    rewrite IH. f_equal. unfold addShortfall. destruct Hk as [b Hb].
    rewrite Hb, Hget by eauto. done.
  - cbn [fold_left]. rewrite IH. f_equal. unfold addShortfall.
    destruct (bs !! k) eqn:Hb; [|done]. destruct Hk. eauto.
Qed.

Lemma totalShortfall_known bs (billsToPay : JS.Obj JS.Number) :
  totalShortfall bs (knownAllocations bs billsToPay) = totalShortfall bs billsToPay.
Proof.
  unfold totalShortfall. apply fold_addShortfall_known.
  intros k Hk. unfold knownAllocations.
  exact (get_filter_keys (λ k, is_Some (bs !! k)) billsToPay k Hk).
Qed.

Lemma elem_of_keys_known bs (billsToPay : JS.Obj JS.Number) k :
  k ∈ JS.keys (knownAllocations bs billsToPay)
  ↔ k ∈ JS.keys billsToPay ∧ is_Some (bs !! k).
Proof.
  unfold JS.keys, knownAllocations. rewrite !list_elem_of_fmap. split.
  - intros ([k' a] & -> & Hin). apply list_elem_of_filter in Hin as [Hk Hin].
    split; [|done]. by exists (k', a).
  - intros [([k' a] & -> & Hin) Hk]. exists (k', a). split; [done|].
    by apply list_elem_of_filter.
Qed.

Lemma paidStore_known db newId paymentData billsToPay c :
  paidStore db newId paymentData (knownAllocations (bills db) billsToPay) c
  = paidStore db newId paymentData billsToPay c.
Proof.
  unfold paidStore. rewrite !totalShortfall_known.
  f_equal. apply markAll_ext. intros k Hk.
  rewrite elem_of_keys_known. tauto.
Qed.

(** C10. In an [addPayment] on an existing customer, an entry of
    [billsToPay] whose id matches no bill of the current bill list is
    skipped silently: the call returns success, the batch holds no write to
    that bill id, the shortfall added to [openingDue] is summed over the
    matching entries only (in double arithmetic, and the exact sum on whole
    amounts below 2^53 in all), and the whole outcome is that of the call
    without the unmatched entries. *)
Theorem addPayment_skips_unknown_bills (s : Session) (newId : string)
    (paymentData : PaymentData) (billsToPay : JS.Obj JS.Number) (c : CustomerData) :
  customers (storeOf s) !! p_customerId paymentData = Some c →
  let bs := bills (storeOf s) in
  let known := knownAllocations bs billsToPay in
  let out := addPayment s newId paymentData billsToPay in
  success out.1 = true
  ∧ (∀ k w, k ∈ JS.keys billsToPay → bs !! k = None →
        w ∈ addPaymentBatch (billsOf s) newId paymentData billsToPay c →
        ¬ targetsBill k w)
  ∧ openingDueOf out.2 (p_customerId paymentData)
    = Some (dueAfter (c_openingDue c) (totalShortfall bs known))
  ∧ out = addPayment s newId paymentData known
  ∧ (NoDup (JS.keys billsToPay) → whole (c_openingDue c) →
     wholeAllocations bs billsToPay →
     Z.abs (JS.toZ (c_openingDue c)) + allocationsSize bs known < 2 ^ 53 →
     openingDueOf out.2 (p_customerId paymentData)
     = Some (JS.ofZ (JS.toZ (c_openingDue c) + shortfallSum bs known))).
Proof.
  intros Hc bs known out. destruct s as [|db]; [done|].
  cbn [storeOf] in *. subst out.
  rewrite (addPayment_SignedIn _ _ _ _ _ Hc).
  assert (openingDueOf (SignedIn (paidStore db newId paymentData billsToPay c))
                       (p_customerId paymentData)
          = Some (dueAfter (c_openingDue c) (totalShortfall bs known))) as Hdue.
  { pose proof (addPayment_openingDue_gen db newId paymentData billsToPay c Hc) as Hd.
    rewrite (addPayment_SignedIn _ _ _ _ _ Hc) in Hd. cbn [snd] in Hd. rewrite Hd.
    subst known bs. by rewrite totalShortfall_known. }
  split; [done|]. split; [|split; [exact Hdue|split]].
  - intros k w _ Hk Hw Ht. cbn [billsOf] in Hw.
    rewrite addPaymentBatch_eq in Hw.
    rewrite !elem_of_app in Hw. destruct Hw as [Hw|[Hw|Hw]].
    + apply list_elem_of_singleton in Hw as ->. done.
    + apply list_elem_of_fmap in Hw as (k' & -> & Hk').
      apply list_elem_of_filter in Hk' as [[b Hb] _].
      cbn in Ht. subst k'. fold bs in Hb. congruence.
    + destruct (JS.gtb _ _); [|by apply elem_of_nil in Hw].
      apply list_elem_of_singleton in Hw as ->. done.
  - rewrite (addPayment_SignedIn _ _ _ _ _ Hc). subst known bs.
    by rewrite paidStore_known.
  - intros Hnd Hwdue Hwhole Hsize. cbn [snd]. rewrite Hdue.
    destruct (totalShortfall_whole bs known) as [-> Hsum].
    + unfold known, knownAllocations, JS.keys. by apply NoDup_fmap_filter.
    + intros k a b Hin Hb. apply (Hwhole k a b); [|done].
      unfold known, knownAllocations in Hin. by apply list_elem_of_filter in Hin as [_ ?].
    + pose proof (Z.abs_nonneg (JS.toZ (c_openingDue c))). lia.
    + f_equal. apply dueAfter_whole; [done|lia|lia].
Qed.

Lemma addPayment_skips_unknown_bills_witness :
  success (addPayment (SignedIn exStore) "p1" exPayment
             [("c1-2024-1", JS.ofZ 300); ("c9-2024-1", JS.ofZ 50)]).1 = true
  ∧ openingDueOf (addPayment (SignedIn exStore) "p1" exPayment
                    [("c1-2024-1", JS.ofZ 300); ("c9-2024-1", JS.ofZ 50)]).2 "c1"
    = Some (JS.ofZ 400).
Proof.
  pose proof (addPayment_skips_unknown_bills (SignedIn exStore) "p1" exPayment
                [("c1-2024-1", JS.ofZ 300); ("c9-2024-1", JS.ofZ 50)] exCustomer eq_refl)
    as (H1 & _ & H3 & _).
  split; [exact H1|]. refine (eq_trans H3 _). vm_compute. reflexivity.
Defined.
(** ** [deletePayment] (undo of a payment) *)

Lemma deletePayment_SignedIn db paymentId :
  deletePayment (SignedIn db) paymentId = (ok, SignedIn (undoneStore db paymentId)).
Proof.
  unfold deletePayment. cbn [billsOf].
  set (ks := id <$> filter (λ b : Bill, b_paymentId (data b) = Some paymentId)
                           (snapshot (bills db))).
  assert (((λ bill : Bill, UpdateBill (id bill) MarkUnpaid)
           <$> filter (λ b : Bill, b_paymentId (data b) = Some paymentId)
                      (snapshot (bills db)))
          = (λ k, UpdateBill k MarkUnpaid) <$> ks) as ->.
  { unfold ks. by rewrite <- list_fmap_compose. }
  assert (∀ k, k ∈ ks ↔ ∃ b, bills db !! k = Some b ∧ b_paymentId b = Some paymentId)
    as Hks.
  { intros k. unfold ks. rewrite list_elem_of_fmap. split.
    - intros (x & -> & Hx). apply list_elem_of_filter in Hx as [Hp Hx].
      apply elem_of_snapshot in Hx. eauto.
    - intros (b & Hb & Hp). exists (mkDoc k b). split; [done|].
      apply list_elem_of_filter. split; [done|]. by apply elem_of_snapshot. }
  rewrite commit_app, commit_updateBills.
  2:{ intros k Hk. apply Hks in Hk as (b & Hb & _). eauto. }
  cbn. do 2 f_equal. unfold undoneStore, withPayments, withBills. cbn. f_equal.
  apply map_eq. intros k. unfold undoBills. rewrite lookup_markAll, lookup_fmap.
  destruct (bills db !! k) as [b|] eqn:Hb; [|done]. cbn. f_equal.
  destruct (decide (k ∈ ks)) as [Hin|Hnin].
  - apply Hks in Hin as (b' & Hb' & Hp). simplify_eq. by rewrite decide_True.
  - rewrite decide_False; [done|]. intros Hp. apply Hnin, Hks. eauto.
Qed.

(** C6. Undo of a payment: every bill whose [paymentId] references the
    payment is reverted to Unpaid with [paidDate] and [paymentId] cleared
    (the other bills are untouched), the Payment record is deleted, and no
    customer's [openingDue] changes, whatever shortfall the payment had
    added to it. *)
Theorem deletePayment_reverts_bills (s : Session) (paymentId : string) :
  let s' := (deletePayment s paymentId).2 in
  (∀ k b, bills (storeOf s) !! k = Some b → b_paymentId b = Some paymentId →
     ∃ b', bills (storeOf s') !! k = Some b'
           ∧ b_status b' = UNPAID ∧ b_paidDate b' = None ∧ b_paymentId b' = None)
  ∧ (∀ k b, bills (storeOf s) !! k = Some b → b_paymentId b ≠ Some paymentId →
       bills (storeOf s') !! k = Some b)
  ∧ payments (storeOf s') !! paymentId = None
  ∧ customers (storeOf s') = customers (storeOf s)
  ∧ (∀ cid, openingDueOf s' cid = openingDueOf s cid).
Proof.
  intros s'. destruct s as [|db].
  { subst s'. cbn. repeat split; try done. }
  subst s'. rewrite deletePayment_SignedIn. cbn [snd storeOf].
  unfold undoneStore. cbn [bills payments customers].
  split; [|split; [|split; [|split]]].
  - intros k b Hb Hp. exists (patchBill MarkUnpaid b).
    unfold undoBills. rewrite lookup_fmap, Hb. cbn.
    by rewrite decide_True.
  - intros k b Hb Hp. unfold undoBills. rewrite lookup_fmap, Hb. cbn.
    by rewrite decide_False.
  - apply lookup_delete_eq.
  - done.
  - intros cid. by rewrite !openingDueOf_SignedIn.
Qed.

Lemma deletePayment_reverts_bills_witness :
  openingDueOf exPaid "c1" = Some (JS.ofZ 400)
  ∧ openingDueOf (deletePayment exPaid "p1").2 "c1" = Some (JS.ofZ 400)
  ∧ b_status <$> bills (storeOf (deletePayment exPaid "p1").2) !! "c1-2024-1"
    = Some UNPAID.
Proof.
  destruct (deletePayment_reverts_bills exPaid "p1") as (H1 & _ & _ & _ & H5).
  split; [vm_compute; reflexivity|]. split.
  - refine (eq_trans (H5 "c1") _). vm_compute. reflexivity.
  - destruct (H1 "c1-2024-1" (patchBill (MarkPaid (p_date exPayment) "p1") exBillA))
      as (b' & Hb' & Hst & _); [vm_compute; reflexivity|reflexivity|].
    refine (eq_trans (f_equal (fmap b_status) Hb') _). exact (f_equal Some Hst).
Defined.

(** ** Undo followed by the same payment again *)

(** The payment "p1" undone and made again the same: the bill of January
    carries the payment id "p2", not "p1" as before the undo. *)
Lemma undo_reapply_paymentId_differs :
  (b_paymentId <$> bills (storeOf exPaid) !! "c1-2024-1") = Some (Some "p1")
  ∧ (b_paymentId <$> bills (storeOf exRepaid) !! "c1-2024-1") = Some (Some "p2")
  ∧ bills (storeOf exRepaid) !! "c1-2024-1" ≠ bills (storeOf exPaid) !! "c1-2024-1".
Proof.
  split; [vm_compute; reflexivity|]. split; [vm_compute; reflexivity|].
  vm_compute. discriminate.
Qed.

(** C5 (amended). Undo of a payment followed by a payment with the same
    allocations and the same date gives every affected bill the status and
    the [paidDate] it had before the undo; its [paymentId] is the id of the
    new payment document, so the bill is the same as before the undo exactly
    when that id is the one of the undone payment. *)
Theorem undo_then_reapply (s : Session) (newId newId' : string)
    (paymentData paymentData' : PaymentData) (billsToPay : JS.Obj JS.Number) :
  is_Some (customers (storeOf s) !! p_customerId paymentData) →
  p_customerId paymentData' = p_customerId paymentData →
  p_date paymentData' = p_date paymentData →
  let s1 := (addPayment s newId paymentData billsToPay).2 in
  let s2 := (deletePayment s1 newId).2 in
  let s3 := (addPayment s2 newId' paymentData' billsToPay).2 in
  ∀ k b1, k ∈ JS.keys billsToPay → bills (storeOf s1) !! k = Some b1 →
    ∃ b3, bills (storeOf s3) !! k = Some b3
          ∧ b_status b3 = b_status b1
          ∧ b_paidDate b3 = b_paidDate b1
          ∧ b_paymentId b1 = Some newId
          ∧ b_paymentId b3 = Some newId'
          ∧ (newId' = newId → b3 = b1).
Proof.
  intros [c Hc] Hcid Hdate s1 s2 s3 k b1 Hk Hb1.
  destruct s as [|db]; [done|]. cbn [storeOf] in Hc.
  subst s3 s2 s1. revert Hb1.
  rewrite (addPayment_SignedIn _ _ _ _ _ Hc).
  set (db1 := paidStore db newId paymentData billsToPay c).
  cbn [snd]. rewrite deletePayment_SignedIn. cbn [snd].
  assert (is_Some (customers (undoneStore db1 newId) !! p_customerId paymentData'))
    as [c1 Hc1].
  { rewrite Hcid. unfold undoneStore, db1, paidStore. cbn [customers].
    destruct (JS.gtb _ _); [rewrite lookup_insert_eq|]; eauto. }
  rewrite (addPayment_SignedIn _ _ _ _ _ Hc1). cbn [snd storeOf].
  unfold paidStore at 1. cbn [bills]. unfold undoneStore. cbn [bills].
  unfold db1, paidStore. cbn [bills]. intros Hb1.
  rewrite lookup_markAll in Hb1.
  destruct (bills db !! k) as [b0|] eqn:Hb0; [|done].
  rewrite lookup_markAll. unfold undoBills. rewrite lookup_fmap, lookup_markAll, Hb0.
  destruct (decide (k ∈ JS.keys billsToPay)) as [_|]; [|done].
  cbn in Hb1. injection Hb1 as <-. cbn.
  destruct (decide (Some newId = Some newId)) as [_|]; [|done].
  rewrite Hdate. eexists. split; [done|]. cbn. repeat split; try done.
  by intros ->.
Qed.

Lemma undo_then_reapply_witness :
  ∃ b3, bills (storeOf exRepaid) !! "c1-2024-1" = Some b3
        ∧ b_status b3 = PAID ∧ b_paymentId b3 = Some "p2".
Proof.
  assert (is_Some (customers (storeOf (SignedIn exStore)) !! p_customerId exPayment))
    as Hc by (vm_compute; eexists; reflexivity).
  assert ("c1-2024-1" ∈ JS.keys [("c1-2024-1", JS.ofZ 300)])
    as Hk by apply list_elem_of_here.
  assert (bills (storeOf (addPayment (SignedIn exStore) "p1" exPayment
                            [("c1-2024-1", JS.ofZ 300)]).2) !! "c1-2024-1"
          = Some (patchBill (MarkPaid (p_date exPayment) "p1") exBillA))
    as Hb1 by (vm_compute; reflexivity).
  destruct (undo_then_reapply (SignedIn exStore) "p1" "p2" exPayment exPayment
              [("c1-2024-1", JS.ofZ 300)] Hc eq_refl eq_refl "c1-2024-1" _ Hk Hb1)
    as (b3 & H3 & Hst & _ & _ & Hpid & _).
  exists b3. split; [exact H3|]. split; [exact Hst|exact Hpid].
Defined.

(** ** The due ledger *)

Lemma getCustomerById_SignedIn db cid :
  getCustomerById (SignedIn db) cid = mkDoc cid <$> customers db !! cid.
Proof. unfold getCustomerById. cbn [customersOf]. apply findById_snapshot. Qed.

Lemma addDuePayment_SignedIn db newId paymentData c :
  customers db !! dp_customerId paymentData = Some c →
  addDuePayment (SignedIn db) newId paymentData
  = (ok, SignedIn (mkStore
       (<[dp_customerId paymentData :=
            setOpeningDue (JS.sub (c_openingDue c) (dp_amount paymentData)) c]>
          (customers db))
       (payments db) (areas db)
       (<[newId := paymentData]> (duePayments db)) (bills db))).
Proof.
  intros Hc. unfold addDuePayment.
  rewrite getCustomerById_SignedIn, Hc. cbn. by rewrite Hc.
Qed.

Lemma updateDuePayment_SignedIn db (updatedPayment : DuePayment) original c :
  duePayments db !! id updatedPayment = Some original →
  customers db !! dp_customerId (data updatedPayment) = Some c →
  updateDuePayment (SignedIn db) updatedPayment
  = (ok, SignedIn (mkStore
       (<[dp_customerId (data updatedPayment) :=
            setOpeningDue
              (JS.sub (c_openingDue c)
                      (JS.sub (dp_amount (data updatedPayment)) (dp_amount original)))
              c]> (customers db))
       (payments db) (areas db)
       (<[id updatedPayment := mergeDuePayment (data updatedPayment) original]>
          (duePayments db))
       (bills db))).
Proof.
  intros Ho Hc. unfold updateDuePayment.
  rewrite getCustomerById_SignedIn, Hc. cbn [duePaymentsOf].
  rewrite findById_snapshot, Ho. cbn. rewrite Ho. cbn. by rewrite Hc.
Qed.

Lemma deleteDuePayment_SignedIn db paymentId p c :
  duePayments db !! paymentId = Some p →
  customers db !! dp_customerId p = Some c →
  deleteDuePayment (SignedIn db) paymentId
  = (ok, SignedIn (mkStore
       (<[dp_customerId p := setOpeningDue (JS.add (c_openingDue c) (dp_amount p)) c]>
          (customers db))
       (payments db) (areas db)
       (delete paymentId (duePayments db)) (bills db))).
Proof.
  intros Hp Hc. unfold deleteDuePayment. cbn [duePaymentsOf].
  rewrite findById_snapshot, Hp. cbn [fmap option_fmap option_map data].
  rewrite getCustomerById_SignedIn, Hc. cbn. by rewrite Hc.
Qed.

(** With decimal amounts the loop does not close: on an opening due of
    400, a due payment of 0.1 updated to 0.2 and then deleted leaves
    399.99999999999994. *)
Lemma due_ledger_decimal_drift :
  let s1 := (addDuePayment (SignedIn exPaidStore) "d1"
               (mkDuePayment "c1" (JS.decimal 1 1) "2024-02-01" None)).2 in
  let s2 := (updateDuePayment s1
               (mkDoc "d1" (mkDuePayment "c1" (JS.decimal 2 1) "2024-02-02" None))).2 in
  let s3 := (deleteDuePayment s2 "d1").2 in
  openingDueOf (SignedIn exPaidStore) "c1" = Some (JS.ofZ 400)
  ∧ openingDueOf s1 "c1" = Some (JS.decimal 3999 1)
  ∧ openingDueOf s3 "c1" = Some (S754_finite false 7036874417766399 (-44))
  ∧ openingDueOf s3 "c1" ≠ openingDueOf (SignedIn exPaidStore) "c1"
  ∧ JS.ltb (S754_finite false 7036874417766399 (-44)) (JS.ofZ 400) = true.
Proof.
  split; [vm_compute; reflexivity|]. split; [vm_compute; reflexivity|].
  split; [vm_compute; reflexivity|]. split; [vm_compute; discriminate|].
  vm_compute. reflexivity.
Qed.

(** C4 (amended). Due-ledger linearity: on a customer with opening due
    [due], [addDuePayment] of [a1] leaves [due − a1], [updateDuePayment] of
    that due payment to [a2] lowers it by [a2 − a1], and [deleteDuePayment]
    of it raises it by [a2], each in double arithmetic.  For whole amounts
    (below 2^53 in all) the three steps are exact and the opening due is
    [due] again after them. *)
Theorem due_ledger_closed_loop (s : Session) (cid newId date1 date2 : string)
    (notes1 notes2 : option string) (a1 a2 due : JS.Number) :
  openingDueOf s cid = Some due →
  let s1 := (addDuePayment s newId (mkDuePayment cid a1 date1 notes1)).2 in
  let s2 := (updateDuePayment s1 (mkDoc newId (mkDuePayment cid a2 date2 notes2))).2 in
  let s3 := (deleteDuePayment s2 newId).2 in
  openingDueOf s1 cid = Some (JS.sub due a1)
  ∧ openingDueOf s2 cid = Some (JS.sub (JS.sub due a1) (JS.sub a2 a1))
  ∧ openingDueOf s3 cid = Some (JS.add (JS.sub (JS.sub due a1) (JS.sub a2 a1)) a2)
  ∧ (whole due → whole a1 → whole a2 →
     Z.abs (JS.toZ due) + Z.abs (JS.toZ a1) + Z.abs (JS.toZ a2) < 2 ^ 53 →
     openingDueOf s1 cid = Some (JS.ofZ (JS.toZ due - JS.toZ a1))
     ∧ openingDueOf s2 cid = Some (JS.ofZ (JS.toZ due - JS.toZ a2))
     ∧ openingDueOf s3 cid = Some due).
Proof.
  intros Hdue s1 s2 s3. destruct s as [|db]; [done|].
  rewrite openingDueOf_SignedIn in Hdue.
  destruct (customers db !! cid) as [c|] eqn:Hc; [|done].
  cbn in Hdue. injection Hdue as <-.
  subst s3 s2 s1.
  rewrite (addDuePayment_SignedIn db newId (mkDuePayment cid a1 date1 notes1) c Hc).
  cbn [snd dp_customerId dp_amount].
  set (c1 := setOpeningDue (JS.sub (c_openingDue c) a1) c).
  set (db1 := mkStore _ _ _ _ _).
  assert (duePayments db1 !! newId = Some (mkDuePayment cid a1 date1 notes1)) as Ho.
  { unfold db1. cbn. apply lookup_insert_eq. }
  assert (customers db1 !! cid = Some c1) as Hc1.
  { unfold db1. cbn. apply lookup_insert_eq. }
  rewrite (updateDuePayment_SignedIn db1
             (mkDoc newId (mkDuePayment cid a2 date2 notes2)) _ c1 Ho Hc1).
  cbn [snd dp_customerId dp_amount id data].
  set (c2 := setOpeningDue (JS.sub (c_openingDue c1) (JS.sub a2 a1)) c1).
  set (db2 := mkStore _ _ _ _ _).
  assert (duePayments db2 !! newId
          = Some (mergeDuePayment (mkDuePayment cid a2 date2 notes2)
                                  (mkDuePayment cid a1 date1 notes1))) as Ho2.
  { unfold db2. cbn. apply lookup_insert_eq. }
  assert (customers db2 !! cid = Some c2) as Hc2.
  { unfold db2. cbn. apply lookup_insert_eq. }
  rewrite (deleteDuePayment_SignedIn db2 newId _ c2 Ho2 Hc2).
  cbn [snd mergeDuePayment dp_customerId dp_amount].
  rewrite !openingDueOf_SignedIn. cbn [customers].
  rewrite Hc1, Hc2, lookup_insert_eq. cbn.
  split; [done|]. split; [done|]. split; [done|].
  intros Hdue Ha1 Ha2 Hsize.
  set (d := JS.toZ (c_openingDue c)) in *.
  set (n1 := JS.toZ a1) in *. set (n2 := JS.toZ a2) in *.
  assert (JS.sub (c_openingDue c) a1 = JS.ofZ (d - n1)) as ->.
  { apply whole_sub; [done|done|]. fold d n1. lia. }
  assert (JS.sub a2 a1 = JS.ofZ (n2 - n1)) as ->.
  { apply whole_sub; [done|done|]. fold n1 n2. lia. }
  rewrite sub_ofZ by lia.
  replace (d - n1 - (n2 - n1)) with (d - n2) by lia.
  split; [done|]. split; [done|]. f_equal.
  rewrite (proj1 Ha2) at 1. fold n2. rewrite add_ofZ by lia.
  replace (d - n2 + n2) with d by lia. symmetry. exact (proj1 Hdue).
Qed.

Lemma due_ledger_closed_loop_witness :
  openingDueOf
    (addDuePayment (SignedIn exPaidStore) "d1" (mkDuePayment "c1" 150 "2024-02-01" None)).2
    "c1" = Some (JS.ofZ 250)
  ∧ openingDueOf
      (updateDuePayment
         (addDuePayment (SignedIn exPaidStore) "d1"
            (mkDuePayment "c1" 150 "2024-02-01" None)).2
         (mkDoc "d1" (mkDuePayment "c1" 100 "2024-02-02" None))).2
      "c1" = Some (JS.ofZ 300)
  ∧ openingDueOf
      (deleteDuePayment
         (updateDuePayment
            (addDuePayment (SignedIn exPaidStore) "d1"
               (mkDuePayment "c1" 150 "2024-02-01" None)).2
            (mkDoc "d1" (mkDuePayment "c1" 100 "2024-02-02" None))).2
         "d1").2
      "c1" = Some (JS.ofZ 400).
Proof.
  destruct (due_ledger_closed_loop (SignedIn exPaidStore) "c1" "d1"
              "2024-02-01" "2024-02-02" None None 150 100 400)
    as (_ & _ & _ & H); [vm_compute; reflexivity|].
  destruct H as (H1 & H2 & H3).
  - apply whole_ofZ. lia.
  - apply whole_ofZ. lia.
  - apply whole_ofZ. lia.
  - vm_compute. reflexivity.
  - split; [|split].
    + refine (eq_trans H1 _). vm_compute. reflexivity.
    + refine (eq_trans H2 _). vm_compute. reflexivity.
    + exact H3.
Defined.

(** Every due-ledger mutation either succeeds or leaves the session as it
    was. *)
Lemma addDuePayment_all_or_nothing s newId paymentData :
  success (addDuePayment s newId paymentData).1 = false →
  (addDuePayment s newId paymentData).2 = s.
Proof.
  unfold addDuePayment. destruct s as [|db]; [done|].
  destruct (getCustomerById _ _); [|done]. by destruct (commit _ _).
Qed.

Lemma updateDuePayment_all_or_nothing s updatedPayment :
  success (updateDuePayment s updatedPayment).1 = false →
  (updateDuePayment s updatedPayment).2 = s.
Proof.
  unfold updateDuePayment. destruct s as [|db]; [done|].
  destruct (findById _ _); [|done]. destruct (getCustomerById _ _); [|done].
  by destruct (commit _ _).
Qed.

Lemma deleteDuePayment_all_or_nothing s paymentId :
  success (deleteDuePayment s paymentId).1 = false →
  (deleteDuePayment s paymentId).2 = s.
Proof.
  unfold deleteDuePayment. destruct s as [|db]; [done|].
  destruct (findById _ _) as [p|]; [|done].
  destruct (getCustomerById _ _); [|done]. by destruct (commit _ _).
Qed.

(** C7. [addDuePayment], [updateDuePayment] and [deleteDuePayment] return a
    failure and leave the whole state unchanged when the target customer
    cannot be found, or, for update and delete, when the original due
    payment cannot be found; and whatever the input, a call that does not
    succeed has changed nothing. *)
Theorem due_ledger_failures (s : Session) (newId paymentId : string)
    (paymentData : DuePaymentData) (updatedPayment : DuePayment) :
  (getCustomerById s (dp_customerId paymentData) = None →
     success (addDuePayment s newId paymentData).1 = false
     ∧ (addDuePayment s newId paymentData).2 = s)
  ∧ (findById (duePaymentsOf s) (id updatedPayment) = None
     ∨ getCustomerById s (dp_customerId (data updatedPayment)) = None →
     success (updateDuePayment s updatedPayment).1 = false
     ∧ (updateDuePayment s updatedPayment).2 = s)
  ∧ (findById (duePaymentsOf s) paymentId = None
     ∨ (∃ p, findById (duePaymentsOf s) paymentId = Some p
             ∧ getCustomerById s (dp_customerId (data p)) = None) →
     success (deleteDuePayment s paymentId).1 = false
     ∧ (deleteDuePayment s paymentId).2 = s)
  ∧ (success (addDuePayment s newId paymentData).1 = false →
       (addDuePayment s newId paymentData).2 = s)
  ∧ (success (updateDuePayment s updatedPayment).1 = false →
       (updateDuePayment s updatedPayment).2 = s)
  ∧ (success (deleteDuePayment s paymentId).1 = false →
       (deleteDuePayment s paymentId).2 = s).
Proof.
  split; [|split; [|split; [|split; [|split]]]].
  - intros Hc. unfold addDuePayment. destruct s as [|db]; [done|]. by rewrite Hc.
  - intros H. unfold updateDuePayment. destruct s as [|db]; [done|].
    destruct H as [-> | ->]; [done|]. by destruct (findById _ _).
  - intros H. unfold deleteDuePayment. destruct s as [|db]; [done|].
    destruct H as [-> | (p & -> & ->)]; done.
  - apply addDuePayment_all_or_nothing.
  - apply updateDuePayment_all_or_nothing.
  - apply deleteDuePayment_all_or_nothing.
Qed.

Lemma due_ledger_failures_witness :
  (addDuePayment (SignedIn exStore) "d1" (mkDuePayment "c7" 150 "2024-02-01" None)).2
  = SignedIn exStore
  ∧ (updateDuePayment (SignedIn exStore)
       (mkDoc "d1" (mkDuePayment "c1" 100 "2024-02-02" None))).2 = SignedIn exStore
  ∧ (deleteDuePayment (SignedIn exStore) "d1").2 = SignedIn exStore.
Proof.
  destruct (due_ledger_failures (SignedIn exStore) "d1" "d1"
              (mkDuePayment "c7" 150 "2024-02-01" None)
              (mkDoc "d1" (mkDuePayment "c1" 100 "2024-02-02" None)))
    as (Ha & Hu & Hd & _).
  split; [|split].
  - apply Ha. vm_compute. reflexivity.
  - apply Hu. left. vm_compute. reflexivity.
  - apply Hd. left. vm_compute. reflexivity.
Defined.

(** ** Areas *)

Lemma existsb_nameTaken {U : JS.UnicodeCase} ars name :
  existsb (λ a : Area, bool_decide (JS.toLowerCase (a_name (data a)) = JS.toLowerCase name))
          (snapshot ars) = true
  ↔ nameTaken ars name.
Proof.
  rewrite existsb_exists. split.
  - intros (x & Hx & Hn). apply list_elem_of_In, elem_of_snapshot in Hx.
    apply bool_decide_eq_true in Hn. exists (id x), (data x). done.
  - intros (k & a & Ha & Hn). exists (mkDoc k a). split.
    + apply list_elem_of_In, elem_of_snapshot. done.
    + by apply bool_decide_eq_true.
Qed.

Lemma addArea_rejects {U : JS.UnicodeCase} s newId name :
  name = "" ∨ nameTaken (areas (storeOf s)) name →
  addArea s newId name = (failure "Area already exists or name is invalid.", s)
  ∨ addArea s newId name = (failure "User not authenticated.", s).
Proof.
  intros H. destruct s as [|db]; [by right|left].
  unfold addArea. cbn [areasOf storeOf] in *.
  destruct H as [-> | H]; [done|].
  apply existsb_nameTaken in H. rewrite H. by rewrite orb_true_r.
Qed.

(** With Unicode's conversion, which lowers [É] to [é], the name "École"
    is refused beside an area "école". *)
Lemma addArea_unicode_case {U : JS.UnicodeCase} db newId k :
  JS.toLowerCaseUnicode "École" = "école" →
  JS.toLowerCaseUnicode "école" = "école" →
  areas db !! k = Some (mkArea "école") →
  addArea (SignedIn db) newId "École"
  = (failure "Area already exists or name is invalid.", SignedIn db).
Proof.
  intros Hupper Hlower Hk.
  assert (nameTaken (areas db) "École") as Htaken.
  { exists k, (mkArea "école"). split; [done|].
    unfold JS.toLowerCase. cbn. by rewrite Hupper, Hlower. }
  unfold addArea. cbn [areasOf].
  apply existsb_nameTaken in Htaken. rewrite Htaken. by rewrite orb_true_r.
Qed.

Lemma addArea_accepts {U : JS.UnicodeCase} db newId name :
  name ≠ "" → ¬ nameTaken (areas db) name →
  addArea (SignedIn db) newId name
  = (ok, SignedIn (withAreas (<[newId := mkArea name]> (areas db)) db)).
Proof.
  intros Hne Hfree. unfold addArea. cbn [areasOf].
  rewrite bool_decide_eq_false_2 by done.
  destruct (existsb _ _) eqn:He; [|done].
  apply existsb_nameTaken in He. done.
Qed.

(** C9. [addArea(name)] fails, creating no area, when [name] is empty or
    when some existing area has the same name up to letter case, that is
    the same [toLowerCase]; otherwise (for a signed-in user, the new
    document getting a fresh id) it creates exactly one new area with that
    name and keeps the others; hence it never makes two areas whose names
    are equal up to letter case.  This holds whatever [toLowerCase] gives on
    the strings that are not ASCII. *)
Theorem addArea_case_insensitive_unique {U : JS.UnicodeCase} (s : Session)
    (newId name : string) :
  let out := addArea s newId name in
  (name = "" ∨ nameTaken (areas (storeOf s)) name →
     success out.1 = false ∧ out.2 = s)
  ∧ (∀ db, s = SignedIn db → name ≠ "" → ¬ nameTaken (areas db) name →
       areas db !! newId = None →
       success out.1 = true
       ∧ areas (storeOf out.2) = <[newId := mkArea name]> (areas db)
       ∧ size (areas (storeOf out.2)) = S (size (areas db))
       ∧ (∀ k a, areas db !! k = Some a → areas (storeOf out.2) !! k = Some a))
  ∧ (caseUnique (areas (storeOf s)) → caseUnique (areas (storeOf out.2))).
Proof.
  intros out. split; [|split].
  - intros H. subst out.
    destruct (addArea_rejects s newId name H) as [-> | ->]; done.
  - intros db -> Hne Hfree Hfresh. subst out.
    rewrite addArea_accepts by done. cbn.
    split; [done|]. split; [done|]. split.
    + by apply map_size_insert_None.
    + intros k a Ha. rewrite lookup_insert_ne; [done|]. congruence.
  - intros Huniq. subst out. destruct s as [|db]; [done|]. cbn [storeOf] in Huniq.
    destruct (decide (name = "")) as [->|Hne]; [done|].
    destruct (decide (nameTaken (areas db) name)) as [Ht|Hfree].
    { destruct (addArea_rejects (SignedIn db) newId name (or_intror Ht)) as [-> | ->];
        done. }
    rewrite addArea_accepts by done. cbn.
    intros k1 k2 a1 a2 H1 H2 Heq.
    destruct (decide (k1 = newId)) as [->|Hk1], (decide (k2 = newId)) as [->|Hk2];
      [done| | |].
    + rewrite lookup_insert_eq in H1. rewrite lookup_insert_ne in H2 by done.
      injection H1 as <-. destruct Hfree. exists k2, a2. done.
    + rewrite lookup_insert_eq in H2. rewrite lookup_insert_ne in H1 by done.
      injection H2 as <-. destruct Hfree. exists k1, a1. done.
    + rewrite lookup_insert_ne in H1, H2 by done. eauto.
Qed.

Lemma addArea_case_insensitive_unique_witness :
  (@addArea asciiOnly (SignedIn exAreas) "a2" "NORTH").2 = SignedIn exAreas
  ∧ areas (storeOf (@addArea asciiOnly (SignedIn exAreas) "a2" "South").2)
    = <[ "a2" := mkArea "South" ]> (areas exAreas).
Proof.
  split.
  - apply (@addArea_case_insensitive_unique asciiOnly (SignedIn exAreas) "a2" "NORTH").
    right. exists "a1", (mkArea "North"). split; vm_compute; reflexivity.
  - apply (@addArea_case_insensitive_unique asciiOnly (SignedIn exAreas) "a2" "South"
             : _ ∧ (∀ db, _) ∧ _); [reflexivity|discriminate| |vm_compute; reflexivity].
    intros (k & a & Ha & Hn). cbn in Ha.
    apply lookup_singleton_Some in Ha as [<- <-]. vm_compute in Hn. discriminate.
Defined.

(** ** The subscription gate *)

Lemma ceilDiv_le (a n : Z) : ceilDiv a msPerDay ≤ n ↔ a ≤ n * msPerDay.
Proof.
  unfold ceilDiv. replace msPerDay with 86400000 by reflexivity.
  pose proof (Z.div_mod (- a) 86400000 ltac:(lia)).
  pose proof (Z.mod_pos_bound (- a) 86400000 ltac:(lia)). lia.
Qed.

(** A 'pending' user with no trial day left is not locked. *)
Lemma gate_pending_not_locked :
  status (@useSubscriptionStatus asciiOnly (Some exPendingUser) msPerDay) = "pending"
  ∧ trialDaysLeft (@useSubscriptionStatus asciiOnly (Some exPendingUser) msPerDay) = 0
  ∧ isLocked (@useSubscriptionStatus asciiOnly (Some exPendingUser) msPerDay) = false.
Proof. vm_compute. done. Qed.

(** C8 (amended). The gate computes
    [trialDaysLeft = max(0, ceil((trialEndDate − now) / 1 day))] (0 when the
    profile has no trial end date) and is unlocked, that is [isLocked] is
    false, exactly when the normalised status is 'active', or 'pending', or
    'free_trial' with [trialDaysLeft > 0]; [isSubscribed] and
    [isTrialActive] hold exactly for 'active' and for 'free_trial' with
    days left; a 'free_trial' user with [trialDaysLeft = 0] is locked and a
    'pending' user is not. *)
Theorem gate_unlocked_iff {U : JS.UnicodeCase} (user : option User) (now : Z) :
  let g := useSubscriptionStatus user now in
  trialDaysLeft g
  = match user ≫= trialEndDate with
    | Some t => Z.max 0 (ceilDiv (t - now) msPerDay)
    | None => 0
    end
  ∧ (∀ a n, ceilDiv a msPerDay ≤ n ↔ a ≤ n * msPerDay)
  ∧ (isLocked g = false
     ↔ status g = "active" ∨ status g = "pending"
       ∨ (status g = "free_trial" ∧ 0 < trialDaysLeft g))
  ∧ (isSubscribed g = true ↔ status g = "active")
  ∧ (isTrialActive g = true ↔ status g = "free_trial" ∧ 0 < trialDaysLeft g)
  ∧ (status g = "free_trial" → trialDaysLeft g = 0 → isLocked g = true)
  ∧ (status g = "pending" → isLocked g = false ∧ isTrialActive g = false).
Proof.
  intros g. split; [done|]. split; [apply ceilDiv_le|].
  subst g. unfold useSubscriptionStatus.
  set (st := orFreeTrial _). set (days := match _ with Some _ => _ | None => _ end).
  cbn [status isLocked trialDaysLeft isTrialActive isSubscribed].
  assert (bool_decide (st = "free_trial") && (0 <? days) = true
          ↔ st = "free_trial" ∧ 0 < days) as Htrial.
  { rewrite andb_true_iff, bool_decide_eq_true, Z.ltb_lt. tauto. }
  split; [|split; [apply bool_decide_eq_true|split; [done|split]]].
  - destruct (decide (st = "free_trial" ∧ 0 < days)) as [Hy|Hn].
    + rewrite (proj2 Htrial Hy), andb_false_r. cbn. tauto.
    + assert (bool_decide (st = "free_trial") && (0 <? days) = false) as ->.
      { apply not_true_is_false. intros Hb. by apply Hn, Htrial. }
      destruct (decide (st = "active")) as [Ha|Ha];
        [rewrite (bool_decide_eq_true_2 _ Ha); cbn; tauto|].
      rewrite (bool_decide_eq_false_2 _ Ha).
      destruct (decide (st = "pending")) as [Hp|Hp];
        [rewrite (bool_decide_eq_true_2 _ Hp); cbn; tauto|].
      rewrite (bool_decide_eq_false_2 _ Hp). cbn. split; [done|tauto].
  - intros Hst Hdays. rewrite Hst, Hdays. done.
  - intros Hst. rewrite Hst. done.
Qed.

Lemma gate_unlocked_iff_witness :
  trialDaysLeft (@useSubscriptionStatus asciiOnly
                   (Some (mkUser (Some " Free_Trial ") (Some (4 * msPerDay)))) (msPerDay / 2))
  = 4
  ∧ isLocked (@useSubscriptionStatus asciiOnly
                (Some (mkUser (Some " Free_Trial ") (Some (4 * msPerDay)))) (msPerDay / 2))
    = false.
Proof.
  destruct (@gate_unlocked_iff asciiOnly
              (Some (mkUser (Some " Free_Trial ") (Some (4 * msPerDay)))) (msPerDay / 2))
    as (Hdays & _ & Hiff & _).
  split.
  - refine (eq_trans Hdays _). vm_compute. reflexivity.
  - apply Hiff. right. right. vm_compute. done.
Defined.

(** ** The bill generator *)

Lemma emitBills_nil bills customer : emitBills bills customer [] = [].
Proof. done. Qed.

Lemma emitBills_cons bills customer ym months :
  emitBills bills customer (ym :: months)
  = (if negb (billExists bills (billIdOf (id customer) ym.1 ym.2))
     then [SetBill (billIdOf (id customer) ym.1 ym.2) (newBillOf customer ym.1 ym.2)]
     else [])
    ++ emitBills bills customer months.
Proof.
  unfold emitBills. rewrite filter_cons.
  destruct (billExists bills _) eqn:He.
  - by rewrite decide_False by done.
  - by rewrite decide_True by done.
Qed.

Lemma billLoop_emit fuel bills customer cy cm loopDate batch :
  billLoop fuel bills customer cy cm loopDate batch
  = batch ++ emitBills bills customer (visitedMonths fuel cy cm loopDate).
Proof.
  revert loopDate batch. induction fuel as [|fuel IH]; intros loopDate batch.
  - cbn. by rewrite app_nil_r.
  - cbn [billLoop visitedMonths]. destruct (inRange cy cm loopDate).
    + rewrite IH, emitBills_cons. cbn [fst snd]. fold (billExists bills).
      destruct (negb _); [by rewrite <- app_assoc|done].
    + by rewrite emitBills_nil, app_nil_r.
Qed.

Lemma billsForCustomer_emit bills currentDate batch customer :
  billsForCustomer bills currentDate batch customer
  = batch ++ emitBills bills customer (monthsVisited currentDate customer).
Proof.
  unfold billsForCustomer, monthsVisited.
  destruct (bool_decide _); [|by rewrite emitBills_nil, app_nil_r].
  destruct (JS.Date_gtb _ _); [by rewrite emitBills_nil, app_nil_r|].
  apply billLoop_emit.
Qed.

Lemma generatedBatch_emit customers bills currentDate :
  generatedBatch customers bills currentDate
  = customers ≫= λ c, emitBills bills c (monthsVisited currentDate c).
Proof.
  unfold generatedBatch.
  assert (∀ batch,
    fold_left (billsForCustomer bills currentDate) customers batch
    = batch ++ (customers ≫= λ c, emitBills bills c (monthsVisited currentDate c)))
    as H; [|apply (H [])].
  induction customers as [|c cs IH]; intros batch; cbn [fold_left].
  - by rewrite app_nil_r.
  - rewrite IH, billsForCustomer_emit, bind_cons. by rewrite <- app_assoc.
Qed.

Lemma emitBills_isSetBill bills customer months :
  Forall isSetBill (emitBills bills customer months).
Proof. unfold emitBills. apply Forall_fmap, Forall_true. done. Qed.

Lemma generatedBatch_isSetBill customers bills currentDate :
  Forall isSetBill (generatedBatch customers bills currentDate).
Proof.
  rewrite generatedBatch_emit. apply Forall_bind, Forall_true.
  intros c. apply emitBills_isSetBill.
Qed.

(** A batch of [set] writes on bills commits; it touches the bills only,
    keeps the bills there were and holds every bill it set. *)
Lemma commit_setBills batch db :
  Forall isSetBill batch →
  ∃ bs', commit batch db = Some (withBills bs' db)
         ∧ (∀ k, is_Some (bills db !! k) → is_Some (bs' !! k))
         ∧ (∀ k b, SetBill k b ∈ batch → is_Some (bs' !! k))
         ∧ (batch = [] → bs' = bills db).
Proof.
  revert db. induction batch as [|w batch IH]; intros db Hall.
  - exists (bills db). split; [by destruct db|]. split; [done|].
    split; [|done]. intros k b Hin. by apply elem_of_nil in Hin.
  - apply Forall_cons in Hall as [Hw Hall].
    destruct w as [k0 b0| | | | | | | |]; try done. cbn [commit applyWrite mbind option_bind].
    destruct (IH (withBills (<[k0 := b0]> (bills db)) db) Hall)
      as (bs' & Hcommit & Hold & Hnew & _).
    exists bs'. split; [by rewrite Hcommit|]. split; [|split; [|done]].
    + intros k Hk. apply Hold. cbn.
      destruct (decide (k = k0)) as [->|Hne];
        [rewrite lookup_insert_eq|rewrite lookup_insert_ne by done]; eauto.
    + intros k b Hin. apply elem_of_cons in Hin as [Heq|Hin].
      * injection Heq as -> ->. apply Hold. cbn. rewrite lookup_insert_eq. eauto.
      * by eapply Hnew.
Qed.

Lemma generateBills_SignedIn currentDate db :
  ∃ bs', generateBills currentDate (SignedIn db) = SignedIn (withBills bs' db)
         ∧ (∀ k, is_Some (bills db !! k) → is_Some (bs' !! k))
         ∧ (∀ k b, SetBill k b ∈ generatedBatch (snapshot (customers db))
                                   (snapshot (bills db)) currentDate →
                   is_Some (bs' !! k))
         ∧ (generatedBatch (snapshot (customers db)) (snapshot (bills db)) currentDate = []
            → bs' = bills db).
Proof.
  destruct (commit_setBills
              (generatedBatch (snapshot (customers db)) (snapshot (bills db)) currentDate)
              db (generatedBatch_isSetBill _ _ _))
    as (bs' & Hcommit & Hold & Hnew & Hnil).
  exists bs'. split; [|done]. unfold generateBills. cbn [customersOf billsOf].
  by rewrite Hcommit.
Qed.

(** After one run, every month the loop goes through has its bill. *)
Lemma emitBills_covered (bs bs' : gmap string BillData) customer months :
  (∀ k, is_Some (bs !! k) → is_Some (bs' !! k)) →
  (∀ k b, SetBill k b ∈ emitBills (snapshot bs) customer months → is_Some (bs' !! k)) →
  emitBills (snapshot bs') customer months = [].
Proof.
  intros Hold Hnew. induction months as [|ym months IH]; [done|].
  rewrite emitBills_cons in Hnew |- *. rewrite IH.
  2:{ intros k b Hin. apply (Hnew k b). apply elem_of_app. by right. }
  rewrite app_nil_r.
  assert (billExists (snapshot bs') (billIdOf (id customer) ym.1 ym.2) = true) as ->; [|done].
  unfold billExists in *. rewrite existsb_snapshot in *.
  apply bool_decide_eq_true.
  destruct (bs !! billIdOf (id customer) ym.1 ym.2) as [b|] eqn:Hb.
  - apply Hold. eauto.
  - apply (Hnew _ (newBillOf customer ym.1 ym.2)).
    rewrite bool_decide_eq_false_2 by (by intros [? ?]).
    cbn. apply list_elem_of_here.
Qed.

Lemma generatedBatch_covered (bs bs' : gmap string BillData) customers currentDate :
  (∀ k, is_Some (bs !! k) → is_Some (bs' !! k)) →
  (∀ k b, SetBill k b ∈ generatedBatch customers (snapshot bs) currentDate →
          is_Some (bs' !! k)) →
  generatedBatch customers (snapshot bs') currentDate = [].
Proof.
  intros Hold. rewrite !generatedBatch_emit.
  induction customers as [|c cs IH]; intros Hnew; [done|].
  rewrite bind_cons in Hnew |- *.
  rewrite (emitBills_covered bs bs'); [rewrite IH; [done|]|done|].
  - intros k b Hin. apply (Hnew k b). apply elem_of_app. by right.
  - intros k b Hin. apply (Hnew k b). apply elem_of_app. by left.
Qed.

Lemma generateBills_settled currentDate s :
  generatedBatch (customersOf (generateBills currentDate s))
                 (billsOf (generateBills currentDate s)) currentDate = [].
Proof.
  destruct s as [|db]; [done|].
  destruct (generateBills_SignedIn currentDate db) as (bs' & -> & Hold & Hnew & _).
  cbn [customersOf billsOf customers bills withBills].
  by apply (generatedBatch_covered (bills db)).
Qed.

Lemma generateBills_idempotent currentDate s :
  generateBills currentDate (generateBills currentDate s) = generateBills currentDate s.
Proof.
  pose proof (generateBills_settled currentDate s) as Hnil.
  destruct (generateBills currentDate s) as [|db']; [done|].
  unfold generateBills. by rewrite Hnil.
Qed.

Lemma generateBills_customers currentDate s :
  customersOf (generateBills currentDate s) = customersOf s.
Proof.
  destruct s as [|db]; [done|].
  by destruct (generateBills_SignedIn currentDate db) as (bs' & -> & _).
Qed.

(** C3. The bill generator is idempotent: run on the bill set a first run
    leaves, it leaves that bill set as it is; and the bill list never holds
    two bills with the same [customerId-year-month] key (the bill id). *)
Theorem billGeneration_idempotent (initialBillsLoaded : bool)
    (currentDate : JS.Date) (s : Session) :
  generateBills currentDate (generateBills currentDate s) = generateBills currentDate s
  ∧ billGenerationEffect initialBillsLoaded currentDate
      (billGenerationEffect initialBillsLoaded currentDate s)
    = billGenerationEffect initialBillsLoaded currentDate s
  ∧ generatedBatch (customersOf (generateBills currentDate s))
                   (billsOf (generateBills currentDate s)) currentDate = []
  ∧ NoDup (id <$> billsOf (generateBills currentDate s)).
Proof.
  split; [apply generateBills_idempotent|]. split; [|split].
  - unfold billGenerationEffect at 2 3. destruct s as [|db]; [done|].
    destruct (negb initialBillsLoaded || _) eqn:Hguard.
    + unfold billGenerationEffect. by rewrite Hguard.
    + unfold billGenerationEffect.
      destruct (generateBills currentDate (SignedIn db)) as [|db'] eqn:Hgen; [done|].
      rewrite <- Hgen, generateBills_customers, Hguard.
      apply generateBills_idempotent.
  - apply generateBills_settled.
  - destruct (generateBills currentDate s) as [|db']; [constructor|].
    apply NoDup_snapshot_ids.
Qed.

(** *** The months the generator covers *)

Lemma elem_of_monthsFrom n y m Y M :
  1 ≤ m ≤ 12 →
  (Y, M) ∈ monthsFrom n y m
  ↔ 1 ≤ M ≤ 12 ∧ 0 ≤ (Y * 12 + M) - (y * 12 + m) < Z.of_nat n.
Proof.
  revert y m. induction n as [|n IH]; intros y m Hm.
  - cbn. split; [by intros ?%elem_of_nil|lia].
  - cbn [monthsFrom]. rewrite elem_of_cons.
    destruct (Z.eqb_spec m 12) as [->|Hne].
    + rewrite IH by lia. split.
      * intros [[= -> ->]|?]; lia.
      * intros [? ?]. destruct (decide (Y = y ∧ M = 12)) as [[-> ->]|?]; [by left|].
        right. lia.
    + rewrite IH by lia. split.
      * intros [[= -> ->]|?]; lia.
      * intros [? ?]. destruct (decide (Y = y ∧ M = m)) as [[-> ->]|?]; [by left|].
        right. lia.
Qed.

Lemma NoDup_monthsFrom n y m : 1 ≤ m ≤ 12 → NoDup (monthsFrom n y m).
Proof.
  revert y m. induction n as [|n IH]; intros y m Hm; [constructor|].
  cbn [monthsFrom]. constructor.
  - destruct (Z.eqb_spec m 12) as [->|Hne]; rewrite elem_of_monthsFrom by lia; lia.
  - destruct (Z.eqb_spec m 12); apply IH; lia.
Qed.

Lemma length_monthsFrom n y m : length (monthsFrom n y m) = n.
Proof.
  revert y m. induction n as [|n IH]; intros y m; [done|].
  cbn [monthsFrom length]. destruct (m =? 12); by rewrite IH.
Qed.

Lemma makeDay_first y m : JS.makeDay y m 1 = JS.mkDate (y + m / 12) (m mod 12) 1 0.
Proof. done. Qed.

Lemma setMonth_first y m t :
  0 ≤ m ≤ 11 →
  JS.setMonth (JS.mkDate y m 1 t) (m + 1)
  = if m =? 11 then JS.mkDate (y + 1) 0 1 t else JS.mkDate y (m + 1) 1 t.
Proof.
  intros Hm. unfold JS.setMonth. cbn [JS.getFullYear JS.getDate JS.msOfDay].
  rewrite makeDay_first. cbn [JS.getFullYear JS.getMonth JS.getDate].
  destruct (Z.eqb_spec m 11) as [->|Hne]; [done|].
  rewrite Z.div_small, Z.mod_small by lia. f_equal. lia.
Qed.

Lemma visitedMonths_calendar fuel cy cm y m t :
  0 ≤ m ≤ 11 → 0 ≤ cm ≤ 11 →
  (monthsLeft cy cm (JS.mkDate y m 1 t) ≤ fuel)%nat →
  visitedMonths fuel cy cm (JS.mkDate y m 1 t)
  = monthsFrom (monthsLeft cy cm (JS.mkDate y m 1 t)) y (m + 1).
Proof.
  revert y m. induction fuel as [|fuel IH]; intros y m Hm Hcm Hfuel.
  - assert (monthsLeft cy cm (JS.mkDate y m 1 t) = O) as -> by lia. done.
  - cbn [visitedMonths]. unfold monthsLeft in *.
    cbn [JS.getFullYear JS.getMonth] in *.
    destruct (inRange cy cm (JS.mkDate y m 1 t)) eqn:Hin.
    + assert (y < cy ∨ (y = cy ∧ m ≤ cm)) as Hrange.
      { unfold inRange in Hin. cbn [JS.getFullYear JS.getMonth] in Hin.
        apply orb_true_iff in Hin as [Hin|Hin]; [left; lia|right].
        apply andb_true_iff in Hin. lia. }
      rewrite setMonth_first by done.
      assert (∃ n, Z.to_nat ((cy - y) * 12 + (cm - m) + 1) = S n) as [n Hn]
        by (exists (Z.to_nat ((cy - y) * 12 + (cm - m))); lia).
      rewrite Hn. cbn [monthsFrom]. f_equal.
      destruct (Z.eqb_spec m 11) as [->|Hne].
      * change (11 + 1 =? 12) with true. cbn match.
        rewrite IH by lia. f_equal. lia.
      * destruct (Z.eqb_spec (m + 1) 12); [lia|].
        rewrite IH by lia. f_equal. lia.
    + assert (Z.to_nat ((cy - y) * 12 + (cm - m) + 1) = O) as ->; [|done].
      unfold inRange in Hin. cbn [JS.getFullYear JS.getMonth] in Hin.
      apply orb_false_iff in Hin as [Hlt Hin].
      apply andb_false_iff in Hin. lia.
Qed.

(** The fuel [monthsLeft] lets the loop run to its own exit: more fuel
    changes nothing. *)
Lemma billLoop_fuel fuel bills customer cy cm y m t batch :
  0 ≤ m ≤ 11 → 0 ≤ cm ≤ 11 →
  (monthsLeft cy cm (JS.mkDate y m 1 t) ≤ fuel)%nat →
  billLoop fuel bills customer cy cm (JS.mkDate y m 1 t) batch
  = billLoop (monthsLeft cy cm (JS.mkDate y m 1 t)) bills customer cy cm
             (JS.mkDate y m 1 t) batch.
Proof.
  intros Hm Hcm Hfuel. rewrite !billLoop_emit.
  by rewrite !visitedMonths_calendar by (done || lia).
Qed.

Lemma newDate_first y m :
  0 ≤ m ≤ 11 →
  JS.newDate y m 1
  = JS.mkDate (if (0 <=? y) && (y <=? 99) then 1900 + y else y) m 1 0.
Proof.
  intros Hm. unfold JS.newDate. rewrite makeDay_first.
  rewrite Z.div_small, Z.mod_small by lia. f_equal. lia.
Qed.

(** [new Date(year, month, 0)] with [month] from 1 to 12 is the last day of
    that month, for a year outside 0..99. *)
Lemma newDate_lastDay y m :
  ¬ (0 ≤ y ≤ 99) → 1 ≤ m ≤ 12 →
  JS.newDate y m 0 = JS.mkDate y (m - 1) (JS.daysInMonth y (m - 1)) 0.
Proof.
  intros Hy Hm. unfold JS.newDate.
  assert ((0 <=? y) && (y <=? 99) = false) as ->.
  { apply andb_false_iff. lia. }
  unfold JS.makeDay. change (0 - 1) with (-1).
  change (JS.shiftDays (-1) ?d) with (JS.prevDay d).
  unfold JS.prevDay. cbn [JS.getDate JS.getMonth JS.getFullYear JS.msOfDay].
  change (1 <? 1) with false. cbn match.
  destruct (decide (m = 12)) as [->|Hne].
  - change (12 / 12) with 1. change (12 mod 12) with 0. change (0 =? 0) with true.
    cbn match. replace (y + 1 - 1) with y by lia. done.
  - rewrite Z.div_small, Z.mod_small by lia.
    destruct (Z.eqb_spec m 0); [lia|]. by rewrite Z.add_0_r.
Qed.

(** What [billsForCustomer] emits, for a start date whose year is outside
    0..99: nothing unless the customer is Active and started, else one bill
    for each calendar month from the start month through the current month
    that has no bill yet. *)
Lemma billsForCustomer_calendar bills currentDate batch (customer : Customer) :
  let startDate := c_startDate (data customer) in
  0 ≤ JS.getMonth startDate ≤ 11 → 0 ≤ JS.getMonth currentDate ≤ 11 →
  ¬ (0 ≤ JS.getFullYear startDate ≤ 99) →
  billsForCustomer bills currentDate batch customer
  = batch ++
    (if bool_decide (c_connectionStatus (data customer) = ACTIVE)
        && negb (JS.Date_gtb startDate currentDate)
     then emitBills bills customer (calendarMonths startDate currentDate)
     else []).
Proof.
  intros startDate Hsm Hcm Hy. rewrite billsForCustomer_emit. f_equal.
  unfold monthsVisited. fold startDate.
  destruct (bool_decide _); [|done].
  destruct (JS.Date_gtb startDate currentDate); [done|]. cbn [andb negb].
  rewrite newDate_first by done.
  assert ((0 <=? JS.getFullYear startDate) && (JS.getFullYear startDate <=? 99) = false)
    as -> by (apply andb_false_iff; lia).
  by rewrite visitedMonths_calendar.
Qed.

(** The generation boundary for a start year from 100 on: no bill for a
    customer that is not Active or starts in the future; otherwise one bill
    for each calendar month from the start month through the current month
    whose key has no bill, with the customer's monthly amount, Unpaid, due
    on the last day of its month. *)
Lemma generator_boundary bills currentDate batch (customer : Customer) :
  let startDate := c_startDate (data customer) in
  0 ≤ JS.getMonth startDate ≤ 11 → 0 ≤ JS.getMonth currentDate ≤ 11 →
  100 ≤ JS.getFullYear startDate →
  (c_connectionStatus (data customer) ≠ ACTIVE
   ∨ JS.Date_gtb startDate currentDate = true →
   billsForCustomer bills currentDate batch customer = batch)
  ∧ (c_connectionStatus (data customer) = ACTIVE →
     JS.Date_gtb startDate currentDate = false →
     billsForCustomer bills currentDate batch customer
     = batch ++ emitBills bills customer (calendarMonths startDate currentDate)
     ∧ NoDup (calendarMonths startDate currentDate)
     ∧ (∀ y m, (y, m) ∈ calendarMonths startDate currentDate
               ↔ 1 ≤ m ≤ 12
                 ∧ JS.getFullYear startDate * 12 + (JS.getMonth startDate + 1)
                   ≤ y * 12 + m
                   ≤ JS.getFullYear currentDate * 12 + (JS.getMonth currentDate + 1))
     ∧ (∀ y m, (y, m) ∈ calendarMonths startDate currentDate →
               newBillOf customer y m
               = mkBill (id customer) (c_monthlyBill (data customer)) m y UNPAID
                        (JS.mkDate y (m - 1) (JS.daysInMonth y (m - 1)) 0)
                        None None None)).
Proof.
  intros startDate Hsm Hcm Hy.
  pose proof (billsForCustomer_calendar bills currentDate batch customer Hsm Hcm
                ltac:(fold startDate; lia)) as Heq.
  fold startDate in Heq.
  assert (∀ y m, (y, m) ∈ calendarMonths startDate currentDate
            ↔ 1 ≤ m ≤ 12
              ∧ JS.getFullYear startDate * 12 + (JS.getMonth startDate + 1)
                ≤ y * 12 + m
                ≤ JS.getFullYear currentDate * 12 + (JS.getMonth currentDate + 1))
    as Hmem.
  { intros y m. unfold calendarMonths. rewrite elem_of_monthsFrom by lia. lia. }
  split.
  - intros [Hst|Hfut]; rewrite Heq.
    + by rewrite bool_decide_eq_false_2, app_nil_r by done.
    + by rewrite Hfut, andb_false_r, app_nil_r.
  - intros Hst Hnow. rewrite Heq, Hnow, bool_decide_eq_true_2 by done.
    split; [done|]. split; [apply NoDup_monthsFrom; lia|]. split; [done|].
    intros y m Hin. apply Hmem in Hin. unfold newBillOf.
    rewrite newDate_lastDay; [done| |lia].
    assert (JS.getFullYear startDate ≤ y) by lia. lia.
Qed.

(** The scenario of the specification: monthly bill 500, start 2024-01-15,
    Active, no bill yet, run on 2024-03-20: January, February and March. *)
Lemma generator_scenario :
  generatedBatch [mkDoc "c1" exCustomer] [] exToday
  = [SetBill "c1-2024-1"
       (mkBill "c1" 500 1 2024 UNPAID (JS.mkDate 2024 0 31 0) None None None);
     SetBill "c1-2024-2"
       (mkBill "c1" 500 2 2024 UNPAID (JS.mkDate 2024 1 29 0) None None None);
     SetBill "c1-2024-3"
       (mkBill "c1" 500 3 2024 UNPAID (JS.mkDate 2024 2 31 0) None None None)].
Proof. vm_compute. reflexivity. Qed.

(** C2 at the start date 0024-01-15, run on 2024-03-20: the customer is
    Active and started, yet the first bill emitted is the one of January
    1924 and 1203 bills are emitted, none for a month before 1924, where the
    months from the start month through the current month are 24003. *)
Theorem generator_two_digit_start_year :
  c_connectionStatus (data exTypoCustomer) = ACTIVE
  ∧ JS.Date_gtb (c_startDate (data exTypoCustomer)) exToday = false
  ∧ head (generatedBatch [exTypoCustomer] [] exToday)
    = Some (SetBill "c1-1924-1"
              (mkBill "c1" 500 1 1924 UNPAID (JS.mkDate 1924 0 31 0) None None None))
  ∧ Z.of_nat (length (generatedBatch [exTypoCustomer] [] exToday)) = 1203
  ∧ head (calendarMonths (c_startDate (data exTypoCustomer)) exToday) = Some (24, 1)
  ∧ Z.of_nat (length (calendarMonths (c_startDate (data exTypoCustomer)) exToday))
    = 24003.
Proof.
  split; [done|]. split; [done|].
  split; [vm_compute; reflexivity|]. split; [vm_compute; reflexivity|].
  split; [vm_compute; reflexivity|].
  unfold calendarMonths. rewrite length_monthsFrom. vm_compute. reflexivity.
Qed.

(** * Further properties *)

(** ** [deleteCustomer] *)

Lemma commitMore_app (b1 b2 : list WriteMore) (db : Store) :
  commitMore (b1 ++ b2) db = commitMore b1 db ≫= commitMore b2.
Proof.
  revert db. induction b1 as [|w b1 IH]; intros db; simpl; [done|].
  destruct (applyWriteMore w db) as [db'|]; simpl; [apply IH|done].
Qed.

Lemma commit_deletePayments (ks : list string) (db : Store) :
  ∃ m', commitMore ((λ k, Basic (DeletePayment k)) <$> ks) db
        = Some (withPayments m' db)
        ∧ ∀ k, m' !! k = if decide (k ∈ ks) then None else payments db !! k.
Proof.
  revert db. induction ks as [|k0 ks IH]; intros db.
  - exists (payments db). split; [by destruct db|]. intros k.
    by rewrite decide_False by apply not_elem_of_nil.
  - destruct (IH (withPayments (delete k0 (payments db)) db)) as (m' & Hc & Hm).
    exists m'. split; [exact Hc|]. intros k. rewrite Hm. cbn [payments withPayments].
    destruct (decide (k = k0)) as [->|Hne].
    + rewrite lookup_delete_eq, (decide_True (P := k0 ∈ k0 :: ks)) by apply list_elem_of_here.
      by destruct (decide (k0 ∈ ks)).
    + rewrite lookup_delete_ne by done.
      destruct (decide (k ∈ ks)) as [Hin|Hnin].
      * by rewrite decide_True by (by apply list_elem_of_further).
      * rewrite decide_False; [done|]. rewrite elem_of_cons. tauto.
Qed.

Lemma commit_deleteDuePayments (ks : list string) (db : Store) :
  ∃ m', commitMore ((λ k, Basic (DeleteDuePayment k)) <$> ks) db
        = Some (withDuePayments m' db)
        ∧ ∀ k, m' !! k = if decide (k ∈ ks) then None else duePayments db !! k.
Proof.
  revert db. induction ks as [|k0 ks IH]; intros db.
  - exists (duePayments db). split; [by destruct db|]. intros k.
    by rewrite decide_False by apply not_elem_of_nil.
  - destruct (IH (withDuePayments (delete k0 (duePayments db)) db)) as (m' & Hc & Hm).
    exists m'. split; [exact Hc|]. intros k. rewrite Hm.
    cbn [duePayments withDuePayments].
    destruct (decide (k = k0)) as [->|Hne].
    + rewrite lookup_delete_eq, (decide_True (P := k0 ∈ k0 :: ks)) by apply list_elem_of_here.
      by destruct (decide (k0 ∈ ks)).
    + rewrite lookup_delete_ne by done.
      destruct (decide (k ∈ ks)) as [Hin|Hnin].
      * by rewrite decide_True by (by apply list_elem_of_further).
      * rewrite decide_False; [done|]. rewrite elem_of_cons. tauto.
Qed.

Lemma commit_deleteBills (ks : list string) (db : Store) :
  ∃ m', commitMore ((λ k, DeleteBill k) <$> ks) db = Some (withBills m' db)
        ∧ ∀ k, m' !! k = if decide (k ∈ ks) then None else bills db !! k.
Proof.
  revert db. induction ks as [|k0 ks IH]; intros db.
  - exists (bills db). split; [by destruct db|]. intros k.
    by rewrite decide_False by apply not_elem_of_nil.
  - destruct (IH (withBills (delete k0 (bills db)) db)) as (m' & Hc & Hm).
    exists m'. split; [exact Hc|]. intros k. rewrite Hm. cbn [bills withBills].
    destruct (decide (k = k0)) as [->|Hne].
    + rewrite lookup_delete_eq, (decide_True (P := k0 ∈ k0 :: ks)) by apply list_elem_of_here.
      by destruct (decide (k0 ∈ ks)).
    + rewrite lookup_delete_ne by done.
      destruct (decide (k ∈ ks)) as [Hin|Hnin].
      * by rewrite decide_True by (by apply list_elem_of_further).
      * rewrite decide_False; [done|]. rewrite elem_of_cons. tauto.
Qed.

(** The ids of the documents of a snapshot that satisfy [P]. *)
Lemma elem_of_filtered_ids {A} (P : A → Prop) `{∀ x, Decision (P x)}
    (m : gmap string A) (k : string) :
  k ∈ id <$> filter (λ d : Doc A, P (data d)) (snapshot m)
  ↔ ∃ x, m !! k = Some x ∧ P x.
Proof.
  rewrite list_elem_of_fmap. split.
  - intros (d & -> & Hd). apply list_elem_of_filter in Hd as [HP Hd].
    apply elem_of_snapshot in Hd. eauto.
  - intros (x & Hx & HP). exists (mkDoc k x). split; [done|].
    apply list_elem_of_filter. split; [done|]. by apply elem_of_snapshot.
Qed.

Lemma lookup_without {A} (P : A → Prop) `{∀ x, Decision (P x)}
    (m m' : gmap string A) :
  (∀ k, m' !! k
        = if decide (k ∈ id <$> filter (λ d : Doc A, P (data d)) (snapshot m))
          then None else m !! k) →
  m' = filter (λ kv, ¬ P kv.2) m.
Proof.
  intros Hm. apply map_eq. intros k. rewrite Hm, map_lookup_filter.
  destruct (decide _) as [Hin|Hnin].
  - apply elem_of_filtered_ids in Hin as (x & -> & HP). cbn.
    by rewrite option_guard_False by tauto.
  - destruct (m !! k) as [x|] eqn:Hx; [|done]. cbn.
    rewrite option_guard_True; [done|]. intros HP. apply Hnin.
    apply elem_of_filtered_ids. eauto.
Qed.

(** The store [deleteCustomer] leaves. *)
Lemma deleteCustomer_SignedIn db customerId :
  deleteCustomer (SignedIn db) customerId
  = (ok, SignedIn (mkStore
       (delete customerId (customers db))
       (filter (λ kv, ¬ p_customerId kv.2 = customerId) (payments db))
       (areas db)
       (filter (λ kv, ¬ dp_customerId kv.2 = customerId) (duePayments db))
       (filter (λ kv, ¬ b_customerId kv.2 = customerId) (bills db)))).
Proof.
  unfold deleteCustomer. cbn [paymentsOf duePaymentsOf billsOf].
  assert (∀ l : list Payment,
            (λ p : Payment, Basic (DeletePayment (id p))) <$> l
            = (λ k, Basic (DeletePayment k)) <$> (id <$> l)) as ->
    by (intros; by rewrite <- list_fmap_compose).
  assert (∀ l : list DuePayment,
            (λ p : DuePayment, Basic (DeleteDuePayment (id p))) <$> l
            = (λ k, Basic (DeleteDuePayment k)) <$> (id <$> l)) as ->
    by (intros; by rewrite <- list_fmap_compose).
  assert (∀ l : list Bill,
            (λ b : Bill, DeleteBill (id b)) <$> l
            = (λ k, DeleteBill k) <$> (id <$> l)) as ->
    by (intros; by rewrite <- list_fmap_compose).
  rewrite commitMore_app.
  destruct (commit_deletePayments
              (id <$> filter (λ p : Payment, p_customerId (data p) = customerId)
                             (snapshot (payments db))) db) as (ps & -> & Hps).
  cbn [mbind option_bind]. rewrite commitMore_app.
  destruct (commit_deleteDuePayments
              (id <$> filter (λ p : DuePayment, dp_customerId (data p) = customerId)
                             (snapshot (duePayments db)))
              (withPayments ps db)) as (ds & -> & Hds).
  cbn [mbind option_bind]. rewrite commitMore_app.
  destruct (commit_deleteBills
              (id <$> filter (λ b : Bill, b_customerId (data b) = customerId)
                             (snapshot (bills db)))
              (withDuePayments ds (withPayments ps db))) as (bs & -> & Hbs).
  cbn in Hds, Hbs |- *. do 2 f_equal.
  unfold withCustomers, withBills, withDuePayments, withPayments.
  cbn. f_equal.
  - exact (lookup_without (λ p, p_customerId p = customerId) _ _ Hps).
  - exact (lookup_without (λ p, dp_customerId p = customerId) _ _ Hds).
  - exact (lookup_without (λ b, b_customerId b = customerId) _ _ Hbs).
Qed.

(** X1. [deleteCustomer] succeeds for a signed-in user and removes the
    customer with everything that names it: afterwards no payment, due
    payment or bill has its [customerId]; the documents of the other
    customers and the areas are as they were. *)
Theorem deleteCustomer_cascade (db : Store) (customerId : string) :
  let out := deleteCustomer (SignedIn db) customerId in
  let db' := storeOf out.2 in
  success out.1 = true
  ∧ customers db' !! customerId = None
  ∧ (∀ k p, payments db' !! k = Some p → p_customerId p ≠ customerId)
  ∧ (∀ k p, duePayments db' !! k = Some p → dp_customerId p ≠ customerId)
  ∧ (∀ k b, bills db' !! k = Some b → b_customerId b ≠ customerId)
  ∧ (∀ k, k ≠ customerId → customers db' !! k = customers db !! k)
  ∧ (∀ k p, payments db !! k = Some p → p_customerId p ≠ customerId →
            payments db' !! k = Some p)
  ∧ (∀ k p, duePayments db !! k = Some p → dp_customerId p ≠ customerId →
            duePayments db' !! k = Some p)
  ∧ (∀ k b, bills db !! k = Some b → b_customerId b ≠ customerId →
            bills db' !! k = Some b)
  ∧ areas db' = areas db.
Proof.
  intros out db'. subst db' out. rewrite deleteCustomer_SignedIn. cbn.
  split; [done|]. split; [apply lookup_delete_eq|].
  split; [|split; [|split; [|split; [|split; [|split; [|split]]]]]].
  - intros k p Hp. by apply map_lookup_filter_Some in Hp as [_ Hp].
  - intros k p Hp. by apply map_lookup_filter_Some in Hp as [_ Hp].
  - intros k b Hb. by apply map_lookup_filter_Some in Hb as [_ Hb].
  - intros k Hk. by rewrite lookup_delete_ne.
  - intros k p Hp Hne. by apply map_lookup_filter_Some.
  - intros k p Hp Hne. by apply map_lookup_filter_Some.
  - intros k b Hb Hne. by apply map_lookup_filter_Some.
  - done.
Qed.

(** ** The generator leaves the bills there are *)

Lemma elem_of_generatedBatch customers bills currentDate k b :
  SetBill k b ∈ generatedBatch customers bills currentDate →
  ∃ c y m, c ∈ customers ∧ k = billIdOf (id c) y m ∧ b = newBillOf c y m
           ∧ billExists bills k = false.
Proof.
  rewrite generatedBatch_emit, list_elem_of_bind.
  intros (c & Hin & Hc). unfold emitBills in Hin.
  apply list_elem_of_fmap in Hin as ([y m] & Heq & Hym).
  apply list_elem_of_filter in Hym as [Hex _]. cbn in *.
  injection Heq as -> ->. by exists c, y, m.
Qed.

Lemma commit_setBills_lookup batch db :
  Forall isSetBill batch →
  ∃ bs', commit batch db = Some (withBills bs' db)
         ∧ (∀ k b, bs' !! k = Some b → bills db !! k = Some b ∨ SetBill k b ∈ batch)
         ∧ (∀ k, (∀ b, SetBill k b ∉ batch) → bs' !! k = bills db !! k).
Proof.
  revert db. induction batch as [|w batch IH]; intros db Hall.
  - exists (bills db). split; [by destruct db|]. split; [by left|done].
  - apply Forall_cons in Hall as [Hw Hall].
    destruct w as [k0 b0| | | | | | | |]; try done.
    cbn [commit applyWrite mbind option_bind].
    destruct (IH (withBills (<[k0 := b0]> (bills db)) db) Hall)
      as (bs' & Hcommit & Hfrom & Hkeep).
    exists bs'. split; [by rewrite Hcommit|]. cbn [bills withBills] in *. split.
    + intros k b Hb. destruct (Hfrom k b Hb) as [Hold|Hin].
      * destruct (decide (k = k0)) as [->|Hne].
        -- rewrite lookup_insert_eq in Hold. injection Hold as ->.
           right. apply list_elem_of_here.
        -- rewrite lookup_insert_ne in Hold by done. by left.
      * right. by apply list_elem_of_further.
    + intros k Hk. rewrite Hkeep.
      * apply lookup_insert_ne. intros ->. apply (Hk b0), list_elem_of_here.
      * intros b Hin. apply (Hk b). by apply list_elem_of_further.
Qed.

Lemma generateBills_frame (currentDate : JS.Date) (s : Session) :
  let s' := generateBills currentDate s in
  (∀ k b, bills (storeOf s) !! k = Some b → bills (storeOf s') !! k = Some b)
  ∧ (∀ k b, bills (storeOf s') !! k = Some b →
       bills (storeOf s) !! k = Some b
       ∨ ∃ c, customers (storeOf s) !! b_customerId b = Some c
              ∧ b_amount b = c_monthlyBill c ∧ b_status b = UNPAID
              ∧ b_paidDate b = None ∧ b_paymentId b = None)
  ∧ customers (storeOf s') = customers (storeOf s)
  ∧ payments (storeOf s') = payments (storeOf s)
  ∧ duePayments (storeOf s') = duePayments (storeOf s)
  ∧ areas (storeOf s') = areas (storeOf s).
Proof.
  intros s'. subst s'. destruct s as [|db]; [done|].
  unfold generateBills. cbn [customersOf billsOf storeOf].
  destruct (commit_setBills_lookup
              (generatedBatch (snapshot (customers db)) (snapshot (bills db)) currentDate)
              db (generatedBatch_isSetBill _ _ _))
    as (bs' & -> & Hfrom & Hkeep).
  cbn [storeOf bills customers payments duePayments areas withBills].
  split; [|split; [|done]].
  - intros k b Hb. rewrite Hkeep; [done|].
    intros b' Hin. apply elem_of_generatedBatch in Hin as (c & y & m & _ & _ & _ & Hex).
    unfold billExists in Hex. rewrite existsb_snapshot in Hex.
    apply bool_decide_eq_false in Hex. apply Hex. eauto.
  - intros k b Hb. destruct (Hfrom k b Hb) as [Hold|Hin]; [by left|right].
    apply elem_of_generatedBatch in Hin as (c & y & m & Hc & _ & -> & _).
    apply elem_of_snapshot in Hc. exists (data c). done.
Qed.

(** X2. The bill generator only adds: a bill there was before the run is
    there after it, unchanged (a paid bill stays paid); every bill of the
    store afterwards is one of these or a new Unpaid bill of a customer of
    the customer list, with that customer's monthly amount and no payment
    on it; customers, payments, due payments and areas are not touched. *)
Theorem generateBills_only_adds (currentDate : JS.Date) (s : Session) :
  let s' := generateBills currentDate s in
  (∀ k b, bills (storeOf s) !! k = Some b → bills (storeOf s') !! k = Some b)
  ∧ (∀ k b, bills (storeOf s') !! k = Some b →
       bills (storeOf s) !! k = Some b
       ∨ ∃ c, customers (storeOf s) !! b_customerId b = Some c
              ∧ b_amount b = c_monthlyBill c ∧ b_status b = UNPAID
              ∧ b_paidDate b = None ∧ b_paymentId b = None)
  ∧ customers (storeOf s') = customers (storeOf s)
  ∧ payments (storeOf s') = payments (storeOf s)
  ∧ duePayments (storeOf s') = duePayments (storeOf s)
  ∧ areas (storeOf s') = areas (storeOf s).
Proof. apply generateBills_frame. Qed.

(** ** Every bill has its customer *)

(** A mutation that keeps the bills' customers and the customers there
    are keeps [billsHaveCustomers]. *)
Lemma billsHaveCustomers_frame db db' :
  (∀ k, is_Some (customers db !! k) → is_Some (customers db' !! k)) →
  (∀ k b', bills db' !! k = Some b' →
     ∃ b, bills db !! k = Some b ∧ b_customerId b' = b_customerId b) →
  billsHaveCustomers db → billsHaveCustomers db'.
Proof.
  intros Hc Hb Hinv k b' Hb'. destruct (Hb k b' Hb') as (b & Hbk & ->).
  apply Hc. by eapply Hinv.
Qed.

Lemma is_Some_insert_same {A} (m : gmap string A) i x k :
  is_Some (m !! k) → is_Some (<[i := x]> m !! k).
Proof.
  intros Hk. destruct (decide (k = i)) as [->|Hne].
  - rewrite lookup_insert_eq. eauto.
  - by rewrite lookup_insert_ne.
Qed.

Lemma addPayment_cases s newId paymentData billsToPay :
  (addPayment s newId paymentData billsToPay).2 = s
  ∨ ∃ db c, s = SignedIn db ∧ customers db !! p_customerId paymentData = Some c
            ∧ (addPayment s newId paymentData billsToPay).2
              = SignedIn (paidStore db newId paymentData billsToPay c).
Proof.
  destruct s as [|db]; [by left|].
  destruct (customers db !! p_customerId paymentData) as [c|] eqn:Hc.
  - right. exists db, c. by rewrite (addPayment_SignedIn _ _ _ _ _ Hc).
  - left. unfold addPayment. by rewrite Hc.
Qed.

Lemma addArea_store {U : JS.UnicodeCase} s newId name :
  bills (storeOf (addArea s newId name).2) = bills (storeOf s)
  ∧ customers (storeOf (addArea s newId name).2) = customers (storeOf s).
Proof.
  unfold addArea. destruct s as [|db]; [done|].
  by destruct (_ || _).
Qed.

Lemma dueLedger_store s newId paymentId paymentData updatedPayment :
  ∀ s', s' = (addDuePayment s newId paymentData).2
        ∨ s' = (updateDuePayment s updatedPayment).2
        ∨ s' = (deleteDuePayment s paymentId).2 →
  bills (storeOf s') = bills (storeOf s)
  ∧ ∀ k, is_Some (customers (storeOf s) !! k) → is_Some (customers (storeOf s') !! k).
Proof.
  intros s' Hs'. destruct s as [|db].
  { destruct Hs' as [->|[->| ->]]; done. }
  destruct Hs' as [->|[->| ->]].
  - unfold addDuePayment. rewrite getCustomerById_SignedIn.
    destruct (customers db !! _) as [c|] eqn:Hc; [|done]. cbn. rewrite Hc. cbn.
    split; [done|]. intros k. apply is_Some_insert_same.
  - unfold updateDuePayment. rewrite getCustomerById_SignedIn. cbn [duePaymentsOf].
    rewrite findById_snapshot.
    destruct (duePayments db !! _) as [o|] eqn:Ho; [|done].
    destruct (customers db !! _) as [c|] eqn:Hc; [|done]. cbn. rewrite Ho. cbn.
    rewrite Hc. cbn. split; [done|]. intros k. apply is_Some_insert_same.
  - unfold deleteDuePayment. cbn [duePaymentsOf]. rewrite findById_snapshot.
    destruct (duePayments db !! _) as [o|] eqn:Ho; [|done].
    cbn [fmap option_fmap option_map data]. rewrite getCustomerById_SignedIn.
    destruct (customers db !! _) as [c|] eqn:Hc; [|done]. cbn. rewrite Hc. cbn.
    split; [done|]. intros k. apply is_Some_insert_same.
Qed.

(** X3. Every mutation of the data context keeps the bills attached:
    if every bill of the store names a customer of the store, it is so
    after the mutation, whether it succeeded or failed; hence in every
    store reached from the empty one. *)
Theorem mutations_keep_bills_attached {U : JS.UnicodeCase} (s : Session) (m : Mutation) :
  billsHaveCustomers (storeOf s) →
  billsHaveCustomers (storeOf (runMutation s m))
  ∧ ∀ ms, billsHaveCustomers (storeOf (fold_left runMutation ms (runMutation s m))).
Proof.
  assert (∀ s m, billsHaveCustomers (storeOf s) →
                 billsHaveCustomers (storeOf (runMutation s m))) as Hstep.
  { clear s m. intros s m Hinv. destruct m; cbn [runMutation].
    - (* addCustomer *)
      unfold addCustomer. destruct s as [|db]; [done|]. cbn [applyWriteMore].
      set (db1 := withCustomers _ db).
      assert (billsHaveCustomers db1) as Hinv1.
      { revert Hinv. apply billsHaveCustomers_frame; [|by eauto].
        intros k. apply is_Some_insert_same. }
      destruct (_ && _); [|done]. cbn [snd].
      intros k b. destruct (addArea_store (SignedIn db1) newAreaId (c_area customerData))
        as [-> ->]. apply Hinv1.
    - (* updateCustomer *)
      unfold updateCustomer. destruct s as [|db]; [done|]. cbn [applyWriteMore].
      destruct (customers db !! _) as [old|]; [|done]. cbn.
      revert Hinv. apply billsHaveCustomers_frame; [|by eauto].
      intros k. apply is_Some_insert_same.
    - (* deleteCustomer *)
      destruct s as [|db]; [done|]. rewrite deleteCustomer_SignedIn. cbn.
      intros k b Hb. cbn in *. apply map_lookup_filter_Some in Hb as [Hb Hne].
      cbn in Hne. rewrite lookup_delete_ne by done. by eapply Hinv.
    - (* addArea *)
      intros k b. destruct (addArea_store s newId name) as [-> ->]. apply Hinv.
    - (* deleteArea *)
      by destruct s.
    - (* the generator *)
      assert (billsHaveCustomers (storeOf (generateBills currentDate s))) as Hgen.
      { destruct (generateBills_frame currentDate s) as (_ & Hfrom & Hcust & _).
        intros k b Hb. rewrite Hcust. destruct (Hfrom k b Hb) as [Hold|(c & Hc & _)].
        - by eapply Hinv.
        - eauto. }
      unfold billGenerationEffect. destruct s as [|db]; [done|].
      by destruct (_ || _).
    - (* addPayment *)
      destruct (addPayment_cases s newId paymentData billsToPay)
        as [->|(db & c & -> & Hc & ->)]; [done|].
      revert Hinv. cbn [storeOf]. apply billsHaveCustomers_frame.
      + intros k. unfold paidStore. cbn [customers].
        destruct (JS.gtb _ _); [apply is_Some_insert_same|done].
      + intros k b' Hb'. unfold paidStore in Hb'. cbn [bills] in Hb'.
        rewrite lookup_markAll in Hb'.
        destruct (bills db !! k) as [b|]; [|done]. exists b. split; [done|].
        cbn in Hb'. injection Hb' as <-. by destruct (decide _).
    - (* deletePayment *)
      destruct s as [|db]; [done|]. rewrite deletePayment_SignedIn.
      revert Hinv. cbn [storeOf snd]. apply billsHaveCustomers_frame; [done|].
      intros k b' Hb'. unfold undoneStore, undoBills in Hb'. cbn [bills] in Hb'.
      rewrite lookup_fmap in Hb'.
      destruct (bills db !! k) as [b|]; [|done]. exists b. split; [done|].
      cbn in Hb'. injection Hb' as <-. by destruct (decide _).
    - (* addDuePayment *)
      destruct (dueLedger_store s newId "" paymentData (mkDoc "" paymentData)
                  (addDuePayment s newId paymentData).2) as [Hb Hc]; [by left|].
      intros k b. rewrite Hb. intros Hk. apply Hc. by eapply Hinv.
    - (* updateDuePayment *)
      destruct (dueLedger_store s "" "" (data updatedPayment) updatedPayment
                  (updateDuePayment s updatedPayment).2) as [Hb Hc]; [by right; left|].
      intros k b. rewrite Hb. intros Hk. apply Hc. by eapply Hinv.
    - (* deleteDuePayment *)
      destruct (dueLedger_store s "" paymentId (mkDuePayment "" 0 "" None)
                  (mkDoc "" (mkDuePayment "" 0 "" None))
                  (deleteDuePayment s paymentId).2) as [Hb Hc]; [by right; right|].
      intros k b. rewrite Hb. intros Hk. apply Hc. by eapply Hinv. }
  intros Hinv. split; [by apply Hstep|].
  intros ms. generalize (Hstep s m Hinv). generalize (runMutation s m).
  induction ms as [|m' ms IH]; intros s0 H0; [done|].
  cbn [fold_left]. apply IH, Hstep, H0.
Qed.

Lemma mutations_keep_bills_attached_witness :
  billsHaveCustomers
    (storeOf (@runMutation asciiOnly (SignedIn exStore)
                (DoAddPayment "p1" exPayment [("c1-2024-1", JS.ofZ 300)]))).
Proof.
  apply (@mutations_keep_bills_attached asciiOnly (SignedIn exStore)
           (DoAddPayment "p1" exPayment [("c1-2024-1", JS.ofZ 300)])).
  intros k b Hb. cbn in Hb. apply lookup_singleton_Some in Hb as [<- <-].
  vm_compute. eexists. reflexivity.
Defined.

(** ** [updateCustomer], [addCustomer], [deleteArea] and the customer form *)

(** X4. [updateCustomer] replaces every field of the stored customer by
    the one given, except that an absent [reactivationDate] leaves the
    stored one in place: a reactivation date once stored is never removed by
    an update.  Other customers and the bills are untouched, and the update
    of a customer that is not in the store fails and changes nothing. *)
Theorem updateCustomer_keeps_reactivationDate (db : Store) (updatedCustomer : Customer) :
  let out := updateCustomer (SignedIn db) updatedCustomer in
  let new := data updatedCustomer in
  (∀ old, customers db !! id updatedCustomer = Some old →
     success out.1 = true
     ∧ (∃ c, customers (storeOf out.2) !! id updatedCustomer = Some c
             ∧ c_name c = c_name new ∧ c_phone c = c_phone new
             ∧ c_address c = c_address new ∧ c_area c = c_area new
             ∧ c_monthlyBill c = c_monthlyBill new
             ∧ c_connectionStatus c = c_connectionStatus new
             ∧ c_startDate c = c_startDate new
             ∧ c_openingDue c = c_openingDue new
             ∧ (∀ r, c_reactivationDate new = Some r → c_reactivationDate c = Some r)
             ∧ (c_reactivationDate new = None →
                c_reactivationDate c = c_reactivationDate old))
     ∧ (∀ k, k ≠ id updatedCustomer →
             customers (storeOf out.2) !! k = customers db !! k)
     ∧ bills (storeOf out.2) = bills db)
  ∧ (customers db !! id updatedCustomer = None →
     success out.1 = false ∧ out.2 = SignedIn db).
Proof.
  intros out new. subst out new. unfold updateCustomer. cbn [applyWriteMore]. split.
  - intros old Hold. rewrite Hold. cbn. split; [done|]. split; [|split; [|done]].
    + eexists. split; [apply lookup_insert_eq|]. cbn.
      repeat (split; [done|]). split; [by intros r ->|by intros ->].
    + intros k Hk. by rewrite lookup_insert_ne.
  - intros Hnone. by rewrite Hnone.
Qed.

Lemma updateCustomer_keeps_reactivationDate_witness :
  c_reactivationDate
    <$> customers
          (storeOf (updateCustomer
             (SignedIn (mkStore {["c1" := mkCustomer "Rahim" "01700" "Road 1" "North" 500
                                           PAUSED (JS.mkDate 2024 0 15 0) 200
                                           (Some "2024-06-01")]} ∅ ∅ ∅ ∅))
             (mkDoc "c1" exCustomer)).2) !! "c1"
  = Some (Some "2024-06-01").
Proof.
  destruct (updateCustomer_keeps_reactivationDate
              (mkStore {["c1" := mkCustomer "Rahim" "01700" "Road 1" "North" 500
                                   PAUSED (JS.mkDate 2024 0 15 0) 200
                                   (Some "2024-06-01")]} ∅ ∅ ∅ ∅)
              (mkDoc "c1" exCustomer)) as [H _].
  destruct (H _ eq_refl) as (_ & (c & Hc & _ & _ & _ & _ & _ & _ & _ & _ & _ & Hr) & _).
  refine (eq_trans (f_equal (fmap c_reactivationDate) Hc) _).
  exact (f_equal Some (Hr eq_refl)).
Defined.

Lemma existsb_exact_name {U : JS.UnicodeCase} ars name :
  existsb (λ a : Area, bool_decide (a_name (data a) = name)) (snapshot ars) = true →
  nameTaken ars name.
Proof.
  rewrite existsb_exists. intros (x & Hx & Hn).
  apply list_elem_of_In, elem_of_snapshot in Hx. apply bool_decide_eq_true in Hn.
  exists (id x), (data x). by rewrite Hn.
Qed.

Lemma caseUnique_insert {U : JS.UnicodeCase} ars k name :
  caseUnique ars → ¬ nameTaken ars name → caseUnique (<[k := mkArea name]> ars).
Proof.
  intros Huniq Hfree k1 k2 a1 a2 H1 H2 Heq.
  destruct (decide (k1 = k)) as [->|Hk1], (decide (k2 = k)) as [->|Hk2]; [done| | |].
  - rewrite lookup_insert_eq in H1. rewrite lookup_insert_ne in H2 by done.
    injection H1 as <-. destruct Hfree. by exists k2, a2.
  - rewrite lookup_insert_eq in H2. rewrite lookup_insert_ne in H1 by done.
    injection H2 as <-. destruct Hfree. by exists k1, a1.
  - rewrite lookup_insert_ne in H1, H2 by done. eauto.
Qed.

Lemma addCustomer_SignedIn {U : JS.UnicodeCase} (db : Store) (newId newAreaId : string)
    (customerData : CustomerData) (openingDue : JS.Number) :
  let out := addCustomer (SignedIn db) newId newAreaId customerData openingDue in
  success out.1 = true
  ∧ customers (storeOf out.2)
    = <[newId := setOpeningDue openingDue customerData]> (customers db)
  ∧ (c_area customerData = "" ∨ nameTaken (areas db) (c_area customerData) →
     areas (storeOf out.2) = areas db)
  ∧ (c_area customerData ≠ "" → ¬ nameTaken (areas db) (c_area customerData) →
     areas (storeOf out.2) = <[newAreaId := mkArea (c_area customerData)]> (areas db))
  ∧ (caseUnique (areas db) → caseUnique (areas (storeOf out.2)))
  ∧ bills (storeOf out.2) = bills db.
Proof.
  intros out. subst out. unfold addCustomer. cbn [applyWriteMore areasOf].
  set (db1 := withCustomers _ db).
  set (area := c_area customerData).
  assert (areas db1 = areas db) as Hareas by done.
  destruct (decide (area = "")) as [Hempty|Hne].
  { rewrite (bool_decide_eq_true_2 _ Hempty). cbn.
    split; [done|]. split; [done|]. split; [done|]. split; [by intros ?|done]. }
  rewrite (bool_decide_eq_false_2 _ Hne). cbn [negb andb].
  destruct (existsb _ _) eqn:Hex; cbn [negb].
  { apply existsb_exact_name in Hex. cbn.
    split; [done|]. split; [done|]. split; [done|]. split; [by intros _ ?|done]. }
  destruct (decide (nameTaken (areas db) area)) as [Ht|Hfree].
  - destruct (addArea_rejects (SignedIn db1) newAreaId area (or_intror Ht))
      as [-> | ->]; cbn;
      (split; [done|]; split; [done|]; split; [done|]; split; [by intros _ ?|done]).
  - rewrite addArea_accepts by done. cbn. split; [done|]. split; [done|].
    split; [intros [?|?]; done|]. split; [done|]. split; [|done].
    intros Huniq. by apply caseUnique_insert.
Qed.

(** X5. [addCustomer] by a signed-in user always stores the customer, with
    the opening due given, and returns success.  It adds an area exactly
    when the customer names one (a non-empty name) that no area has up to
    letter case, that is with the same [toLowerCase]; when an area has the
    name in another letter case the customer keeps its own spelling and no
    area is added.  Areas stay unique up to letter case.  This holds
    whatever [toLowerCase] gives on the strings that are not ASCII. *)
Theorem addCustomer_area {U : JS.UnicodeCase} (db : Store) (newId newAreaId : string)
    (customerData : CustomerData) (openingDue : JS.Number) :
  let out := addCustomer (SignedIn db) newId newAreaId customerData openingDue in
  success out.1 = true
  ∧ customers (storeOf out.2)
    = <[newId := setOpeningDue openingDue customerData]> (customers db)
  ∧ (c_area customerData = "" ∨ nameTaken (areas db) (c_area customerData) →
     areas (storeOf out.2) = areas db)
  ∧ (c_area customerData ≠ "" → ¬ nameTaken (areas db) (c_area customerData) →
     areas (storeOf out.2) = <[newAreaId := mkArea (c_area customerData)]> (areas db))
  ∧ (caseUnique (areas db) → caseUnique (areas (storeOf out.2)))
  ∧ bills (storeOf out.2) = bills db.
Proof. apply addCustomer_SignedIn. Qed.

Lemma nameTaken_delete {U : JS.UnicodeCase} ars k a :
  caseUnique ars → ars !! k = Some a → ¬ nameTaken (delete k ars) (a_name a).
Proof.
  intros Huniq Ha (k' & a' & Ha' & Heq).
  destruct (decide (k' = k)) as [->|Hne].
  - by rewrite lookup_delete_eq in Ha'.
  - rewrite lookup_delete_ne in Ha' by done. apply Hne.
    by apply (Huniq k' k a' a).
Qed.

(** X6. Areas can be taken back: the area [addArea] has just created is
    removed by [deleteArea] of its id and the store is as before; and when
    the areas are unique up to letter case, the name of an area that is
    deleted is free again, so [addArea] of that name succeeds.
    [deleteArea] touches no customer, not even the customers of the
    area. *)
Theorem area_add_delete {U : JS.UnicodeCase} (db : Store) (newId k name : string)
    (a : AreaData) :
  (name ≠ "" → ¬ nameTaken (areas db) name → areas db !! newId = None →
   success (addArea (SignedIn db) newId name).1 = true
   ∧ deleteArea (addArea (SignedIn db) newId name).2 newId = (ok, SignedIn db))
  ∧ (areas db !! k = Some a → a_name a ≠ "" → caseUnique (areas db) →
     addArea (deleteArea (SignedIn db) k).2 newId (a_name a)
     = (ok, SignedIn (withAreas (<[newId := a]> (delete k (areas db))) db)))
  ∧ customers (storeOf (deleteArea (SignedIn db) k).2) = customers db.
Proof.
  split; [|split; [|done]].
  - intros Hne Hfree Hfresh. rewrite addArea_accepts by done. split; [done|].
    unfold deleteArea. cbn. do 2 f_equal. unfold withAreas. cbn.
    rewrite delete_insert_eq, delete_id by done. by destruct db.
  - intros Ha Hne Huniq. unfold deleteArea. cbn [applyWriteMore snd].
    rewrite addArea_accepts; [by destruct a| done |].
    cbn. by apply nameTaken_delete.
Qed.

Lemma area_add_delete_witness :
  deleteArea (@addArea asciiOnly (SignedIn exAreas) "a2" "South").2 "a2"
  = (ok, SignedIn exAreas)
  ∧ success (@addArea asciiOnly (deleteArea (SignedIn exAreas) "a1").2 "a3" "North").1
    = true.
Proof.
  destruct (@area_add_delete asciiOnly exAreas "a2" "a1" "South" (mkArea "North"))
    as (H1 & _ & _).
  destruct (@area_add_delete asciiOnly exAreas "a3" "a1" "South" (mkArea "North"))
    as (_ & H2 & _).
  split.
  - apply H1; [discriminate| |vm_compute; reflexivity].
    intros (k & a & Ha & Hn). cbn in Ha.
    apply lookup_singleton_Some in Ha as [<- <-]. vm_compute in Hn. discriminate.
  - refine (eq_trans (f_equal (λ o : MutationResult * Session, success o.1) (H2 _ _ _)) _);
      [vm_compute; reflexivity|discriminate| |reflexivity].
    intros k1 k2 a1 a2 Ha1 Ha2 _. cbn in Ha1, Ha2.
    apply lookup_singleton_Some in Ha1 as [<- _].
    by apply lookup_singleton_Some in Ha2 as [<- _].
Defined.

Lemma monthlyBill_check (text : AmountText) :
  JS.isNaN (parseFloat text) || JS.ltb (parseFloat text) JS.zero = false
  ↔ ∃ n, text = NumberText n ∧ n ≠ JS.NaN ∧ JS.ltb n JS.zero = false.
Proof.
  split.
  - destruct text as [|n|]; cbn [parseFloat]; [done| |done].
    intros [Hnan Hlt]%orb_false_iff. exists n. split; [done|]. split; [|done].
    intros ->. done.
  - intros (n & -> & Hnan & Hlt). cbn [parseFloat]. rewrite Hlt, orb_false_r.
    by destruct n.
Qed.

(** X7. The customer form sends nothing when the monthly bill typed is not
    a number or is below 0.  A new customer it saves (signed in) is stored
    with the monthly bill typed, which is a number not below 0, with its
    address equal to its area, and with the opening due typed, or 0 when
    that is empty, not a number or 0.  A customer edited through the form
    keeps the reactivation date it has in the store when the form gives
    none, for instance when a paused customer is set Active. *)
Theorem customerForm_saves_valid_customers {U : JS.UnicodeCase} (db : Store)
    (newId newAreaId : string) (f : CustomerFormState) (customer : Customer) :
  (f_monthlyBill f = EmptyText ∨ f_monthlyBill f = NotANumber
   ∨ (∃ n, f_monthlyBill f = NumberText n
           ∧ (n = JS.NaN ∨ JS.ltb n JS.zero = true)) →
   customerFormSubmit (SignedIn db) newId newAreaId None f = None
   ∧ customerFormSubmit (SignedIn db) newId newAreaId (Some customer) f = None)
  ∧ (∀ out, customerFormSubmit (SignedIn db) newId newAreaId None f = Some out →
       success out.1 = true
       ∧ ∃ c, customers (storeOf out.2) !! newId = Some c
              ∧ f_monthlyBill f = NumberText (c_monthlyBill c)
              ∧ c_monthlyBill c ≠ JS.NaN
              ∧ JS.ltb (c_monthlyBill c) JS.zero = false
              ∧ c_name c = f_name f ∧ c_phone c = f_phone f
              ∧ c_area c = f_area f ∧ c_address c = f_area f
              ∧ c_connectionStatus c = f_status f
              ∧ c_openingDue c
                = match f_openingDue f with
                  | NumberText (S754_finite s m e) => S754_finite s m e
                  | NumberText (S754_infinity s) => S754_infinity s
                  | _ => JS.zero
                  end)
  ∧ (∀ out old r,
       customerFormSubmit (SignedIn db) newId newAreaId (Some customer) f = Some out →
       customers db !! id customer = Some old →
       c_reactivationDate old = Some r →
       f_status f ≠ PAUSED ∨ f_reactivationDate f = "" →
       ∃ c, customers (storeOf out.2) !! id customer = Some c
            ∧ c_reactivationDate c = Some r
            ∧ c_connectionStatus c = f_status f
            ∧ f_monthlyBill f = NumberText (c_monthlyBill c)
            ∧ JS.ltb (c_monthlyBill c) JS.zero = false).
Proof.
  unfold customerFormSubmit. split; [|split].
  - intros Hbad. destruct Hbad as [->|[->|(n & -> & Hn)]]; [done|done|].
    cbn [parseFloat]. destruct Hn as [->|Hn]; [done|].
    rewrite Hn, orb_true_r. done.
  - intros out Hout.
    destruct (JS.isNaN _ || JS.ltb _ _) eqn:Hcheck; [done|].
    apply monthlyBill_check in Hcheck as (n & Hn & Hnan & Hlt).
    rewrite Hn in *. cbn [parseFloat] in Hout.
    assert (out = addCustomer (SignedIn db) newId newAreaId (formCustomerData f n)
                              (parseOrZero (f_openingDue f))) as -> by congruence.
    clear Hout.
    destruct (addCustomer_SignedIn db newId newAreaId (formCustomerData f n)
                (parseOrZero (f_openingDue f))) as (Hok & Hc & _).
    split; [exact Hok|]. rewrite Hc, lookup_insert_eq. eexists. split; [done|].
    cbn. repeat (split; [done|]).
    unfold parseOrZero. destruct (f_openingDue f) as [|x|]; [done| |done].
    by destruct x.
  - intros out old r Hout Hold Hr Hform.
    destruct (JS.isNaN _ || JS.ltb _ _) eqn:Hcheck; [done|].
    apply monthlyBill_check in Hcheck as (n & Hn & Hnan & Hlt).
    rewrite Hn in *. cbn [parseFloat] in Hout.
    assert (out = updateCustomer (SignedIn db) (mkDoc (id customer) (formCustomerData f n)))
      as -> by congruence.
    clear Hout. unfold updateCustomer. cbn [applyWriteMore id data]. rewrite Hold. cbn.
    rewrite lookup_insert_eq. eexists. split; [done|]. cbn.
    split; [|by repeat split].
    assert (bool_decide (f_status f = PAUSED)
            && negb (bool_decide (f_reactivationDate f = "")) = false) as ->; [|done].
    destruct Hform as [Hs|He].
    + by rewrite (bool_decide_eq_false_2 _ Hs).
    + rewrite (bool_decide_eq_true_2 _ He). apply andb_false_r.
Qed.
(** ** The bill lists *)

Lemma insertBy_Permutation {A} (cmp : A → A → Z) x l : insertBy cmp x l ≡ₚ x :: l.
Proof.
  induction l as [|y l IH]; [done|]. cbn [insertBy].
  destruct (0 <? cmp x y); [|done]. rewrite IH. apply perm_swap.
Qed.

Lemma sortBy_Permutation {A} (cmp : A → A → Z) l : sortBy cmp l ≡ₚ l.
Proof.
  induction l as [|x l IH]; [done|]. cbn [sortBy foldr].
  fold (sortBy cmp l). by rewrite insertBy_Permutation, IH.
Qed.

Lemma StronglySorted_filter_list {A} (R : A → A → Prop) (P : A → Prop)
    `{∀ x, Decision (P x)} (l : list A) :
  StronglySorted R l → StronglySorted R (filter P l).
Proof.
  induction 1 as [|x l Hs IH Hall]; [constructor|].
  rewrite filter_cons. destruct (decide (P x)); [|done].
  constructor; [done|]. apply Forall_forall. intros z Hz.
  apply list_elem_of_filter in Hz as [_ Hz].
  rewrite Forall_forall in Hall. by apply Hall.
Qed.

Lemma compareNewestFirst_pos a b :
  0 < compareNewestFirst a b ↔ ¬ newestFirst a b.
Proof.
  unfold compareNewestFirst, orElse, newestFirst.
  destruct (Z.eqb_spec (b_year (data b) - b_year (data a)) 0); lia.
Qed.

Lemma compareOldestFirst_pos a b :
  0 < compareOldestFirst a b ↔ b_year (data b) < b_year (data a).
Proof.
  unfold compareOldestFirst, orElse.
  destruct (Z.eqb_spec (b_year (data a) - b_year (data b)) 0); lia.
Qed.

Lemma insertBy_newestFirst x l :
  StronglySorted newestFirst l →
  StronglySorted newestFirst (insertBy compareNewestFirst x l).
Proof.
  induction 1 as [|y l Hs IH Hall]; [repeat constructor|].
  cbn [insertBy]. destruct (Z.ltb_spec 0 (compareNewestFirst x y)) as [Hpos|Hle].
  - constructor; [done|]. apply Forall_forall. intros z Hz.
    rewrite insertBy_Permutation in Hz.
    apply elem_of_cons in Hz as [->|Hz].
    + apply compareNewestFirst_pos in Hpos. unfold newestFirst in *. lia.
    + rewrite Forall_forall in Hall. by apply Hall.
  - assert (newestFirst x y) as Hxy.
    { destruct (decide (newestFirst x y)) as [|Hn]; [done|].
      apply compareNewestFirst_pos in Hn. lia. }
    constructor; [by constructor|]. constructor; [done|].
    eapply Forall_impl; [exact Hall|]. intros z Hyz. unfold newestFirst in *. lia.
Qed.

Lemma insertBy_oldestFirst x l :
  StronglySorted yearsUpMonthsDown l →
  Forall (λ z, b_year (data z) = b_year (data x) → b_month (data z) ≤ b_month (data x)) l →
  StronglySorted yearsUpMonthsDown (insertBy compareOldestFirst x l).
Proof.
  induction 1 as [|y l Hs IH Hall]; intros Hx; [repeat constructor|].
  apply Forall_cons in Hx as [Hxy Hx].
  cbn [insertBy]. destruct (Z.ltb_spec 0 (compareOldestFirst x y)) as [Hpos|Hle].
  - apply compareOldestFirst_pos in Hpos.
    constructor; [by apply IH|]. apply Forall_forall. intros z Hz.
    rewrite insertBy_Permutation in Hz.
    apply elem_of_cons in Hz as [->|Hz].
    + left. done.
    + rewrite Forall_forall in Hall. by apply Hall.
  - assert (b_year (data x) ≤ b_year (data y)) as Hyear.
    { destruct (Z.lt_ge_cases (b_year (data y)) (b_year (data x))) as [Hlt|]; [|done].
      apply compareOldestFirst_pos in Hlt. lia. }
    constructor; [by constructor|]. constructor.
    + unfold yearsUpMonthsDown. lia.
    + rewrite Forall_forall in Hall, Hx |- *. intros z Hz.
      specialize (Hall z Hz). specialize (Hx z Hz).
      unfold yearsUpMonthsDown in *. lia.
Qed.

Lemma getBillsByCustomerId_sorted s customerId :
  StronglySorted newestFirst (getBillsByCustomerId s customerId).
Proof.
  unfold getBillsByCustomerId.
  induction (filter _ (billsOf s)) as [|x l IH]; [constructor|].
  cbn [sortBy foldr]. by apply insertBy_newestFirst.
Qed.

Lemma elem_of_getBillsByCustomerId s customerId (b : Bill) :
  b ∈ getBillsByCustomerId s customerId
  ↔ bills (storeOf s) !! id b = Some (data b) ∧ b_customerId (data b) = customerId.
Proof.
  unfold getBillsByCustomerId. rewrite sortBy_Permutation, list_elem_of_filter.
  destruct s as [|db]; cbn [billsOf storeOf].
  - split; [by intros [_ ?%elem_of_nil]|by intros [? _]].
  - rewrite elem_of_snapshot. tauto.
Qed.

(** X8. [getBillsByCustomerId] lists exactly the bills of the customer,
    each once, newest first: by year, and by month within a year. *)
Theorem getBillsByCustomerId_newest_first (s : Session) (customerId : string) :
  StronglySorted newestFirst (getBillsByCustomerId s customerId)
  ∧ (∀ b : Bill, b ∈ getBillsByCustomerId s customerId
       ↔ bills (storeOf s) !! id b = Some (data b)
         ∧ b_customerId (data b) = customerId)
  ∧ NoDup (id <$> getBillsByCustomerId s customerId).
Proof.
  split; [apply getBillsByCustomerId_sorted|].
  split; [apply elem_of_getBillsByCustomerId|].
  unfold getBillsByCustomerId. rewrite sortBy_Permutation.
  assert (NoDup (id <$> billsOf s)) as Hnd.
  { destruct s; [constructor|apply NoDup_snapshot_ids]. }
  revert Hnd. generalize (billsOf s). intros l.
  induction l as [|x l IH]; [done|]. rewrite fmap_cons, NoDup_cons.
  intros [Hx Hl]. rewrite filter_cons. destruct (decide _); [|by apply IH].
  rewrite fmap_cons, NoDup_cons. split; [|by apply IH].
  intros Hin. apply Hx. apply list_elem_of_fmap in Hin as (y & -> & Hy).
  apply list_elem_of_filter in Hy as [_ Hy]. by apply list_elem_of_fmap_2.
Qed.

(** X9. The unpaid bills [CollectBillModal] lists are exactly the unpaid
    bills of the customer, in ascending years; within one year they stay
    newest month first, the order [getBillsByCustomerId] gave them, since
    the comparator looks at the year only. *)
Theorem unpaidBills_order (s : Session) (customerId : string) :
  StronglySorted yearsUpMonthsDown (unpaidBills s customerId)
  ∧ (∀ b : Bill, b ∈ unpaidBills s customerId
       ↔ bills (storeOf s) !! id b = Some (data b)
         ∧ b_customerId (data b) = customerId ∧ b_status (data b) = UNPAID).
Proof.
  split.
  - unfold unpaidBills.
    pose proof (StronglySorted_filter_list newestFirst
                  (λ b : Bill, b_status (data b) = UNPAID) _
                  (getBillsByCustomerId_sorted s customerId)) as Hsorted.
    induction Hsorted as [|x l Hs IH Hall]; [constructor|].
    cbn [sortBy foldr]. fold (sortBy compareOldestFirst l).
    apply insertBy_oldestFirst; [done|].
    apply Forall_forall. intros z Hz.
    rewrite sortBy_Permutation in Hz.
    rewrite Forall_forall in Hall. specialize (Hall z Hz).
    unfold newestFirst in Hall. lia.
  - intros b. unfold unpaidBills.
    rewrite sortBy_Permutation, list_elem_of_filter, elem_of_getBillsByCustomerId.
    tauto.
Qed.

(** An evaluation: the unpaid bills of January, February and March 2024
    are listed March first. *)
Lemma unpaidBills_scenario :
  (λ b : Bill, b_month (data b))
    <$> unpaidBills (generateBills exToday (SignedIn (mkStore {["c1" := exCustomer]} ∅ ∅ ∅ ∅)))
                    "c1"
  = [3; 2; 1].
Proof. vm_compute. reflexivity. Qed.

(** ** Totals

    The totals of the screens are sums of doubles, whose value depends on
    the order of the terms when they round.  On whole amounts that add up
    below 2^53 no addition rounds, and the totals are the sums in whole
    numbers, whatever the order. *)

Lemma fold_add_whole (l : list JS.Number) (T : Z) :
  Forall whole l →
  Z.abs T + Zsum ((λ x, Z.abs (JS.toZ x)) <$> l) < 2 ^ 53 →
  fold_left JS.add l (JS.ofZ T) = JS.ofZ (T + Zsum (JS.toZ <$> l)).
Proof.
  revert T. induction l as [|x l IH]; intros T Hwhole Hsize.
  - cbn. by rewrite Z.add_0_r.
  - apply Forall_cons in Hwhole as [Hx Hl].
    rewrite !fmap_cons, !Zsum_cons in *. cbn [fold_left].
    assert (0 ≤ Zsum ((λ x, Z.abs (JS.toZ x)) <$> l)) as Hnn.
    { clear. induction l as [|y l IH]; [done|]. rewrite fmap_cons, Zsum_cons. lia. }
    rewrite (proj1 Hx) at 1. rewrite add_ofZ by (destruct Hx; lia).
    rewrite IH by (done || lia). f_equal. lia.
Qed.

Lemma Zsum_abs_le {A} (f : A → Z) (l : list A) :
  Z.abs (Zsum (f <$> l)) ≤ Zsum ((λ x, Z.abs (f x)) <$> l).
Proof.
  induction l as [|x l IH]; [done|]. rewrite !fmap_cons, !Zsum_cons. lia.
Qed.

Lemma Zsum_filter_unpaid (g : Z → Z) (bills : list Bill) :
  g 0 = 0 →
  Zsum ((λ b : Bill, g (JS.toZ (b_amount (data b))))
        <$> filter (λ b : Bill, b_status (data b) = UNPAID) bills)
  = Zsum ((λ b : Bill, g (unpaidAmount (data b))) <$> bills).
Proof.
  intros Hg. induction bills as [|b bills IH]; [done|].
  rewrite filter_cons, fmap_cons, Zsum_cons, <- IH. unfold unpaidAmount at 1.
  destruct (decide (b_status (data b) = UNPAID)).
  - by rewrite fmap_cons, Zsum_cons.
  - rewrite Hg. lia.
Qed.

Lemma unpaidTotal_whole (bills : list Bill) :
  (∀ b : Bill, b ∈ bills → whole (b_amount (data b))) →
  Zsum ((λ b : Bill, Z.abs (unpaidAmount (data b))) <$> bills) < 2 ^ 53 →
  unpaidTotal bills = JS.ofZ (Zsum ((λ b : Bill, unpaidAmount (data b)) <$> bills)).
Proof.
  intros Hwhole Hsize. unfold unpaidTotal.
  rewrite <- (Zsum_filter_unpaid (λ n, n)) by done.
  rewrite <- (Zsum_filter_unpaid Z.abs) in Hsize by done.
  set (l := filter _ bills) in *.
  assert (fold_left (λ sum (bill : Bill), JS.add sum (b_amount (data bill))) l JS.zero
          = fold_left JS.add ((λ b : Bill, b_amount (data b)) <$> l) (JS.ofZ 0)) as ->.
  { change JS.zero with (JS.ofZ 0). generalize (JS.ofZ 0). clear.
    induction l as [|b l IH]; intros t; [done|]. cbn. apply IH. }
  rewrite fold_add_whole.
  - rewrite Z.add_0_l. by rewrite <- list_fmap_compose.
  - apply Forall_fmap, Forall_forall. intros b Hb. cbn.
    apply Hwhole. unfold l in Hb. by apply list_elem_of_filter in Hb as [_ ?].
  - rewrite <- list_fmap_compose. cbn. exact Hsize.
Qed.

Lemma openingDueTotal_whole (customers : list Customer) :
  (∀ c : Customer, c ∈ customers → whole (c_openingDue (data c))) →
  Zsum ((λ c : Customer, Z.abs (JS.toZ (c_openingDue (data c)))) <$> customers) < 2 ^ 53 →
  openingDueTotal customers
  = JS.ofZ (Zsum ((λ c : Customer, JS.toZ (c_openingDue (data c))) <$> customers)).
Proof.
  intros Hwhole Hsize. unfold openingDueTotal.
  assert (fold_left (λ sum (c : Customer), JS.add sum (c_openingDue (data c)))
                    customers JS.zero
          = fold_left JS.add ((λ c : Customer, c_openingDue (data c)) <$> customers)
                      (JS.ofZ 0)) as ->.
  { change JS.zero with (JS.ofZ 0). generalize (JS.ofZ 0). clear.
    induction customers as [|c l IH]; intros t; [done|]. cbn. apply IH. }
  rewrite fold_add_whole.
  - rewrite Z.add_0_l. by rewrite <- list_fmap_compose.
  - apply Forall_fmap, Forall_forall. intros c Hc. cbn. by apply Hwhole.
  - rewrite <- list_fmap_compose. cbn. exact Hsize.
Qed.

Lemma Zsum_snapshot {A} (f : A → Z) (m : gmap string A) :
  Zsum ((λ d : Doc A, f (data d)) <$> snapshot m) = mapSum (λ kv, f kv.2) m.
Proof. unfold snapshot, mapSum. by rewrite <- list_fmap_compose. Qed.


Lemma mapSum_abs_le {A} (f : string * A → Z) (m : gmap string A) :
  Z.abs (mapSum f m) ≤ mapSum (λ kv, Z.abs (f kv)) m.
Proof. unfold mapSum. apply Zsum_abs_le. Qed.

Lemma mapSum_abs_nonneg {A} (f : string * A → Z) (m : gmap string A) :
  0 ≤ mapSum (λ kv, Z.abs (f kv)) m.
Proof.
  unfold mapSum. induction (map_to_list m) as [|x l IH]; [done|].
  rewrite fmap_cons, Zsum_cons. lia.
Qed.

(** The total due of a store of whole amounts. *)
Lemma homeTotalDue_whole db :
  wholeStore db → storeSize db < 2 ^ 53 →
  homeTotalDue (SignedIn db) = JS.ofZ (totalDueZ db)
  ∧ Z.abs (totalDueZ db) ≤ storeSize db.
Proof.
  intros [Hbills Hcustomers] Hsize. unfold storeSize, totalDueZ in *.
  pose proof (mapSum_abs_le (λ kv, unpaidAmount kv.2) (bills db)).
  pose proof (mapSum_abs_le (λ kv, JS.toZ (c_openingDue kv.2)) (customers db)).
  pose proof (mapSum_abs_nonneg (λ kv, unpaidAmount kv.2) (bills db)).
  pose proof (mapSum_abs_nonneg (λ kv, JS.toZ (c_openingDue kv.2)) (customers db)).
  cbn beta in *. split; [|lia].
  unfold homeTotalDue. cbn [billsOf customersOf].
  rewrite unpaidTotal_whole, openingDueTotal_whole.
  - rewrite (Zsum_snapshot unpaidAmount), (Zsum_snapshot (λ c, JS.toZ (c_openingDue c))).
    apply add_ofZ; lia.
  - intros c Hc. apply elem_of_snapshot in Hc. by eapply Hcustomers.
  - rewrite (Zsum_snapshot (λ c, Z.abs (JS.toZ (c_openingDue c)))). lia.
  - intros b Hb. apply elem_of_snapshot in Hb. by eapply Hbills.
  - rewrite (Zsum_snapshot (λ b, Z.abs (unpaidAmount b))). lia.
Qed.

Lemma mapSum_empty {A} (f : string * A → Z) : mapSum f ∅ = 0.
Proof. unfold mapSum. by rewrite map_to_list_empty. Qed.

Lemma mapSum_insert {A} (f : string * A → Z) (m : gmap string A) i x :
  m !! i = None → mapSum f (<[i := x]> m) = f (i, x) + mapSum f m.
Proof.
  intros Hi. unfold mapSum.
  rewrite (Zsum_Permutation _ _ (fmap_Permutation f _ _ (map_to_list_insert m i x Hi))).
  by rewrite fmap_cons, Zsum_cons.
Qed.

(** The sum over a collection whose documents were transformed in place. *)
Lemma mapSum_transform {A} (f : string * A → Z) (h : string → A → A)
    (m m' : gmap string A) :
  (∀ k, m' !! k = h k <$> m !! k) →
  mapSum f m' = mapSum (λ kv, f (kv.1, h kv.1 kv.2)) m.
Proof.
  revert m'. induction m as [|i x m Hi IH] using map_ind; intros m' Hm'.
  - assert (m' = ∅) as ->; [|by rewrite !mapSum_empty].
    apply map_eq. intros k. by rewrite Hm', !lookup_empty.
  - assert (m' = <[i := h i x]> (delete i m')) as ->.
    { rewrite insert_delete_eq. symmetry. apply insert_id.
      by rewrite Hm', lookup_insert_eq. }
    rewrite !mapSum_insert by (done || apply lookup_delete_eq).
    rewrite (IH (delete i m')); [done|].
    intros k. destruct (decide (k = i)) as [->|Hne].
    + by rewrite lookup_delete_eq, Hi.
    + by rewrite lookup_delete_ne, Hm', lookup_insert_ne.
Qed.

Lemma mapSum_ext {A} (f g : string * A → Z) (m : gmap string A) :
  (∀ k x, m !! k = Some x → f (k, x) = g (k, x)) → mapSum f m = mapSum g m.
Proof.
  intros Hfg. unfold mapSum. apply Zsum_fmap_ext.
  intros [k x] Hin. apply elem_of_map_to_list in Hin. by apply Hfg.
Qed.

Lemma mapSum_plus {A} (f g : string * A → Z) (m : gmap string A) :
  mapSum (λ kv, f kv + g kv) m = mapSum f m + mapSum g m.
Proof.
  unfold mapSum. induction (map_to_list m) as [|kv l IH]; [done|].
  rewrite !fmap_cons, !Zsum_cons, IH. lia.
Qed.

(** A sum over the bills that the allocations name is a sum over the
    allocations whose bill exists. *)
Lemma mapSum_swap {A B} (φ : A → B → Z) (m : gmap string A) (n : gmap string B) :
  mapSum (λ kv, match n !! kv.1 with Some y => φ kv.2 y | None => 0 end) m
  = mapSum (λ kv, match m !! kv.1 with Some x => φ x kv.2 | None => 0 end) n.
Proof.
  induction n as [|i y n Hi IH] using map_ind.
  - rewrite mapSum_empty. unfold mapSum.
    induction (map_to_list m) as [|kv l IHl]; [done|].
    by rewrite fmap_cons, Zsum_cons, IHl, lookup_empty.
  - rewrite mapSum_insert by done. cbn [fst snd]. rewrite <- IH.
    rewrite (mapSum_ext _
      (λ kv, (if decide (kv.1 = i) then φ kv.2 y else 0)
             + match n !! kv.1 with Some y => φ kv.2 y | None => 0 end)).
    2:{ intros k x _. cbn. destruct (decide (k = i)) as [->|Hne].
        - by rewrite lookup_insert_eq, Hi, Z.add_0_r.
        - by rewrite lookup_insert_ne. }
    rewrite mapSum_plus. f_equal.
    clear. induction m as [|k x m Hk IHm] using map_ind.
    + by rewrite mapSum_empty, lookup_empty.
    + rewrite mapSum_insert by done. cbn [fst snd]. rewrite IHm.
      destruct (decide (k = i)) as [->|Hne].
      * by rewrite lookup_insert_eq, Hk, Z.add_0_r.
      * by rewrite lookup_insert_ne.
Qed.

Lemma mapSum_update {A} (f : string * A → Z) (m : gmap string A) i x x' :
  m !! i = Some x → mapSum f (<[i := x']> m) = mapSum f m - f (i, x) + f (i, x').
Proof.
  intros Hi.
  pose proof (mapSum_insert f (delete i m) i x (lookup_delete_eq _ _)) as Hx.
  rewrite insert_delete_eq, insert_id in Hx by done.
  rewrite <- (insert_delete_eq m i x').
  rewrite mapSum_insert by apply lookup_delete_eq. lia.
Qed.


(** An object whose keys are distinct, read as a map. *)
Lemma Zsum_obj {V} (f : string * V → Z) (o : JS.Obj V) :
  NoDup (JS.keys o) → Zsum (f <$> o) = mapSum f (list_to_map o).
Proof.
  intros Hnd. unfold mapSum. apply Zsum_Permutation, fmap_Permutation.
  symmetry. by apply map_to_list_to_map.
Qed.

Lemma lookup_obj_None {V} (o : JS.Obj V) k :
  k ∉ JS.keys o → (list_to_map o : gmap string V) !! k = None.
Proof. apply not_elem_of_list_to_map_1. Qed.

Lemma lookup_obj_Some {V} (o : JS.Obj V) k :
  k ∈ JS.keys o → is_Some ((list_to_map o : gmap string V) !! k).
Proof.
  intros Hin. destruct (list_to_map o !! k) eqn:E; [by eexists|].
  by apply not_elem_of_list_to_map_2 in E.
Qed.

Lemma Zsum_opp {A} (f : A → Z) (l : list A) :
  Zsum ((λ x, - f x) <$> l) = - Zsum (f <$> l).
Proof.
  induction l as [|x l IH]; [done|]. rewrite !fmap_cons, !Zsum_cons, IH. lia.
Qed.

(** The unpaid amounts after the bills of an object were marked paid. *)
Lemma markPaid_sum (g : Z → Z) (d pid : string) (o : JS.Obj JS.Number)
    (bs : gmap string BillData) :
  g 0 = 0 → NoDup (JS.keys o) →
  mapSum (λ kv, g (unpaidAmount kv.2)) (markAll (MarkPaid d pid) (JS.keys o) bs)
  = mapSum (λ kv, g (unpaidAmount kv.2)) bs
    - Zsum ((λ ka, match bs !! ka.1 with
                   | Some b => g (unpaidAmount b)
                   | None => 0
                   end) <$> o).
Proof.
  intros Hg Hnd.
  rewrite (mapSum_transform _
             (λ k b, if decide (k ∈ JS.keys o) then patchBill (MarkPaid d pid) b else b)
             bs) by apply lookup_markAll.
  rewrite (mapSum_ext _
    (λ kv, g (unpaidAmount kv.2)
           + match (list_to_map o : gmap string JS.Number) !! kv.1 with
             | Some a => - g (unpaidAmount kv.2)
             | None => 0
             end)).
  2:{ intros k b _. cbn [fst snd].
      destruct (decide (k ∈ JS.keys o)) as [Hin|Hnin].
      - destruct (lookup_obj_Some o k Hin) as [a ->].
        assert (unpaidAmount (patchBill (MarkPaid d pid) b) = 0) as -> by done.
        lia.
      - rewrite lookup_obj_None by done. lia. }
  rewrite mapSum_plus.
  rewrite (mapSum_swap (λ b (_ : JS.Number), - g (unpaidAmount b)) bs (list_to_map o)).
  rewrite <- (Zsum_obj (λ ka, match bs !! ka.1 with
                              | Some x => - g (unpaidAmount x)
                              | None => 0
                              end)) by done.
  assert (∀ x y z : Z, y = - z → x + y = x - z) as Hre by (intros; lia).
  apply Hre. rewrite <- Zsum_opp. apply Zsum_fmap_ext.
  intros [k a] _. cbn. by destruct (bs !! k).
Qed.

Lemma whole_zero : whole JS.zero.
Proof. apply (whole_ofZ 0). done. Qed.

(** The sums of a selection of unpaid bills, each amount between 0 and
    the amount of its bill, all amounts whole. *)
Lemma selection_sums (bs : gmap string BillData) (o : JS.Obj JS.Number) :
  (∀ k a, (k, a) ∈ o →
     ∃ b, bs !! k = Some b ∧ b_status b = UNPAID
          ∧ JS.leb JS.zero a = true ∧ JS.leb a (b_amount b) = true) →
  (∀ k b, bs !! k = Some b → whole (b_amount b)) →
  (∀ k a, (k, a) ∈ o → whole a) →
  shortfallSum bs o = selectedDue bs o - collectedZ o
  ∧ allocationsSize bs o = selectedDue bs o + collectedZ o
  ∧ 0 ≤ collectedZ o ∧ collectedZ o ≤ selectedDue bs o
  ∧ Zsum ((λ ka, match bs !! ka.1 with
                 | Some b => Z.abs (unpaidAmount b)
                 | None => 0
                 end) <$> o) = selectedDue bs o
  ∧ Zsum ((λ x, Z.abs (JS.toZ x)) <$> JS.values o) = collectedZ o
  ∧ Zsum (JS.toZ <$> JS.values o) = collectedZ o.
Proof.
  intros Hvalid Hbills Hwhole.
  induction o as [|[k a] o IH].
  - by cbn.
  - destruct IH as (IH1 & IH2 & IH3 & IH4 & IH5 & IH6 & IH7).
    { intros k' a' Hin. by apply Hvalid, list_elem_of_further. }
    { intros k' a' Hin. by apply (Hwhole k'), list_elem_of_further. }
    destruct (Hvalid k a (list_elem_of_here _ _)) as (b & Hb & Hst & H0 & Hle).
    pose proof (Hwhole k a (list_elem_of_here _ _)) as Ha.
    pose proof (Hbills k b Hb) as Hamount.
    rewrite (whole_leb _ _ whole_zero Ha) in H0.
    rewrite (whole_leb _ _ Ha Hamount) in Hle.
    apply Z.leb_le in H0, Hle. change (JS.toZ JS.zero) with 0 in H0.
    rewrite shortfallSum_cons, allocationsSize_cons.
    unfold selectedDue, collectedZ, JS.values in *.
    rewrite !fmap_cons, !Zsum_cons. cbn [fst snd].
    rewrite Hb.
    assert (unpaidAmount b = JS.toZ (b_amount b)) as Hu.
    { unfold unpaidAmount. by rewrite decide_True. }
    rewrite !Hu. lia.
Qed.

Lemma mapSum_lookup_le {A} (f : string * A → Z) (m : gmap string A) i x :
  m !! i = Some x → Z.abs (f (i, x)) ≤ mapSum (λ kv, Z.abs (f kv)) m.
Proof.
  intros Hi.
  pose proof (mapSum_insert (λ kv, Z.abs (f kv)) (delete i m) i x
                (lookup_delete_eq _ _)) as Hx.
  rewrite insert_delete_eq, insert_id in Hx by done.
  pose proof (mapSum_abs_nonneg f (delete i m)). lia.
Qed.

(** The store after a payment on whole amounts: the amounts stay whole,
    the bills paid leave the total due and the shortfall enters it. *)
Lemma paidStore_whole db newId paymentData (billsToPay : JS.Obj JS.Number) c :
  customers db !! p_customerId paymentData = Some c →
  validSelection (bills db) billsToPay →
  wholeStore db → (∀ k a, (k, a) ∈ billsToPay → whole a) →
  storeSize db < 2 ^ 52 →
  let db' := paidStore db newId paymentData billsToPay c in
  let S := shortfallSum (bills db) billsToPay in
  (∀ k c', customers db' !! k = Some c' → whole (c_openingDue c'))
  ∧ mapSum (λ kv, JS.toZ (c_openingDue kv.2)) (customers db')
    = mapSum (λ kv, JS.toZ (c_openingDue kv.2)) (customers db) + S
  ∧ mapSum (λ kv, Z.abs (JS.toZ (c_openingDue kv.2))) (customers db')
    ≤ mapSum (λ kv, Z.abs (JS.toZ (c_openingDue kv.2))) (customers db) + S
  ∧ totalShortfall (bills db) billsToPay = JS.ofZ S
  ∧ S = selectedDue (bills db) billsToPay - collectedZ billsToPay
  ∧ 0 ≤ collectedZ billsToPay
  ∧ collectedZ billsToPay ≤ selectedDue (bills db) billsToPay
  ∧ selectedDue (bills db) billsToPay
    ≤ mapSum (λ kv, Z.abs (unpaidAmount kv.2)) (bills db)
  ∧ totalSelectedAmount billsToPay = JS.ofZ (collectedZ billsToPay).
Proof.
  intros Hc [Hnd Hvalid] [Hwb Hwc] Hwa Hsize db' S.
  destruct (selection_sums (bills db) billsToPay Hvalid Hwb Hwa)
    as (E1 & E2 & E3 & E4 & E5 & E6 & E7).
  pose proof (markPaid_sum Z.abs (p_date paymentData) newId billsToPay (bills db)
                eq_refl Hnd) as Habs.
  rewrite E5 in Habs.
  pose proof (mapSum_abs_nonneg (λ kv : string * BillData, unpaidAmount kv.2)
                (markAll (MarkPaid (p_date paymentData) newId)
                         (JS.keys billsToPay) (bills db))) as Hnn.
  pose proof (mapSum_abs_nonneg (λ kv : string * CustomerData,
                                   JS.toZ (c_openingDue kv.2)) (customers db)) as Hnc.
  pose proof (mapSum_lookup_le (λ kv : string * CustomerData,
                                  JS.toZ (c_openingDue kv.2)) _ _ _ Hc) as Hle.
  cbn beta in Hnn, Hnc, Hle. cbn [snd] in Hle. unfold storeSize in Hsize.
  assert (wholeAllocations (bills db) billsToPay) as Hwal.
  { intros k a b Hin Hb. split; [by eapply Hwa|by eapply Hwb]. }
  destruct (totalShortfall_whole (bills db) billsToPay Hnd Hwal) as [HT _]; [lia|].
  fold S in E1, HT.
  assert (totalSelectedAmount billsToPay = JS.ofZ (collectedZ billsToPay)) as Hsel.
  { unfold totalSelectedAmount.
    assert (fold_left (λ total amount, JS.add total amount) (JS.values billsToPay) JS.zero
            = fold_left JS.add (JS.values billsToPay) (JS.ofZ 0)) as -> by done.
    rewrite fold_add_whole.
    - by rewrite Z.add_0_l, E7.
    - apply Forall_forall. intros a Ha. unfold JS.values in Ha.
      apply list_elem_of_fmap in Ha as ([k a'] & -> & Hin). by eapply Hwa.
    - rewrite E6. lia. }
  split_and!; try done; try lia.
  - intros k c'. subst db'. unfold paidStore. cbn [customers]. fold S. rewrite HT.
    rewrite gtb_ofZ by lia. destruct (Z.ltb_spec 0 S); [|by apply Hwc].
    destruct (decide (k = p_customerId paymentData)) as [->|Hne].
    + rewrite lookup_insert_eq. intros [= <-]. cbn.
      rewrite whole_orZero by by eapply Hwc.
      rewrite whole_add; [apply whole_ofZ| by eapply Hwc | apply whole_ofZ |];
        rewrite ?(toZ_ofZ S) by lia; rewrite ?toZ_ofZ by lia; lia.
    + rewrite lookup_insert_ne by done. apply Hwc.
  - subst db'. unfold paidStore. cbn [customers]. fold S. rewrite HT.
    rewrite gtb_ofZ by lia. destruct (Z.ltb_spec 0 S); [|lia].
    rewrite (mapSum_update _ _ _ c) by done. cbn.
    rewrite whole_orZero by by eapply Hwc.
    rewrite whole_add; [| by eapply Hwc | apply whole_ofZ |];
      rewrite ?(toZ_ofZ S) by lia; rewrite ?toZ_ofZ by lia; lia.
  - subst db'. unfold paidStore. cbn [customers]. fold S. rewrite HT.
    rewrite gtb_ofZ by lia. destruct (Z.ltb_spec 0 S); [|lia].
    rewrite (mapSum_update _ _ _ c) by done. cbn.
    rewrite whole_orZero by by eapply Hwc.
    rewrite whole_add; [| by eapply Hwc | apply whole_ofZ |];
      rewrite ?(toZ_ofZ S) by lia; rewrite ?toZ_ofZ by lia; lia.
Qed.

(** The total due after a payment on whole amounts. *)
Lemma homeTotalDue_paidStore db newId paymentData (billsToPay : JS.Obj JS.Number) c :
  customers db !! p_customerId paymentData = Some c →
  validSelection (bills db) billsToPay →
  wholeStore db → (∀ k a, (k, a) ∈ billsToPay → whole a) →
  storeSize db < 2 ^ 52 →
  homeTotalDue (SignedIn (paidStore db newId paymentData billsToPay c))
  = JS.ofZ (totalDueZ db - collectedZ billsToPay).
Proof.
  intros Hc Hvalid Hwhole Hwa Hsize.
  destruct (paidStore_whole db newId paymentData billsToPay c Hc Hvalid Hwhole Hwa Hsize)
    as (P1 & P2 & P3 & P4 & P5 & P6 & P7 & P8 & P9).
  pose proof (markPaid_sum Z.abs (p_date paymentData) newId billsToPay (bills db)
                eq_refl (proj1 Hvalid)) as Habs.
  pose proof (markPaid_sum (λ n, n) (p_date paymentData) newId billsToPay (bills db)
                eq_refl (proj1 Hvalid)) as Hsum.
  destruct (selection_sums (bills db) billsToPay (proj2 Hvalid) (proj1 Hwhole) Hwa)
    as (_ & _ & _ & _ & E5 & _).
  rewrite E5 in Habs. change (Zsum _) with (selectedDue (bills db) billsToPay) in Hsum.
  cbn beta in Hsum.
  assert (bills (paidStore db newId paymentData billsToPay c)
          = markAll (MarkPaid (p_date paymentData) newId) (JS.keys billsToPay) (bills db))
    as Hbills by done.
  destruct (homeTotalDue_whole (paidStore db newId paymentData billsToPay c)) as [-> _].
  - split; [|exact P1]. intros k b'. unfold paidStore. cbn [bills].
    rewrite lookup_markAll. destruct (bills db !! k) as [b|] eqn:Hb; [|done].
    intros [= <-]. pose proof (proj1 Hwhole k b Hb).
    by destruct (decide _).
  - unfold storeSize in *. rewrite Hbills. lia.
  - f_equal. unfold totalDueZ. rewrite Hbills. lia.
Qed.

(** The total due of the home screen after a payment on whole amounts:
    the total before minus the money collected, no operation rounding. *)
Lemma paidStore_total_due db newId paymentData (billsToPay : JS.Obj JS.Number) c :
  customers db !! p_customerId paymentData = Some c →
  validSelection (bills db) billsToPay →
  wholeStore db → (∀ k a, (k, a) ∈ billsToPay → whole a) →
  storeSize db < 2 ^ 52 →
  let s' := SignedIn (paidStore db newId paymentData billsToPay c) in
  homeTotalDue s'
  = JS.sub (homeTotalDue (SignedIn db)) (totalSelectedAmount billsToPay)
  ∧ JS.toZ (homeTotalDue s')
    = JS.toZ (homeTotalDue (SignedIn db)) - JS.toZ (totalSelectedAmount billsToPay).
Proof.
  intros Hc Hvalid Hwhole Hwa Hsize s'. subst s'.
  rewrite homeTotalDue_paidStore by done.
  destruct (paidStore_whole db newId paymentData billsToPay c Hc Hvalid Hwhole Hwa Hsize)
    as (_ & _ & _ & _ & _ & P6 & P7 & P8 & ->).
  destruct (homeTotalDue_whole db Hwhole) as [-> Hle]; [lia|].
  pose proof (mapSum_abs_nonneg (λ kv : string * CustomerData,
                                   JS.toZ (c_openingDue kv.2)) (customers db)) as Hnc.
  cbn beta in Hnc. unfold storeSize in *.
  rewrite sub_ofZ by lia. rewrite !toZ_ofZ by lia. done.
Qed.

(** X10. Collecting bills lowers the total due of the home screen by the
    money collected, the amounts being whole: when every allocation names an
    unpaid bill and lies between 0 and the bill's amount, and the amounts of
    the store and of the allocations are whole numbers that add up below
    2^52, the total after [addPayment] is the total before minus the sum of
    the allocations, in the program's double arithmetic and without
    rounding, the part of each bill left unpaid having moved to the
    customer's opening due. *)
Theorem addPayment_total_due (db : Store) (newId : string)
    (paymentData : PaymentData) (billsToPay : JS.Obj JS.Number) :
  is_Some (customers db !! p_customerId paymentData) →
  validSelection (bills db) billsToPay →
  wholeStore db → (∀ k a, (k, a) ∈ billsToPay → whole a) →
  storeSize db < 2 ^ 52 →
  let s' := (addPayment (SignedIn db) newId paymentData billsToPay).2 in
  homeTotalDue s'
  = JS.sub (homeTotalDue (SignedIn db)) (totalSelectedAmount billsToPay)
  ∧ JS.toZ (homeTotalDue s')
    = JS.toZ (homeTotalDue (SignedIn db)) - JS.toZ (totalSelectedAmount billsToPay).
Proof.
  intros [c Hc] Hvalid Hwhole Hwa Hsize s'. subst s'.
  rewrite (addPayment_SignedIn _ _ _ _ _ Hc). cbn [snd].
  by apply paidStore_total_due.
Qed.

Lemma wholeStore_exStore : wholeStore exStore.
Proof.
  split; intros k x Hx; cbn in Hx; apply lookup_singleton_Some in Hx as [_ <-].
  - by apply (whole_ofZ 500).
  - by apply (whole_ofZ 200).
Qed.

Lemma validSelection_exStore :
  validSelection (bills exStore) [("c1-2024-1", JS.ofZ 300)].
Proof.
  split; [apply NoDup_singleton|].
  intros k a Ha. apply list_elem_of_singleton in Ha as [= -> ->].
  exists exBillA. split; [vm_compute; reflexivity|]. split; [reflexivity|].
  split; vm_compute; reflexivity.
Qed.

Lemma addPayment_total_due_witness :
  homeTotalDue (SignedIn exStore) = JS.ofZ 700
  ∧ homeTotalDue
      (addPayment (SignedIn exStore) "p1" exPayment [("c1-2024-1", JS.ofZ 300)]).2
    = JS.ofZ 400.
Proof.
  split; [vm_compute; reflexivity|].
  refine (eq_trans (proj1 (addPayment_total_due exStore "p1" exPayment
                             [("c1-2024-1", JS.ofZ 300)] _ _ _ _ _)) _).
  - vm_compute. eexists. reflexivity.
  - exact validSelection_exStore.
  - exact wholeStore_exStore.
  - intros k a Ha. apply list_elem_of_singleton in Ha as [= -> ->].
    by apply (whole_ofZ 300).
  - vm_compute. reflexivity.
  - vm_compute. reflexivity.
Defined.

(** X11. Undoing a payment gives the bills back in full and keeps the
    shortfall, the amounts being whole: after [addPayment] on unpaid bills
    (allocations between 0 and the bill amounts, the payment id new to the
    bills, the amounts whole numbers that add up below 2^52) and
    [deletePayment] of that payment, the payment record is gone, every bill
    has the status and the amount it had, and the total due is the one
    before the payment plus the shortfall the payment had moved to the
    opening due, which is the total after the payment plus the amounts of
    the bills paid. *)
Theorem undo_keeps_shortfall (db : Store) (newId : string)
    (paymentData : PaymentData) (billsToPay : JS.Obj JS.Number) :
  is_Some (customers db !! p_customerId paymentData) →
  validSelection (bills db) billsToPay →
  wholeStore db → (∀ k a, (k, a) ∈ billsToPay → whole a) →
  storeSize db < 2 ^ 52 →
  (∀ k b, bills db !! k = Some b → b_paymentId b ≠ Some newId) →
  let s1 := (addPayment (SignedIn db) newId paymentData billsToPay).2 in
  let s2 := (deletePayment s1 newId).2 in
  homeTotalDue s2
  = JS.add (homeTotalDue (SignedIn db)) (totalShortfall (bills db) billsToPay)
  ∧ JS.toZ (homeTotalDue s2)
    = JS.toZ (homeTotalDue (SignedIn db)) + shortfallSum (bills db) billsToPay
  ∧ JS.toZ (homeTotalDue s2)
    = JS.toZ (homeTotalDue s1)
      + Zsum ((λ ka, match bills db !! ka.1 with
                     | Some b => JS.toZ (b_amount b)
                     | None => 0
                     end) <$> billsToPay)
  ∧ payments (storeOf s2) !! newId = None
  ∧ (∀ k b, bills db !! k = Some b →
       ∃ b2, bills (storeOf s2) !! k = Some b2
             ∧ b_status b2 = b_status b ∧ b_amount b2 = b_amount b).
Proof.
  intros [c Hc] Hvalid Hwhole Hwa Hsize Hfresh s1 s2.
  set (db1 := paidStore db newId paymentData billsToPay c).
  assert (s1 = SignedIn db1) as Hs1.
  { subst s1. by rewrite (addPayment_SignedIn _ _ _ _ _ Hc). }
  assert (s2 = SignedIn (undoneStore db1 newId)) as Hs2.
  { subst s2. by rewrite Hs1, deletePayment_SignedIn. }
  set (h := λ (k : string) (b : BillData),
              (λ b', if decide (b_paymentId b' = Some newId)
                     then patchBill MarkUnpaid b' else b')
              (if decide (k ∈ JS.keys billsToPay)
               then patchBill (MarkPaid (p_date paymentData) newId) b else b)).
  assert (∀ k, bills (undoneStore db1 newId) !! k = h k <$> bills db !! k) as Hlook.
  { intros k. unfold undoneStore, db1, paidStore, undoBills. cbn [bills].
    rewrite lookup_fmap, lookup_markAll. by destruct (bills db !! k). }
  assert (∀ k b, bills db !! k = Some b →
            b_status (h k b) = b_status b ∧ b_amount (h k b) = b_amount b) as Hh.
  { intros k b Hb. unfold h.
    destruct (decide (k ∈ JS.keys billsToPay)) as [Hin|Hnin].
    - apply list_elem_of_fmap in Hin as ([k' a] & -> & Hin).
      destruct (proj2 Hvalid k' a Hin) as (b' & Hb' & Hst & _). cbn in Hb.
      simplify_eq. cbn. by rewrite decide_True.
    - rewrite decide_False; [done|]. by apply (Hfresh k). }
  assert (∀ g : Z → Z,
            mapSum (λ kv, g (unpaidAmount kv.2)) (bills (undoneStore db1 newId))
            = mapSum (λ kv, g (unpaidAmount kv.2)) (bills db)) as Hunpaid.
  { intros g. rewrite (mapSum_transform _ h (bills db)) by done.
    apply mapSum_ext. intros k b Hb. cbn [fst snd].
    destruct (Hh k b Hb) as [Hst Ham]. unfold unpaidAmount. by rewrite Hst, Ham. }
  destruct (paidStore_whole db newId paymentData billsToPay c Hc Hvalid Hwhole Hwa Hsize)
    as (P1 & P2 & P3 & P4 & P5 & P6 & P7 & P8 & P9).
  fold db1 in P1, P2, P3.
  pose proof (mapSum_abs_nonneg (λ kv : string * CustomerData,
                                   JS.toZ (c_openingDue kv.2)) (customers db)) as Hnc.
  cbn beta in Hnc.
  destruct (homeTotalDue_whole db Hwhole) as [Hdb Hle]; [lia|].
  assert (homeTotalDue s2 = JS.ofZ (totalDueZ db + shortfallSum (bills db) billsToPay))
    as Htotal.
  { rewrite Hs2.
    destruct (homeTotalDue_whole (undoneStore db1 newId)) as [-> _].
    - split; [|exact P1]. intros k b2. rewrite Hlook.
      destruct (bills db !! k) as [b|] eqn:Hb; [|done]. intros [= <-].
      rewrite (proj2 (Hh k b Hb)). by apply (proj1 Hwhole k).
    - unfold storeSize in *. rewrite (Hunpaid Z.abs).
      change (customers (undoneStore db1 newId)) with (customers db1). lia.
    - f_equal. unfold totalDueZ. rewrite (Hunpaid (λ n, n)).
      change (customers (undoneStore db1 newId)) with (customers db1). lia. }
  assert (Zsum ((λ ka, match bills db !! ka.1 with
                       | Some b => JS.toZ (b_amount b)
                       | None => 0
                       end) <$> billsToPay)
          = selectedDue (bills db) billsToPay) as Hsel.
  { unfold selectedDue. apply Zsum_fmap_ext. intros [k a] Hin. cbn [fst].
    destruct (proj2 Hvalid k a Hin) as (b & -> & Hst & _).
    unfold unpaidAmount. by rewrite decide_True. }
  unfold storeSize in Hsize, Hle.
  split_and!.
  - rewrite Htotal, Hdb, P4. symmetry. apply add_ofZ; lia.
  - rewrite Htotal, Hdb. rewrite !toZ_ofZ by lia. done.
  - rewrite Htotal, Hs1, Hsel. unfold db1.
    rewrite homeTotalDue_paidStore by done. rewrite !toZ_ofZ by lia. lia.
  - rewrite Hs2. cbn. apply lookup_delete_eq.
  - intros k b Hb. exists (h k b). rewrite Hs2. cbn [storeOf].
    rewrite Hlook, Hb. split; [done|]. by apply Hh.
Qed.

Lemma undo_keeps_shortfall_witness :
  homeTotalDue (SignedIn exStore) = JS.ofZ 700
  ∧ homeTotalDue
      (deletePayment
         (addPayment (SignedIn exStore) "p1" exPayment
                     [("c1-2024-1", JS.ofZ 300)]).2 "p1").2
    = JS.ofZ 900.
Proof.
  split; [vm_compute; reflexivity|].
  refine (eq_trans (proj1 (undo_keeps_shortfall exStore "p1" exPayment
                             [("c1-2024-1", JS.ofZ 300)] _ _ _ _ _ _)) _).
  - vm_compute. eexists. reflexivity.
  - exact validSelection_exStore.
  - exact wholeStore_exStore.
  - intros k a Ha. apply list_elem_of_singleton in Ha as [= -> ->].
    by apply (whole_ofZ 300).
  - vm_compute. reflexivity.
  - intros k b Hb. cbn in Hb. apply lookup_singleton_Some in Hb as [_ <-]. done.
  - vm_compute. reflexivity.
Defined.

(** The total due after one customer's opening due was set to a whole
    number. *)
Lemma homeTotalDue_setOpeningDue db db' cid c (v : Z) :
  customers db !! cid = Some c → wholeStore db →
  storeSize db + Z.abs (v - JS.toZ (c_openingDue c)) < 2 ^ 53 →
  customers db' = <[cid := setOpeningDue (JS.ofZ v) c]> (customers db) →
  bills db' = bills db →
  homeTotalDue (SignedIn db') = JS.ofZ (totalDueZ db + (v - JS.toZ (c_openingDue c)))
  ∧ homeTotalDue (SignedIn db) = JS.ofZ (totalDueZ db)
  ∧ Z.abs (totalDueZ db) ≤ storeSize db.
Proof.
  intros Hc Hwhole Hsize Hcs Hbs.
  pose proof (mapSum_abs_nonneg (λ kv : string * BillData, unpaidAmount kv.2)
                                (bills db)) as Hnb.
  pose proof (mapSum_lookup_le (λ kv : string * CustomerData,
                                  JS.toZ (c_openingDue kv.2)) _ _ _ Hc) as Hle.
  cbn beta in Hnb, Hle. cbn [snd] in Hle.
  destruct (homeTotalDue_whole db Hwhole) as [Hdb Hbound]; [lia|].
  split; [|done]. unfold storeSize in *.
  assert (Z.abs v < 2 ^ 53) as Hv by lia.
  destruct (homeTotalDue_whole db') as [-> _].
  - split.
    + rewrite Hbs. apply Hwhole.
    + intros k c'. rewrite Hcs. destruct (decide (k = cid)) as [->|Hne].
      * rewrite lookup_insert_eq. intros [= <-]. cbn. by apply whole_ofZ.
      * rewrite lookup_insert_ne by done. apply Hwhole.
  - unfold storeSize. rewrite Hcs, Hbs, (mapSum_update _ _ _ c) by done. cbn.
    rewrite toZ_ofZ by done. lia.
  - f_equal. unfold totalDueZ. rewrite Hcs, Hbs, (mapSum_update _ _ _ c) by done.
    cbn. rewrite toZ_ofZ by done. lia.
Qed.

(** X12. The due ledger on the total due of the home screen, the amounts
    being whole numbers that add up below 2^53: a due payment lowers the
    total by its amount, an update of the due payment by the difference of
    the amounts, and deleting the due payment raises it by the amount
    deleted, in the program's double arithmetic and without rounding. *)
Theorem due_ledger_total_due (db : Store) (newId : string)
    (paymentData : DuePaymentData) (updatedPayment : DuePayment) (paymentId : string) :
  wholeStore db →
  (is_Some (customers db !! dp_customerId paymentData) →
   whole (dp_amount paymentData) →
   storeSize db + Z.abs (JS.toZ (dp_amount paymentData)) < 2 ^ 53 →
   let s' := (addDuePayment (SignedIn db) newId paymentData).2 in
   homeTotalDue s' = JS.sub (homeTotalDue (SignedIn db)) (dp_amount paymentData)
   ∧ JS.toZ (homeTotalDue s')
     = JS.toZ (homeTotalDue (SignedIn db)) - JS.toZ (dp_amount paymentData))
  ∧ (∀ original, duePayments db !! id updatedPayment = Some original →
       is_Some (customers db !! dp_customerId (data updatedPayment)) →
       whole (dp_amount (data updatedPayment)) → whole (dp_amount original) →
       storeSize db + Z.abs (JS.toZ (dp_amount (data updatedPayment)))
       + Z.abs (JS.toZ (dp_amount original)) < 2 ^ 53 →
       let s' := (updateDuePayment (SignedIn db) updatedPayment).2 in
       homeTotalDue s'
       = JS.sub (homeTotalDue (SignedIn db))
                (JS.sub (dp_amount (data updatedPayment)) (dp_amount original))
       ∧ JS.toZ (homeTotalDue s')
         = JS.toZ (homeTotalDue (SignedIn db))
           - (JS.toZ (dp_amount (data updatedPayment)) - JS.toZ (dp_amount original)))
  ∧ (∀ p, duePayments db !! paymentId = Some p →
       is_Some (customers db !! dp_customerId p) →
       whole (dp_amount p) →
       storeSize db + Z.abs (JS.toZ (dp_amount p)) < 2 ^ 53 →
       let s' := (deleteDuePayment (SignedIn db) paymentId).2 in
       homeTotalDue s' = JS.add (homeTotalDue (SignedIn db)) (dp_amount p)
       ∧ JS.toZ (homeTotalDue s')
         = JS.toZ (homeTotalDue (SignedIn db)) + JS.toZ (dp_amount p)).
Proof.
  intros Hwhole. split; [|split].
  - intros [c Hc] Ha Hsize s'. subst s'.
    rewrite (addDuePayment_SignedIn _ _ _ _ Hc). cbn [snd].
    pose proof (proj2 Hwhole _ _ Hc) as Hod.
    pose proof (mapSum_lookup_le (λ kv : string * CustomerData,
                                    JS.toZ (c_openingDue kv.2)) _ _ _ Hc) as Hle.
    pose proof (mapSum_abs_nonneg (λ kv : string * BillData, unpaidAmount kv.2)
                                  (bills db)) as Hnb.
    cbn beta in Hle, Hnb. cbn [snd] in Hle. unfold storeSize in Hsize.
    rewrite (whole_sub _ _ Hod Ha) by lia.
    match goal with |- context [SignedIn ?d] =>
      destruct (homeTotalDue_setOpeningDue db d (dp_customerId paymentData) c
                  (JS.toZ (c_openingDue c) - JS.toZ (dp_amount paymentData)) Hc Hwhole)
        as (-> & -> & Hb); [unfold storeSize; lia|done|done|]
    end.
    unfold storeSize in Hb. rewrite (proj1 Ha) at 2.
    rewrite sub_ofZ by lia. rewrite !toZ_ofZ by lia. split; [f_equal|]; lia.
  - intros original Ho [c Hc] Hnew Hold Hsize s'. subst s'.
    rewrite (updateDuePayment_SignedIn _ _ _ _ Ho Hc). cbn [snd].
    pose proof (proj2 Hwhole _ _ Hc) as Hod.
    pose proof (mapSum_lookup_le (λ kv : string * CustomerData,
                                    JS.toZ (c_openingDue kv.2)) _ _ _ Hc) as Hle.
    pose proof (mapSum_abs_nonneg (λ kv : string * BillData, unpaidAmount kv.2)
                                  (bills db)) as Hnb.
    cbn beta in Hle, Hnb. cbn [snd] in Hle. unfold storeSize in Hsize.
    rewrite (whole_sub _ _ Hnew Hold) by lia.
    assert (whole (JS.ofZ (JS.toZ (dp_amount (data updatedPayment))
                           - JS.toZ (dp_amount original)))) as Hdiff
      by (apply whole_ofZ; lia).
    rewrite (whole_sub _ _ Hod Hdiff) by (rewrite toZ_ofZ; lia).
    rewrite (toZ_ofZ (JS.toZ (dp_amount (data updatedPayment))
                      - JS.toZ (dp_amount original))) by lia.
    match goal with |- context [SignedIn ?d] =>
      destruct (homeTotalDue_setOpeningDue db d (dp_customerId (data updatedPayment)) c
                  (JS.toZ (c_openingDue c)
                   - (JS.toZ (dp_amount (data updatedPayment))
                      - JS.toZ (dp_amount original))) Hc Hwhole)
        as (-> & -> & Hb); [unfold storeSize; lia|done|done|]
    end.
    unfold storeSize in Hb.
    rewrite sub_ofZ by lia. rewrite !toZ_ofZ by lia. split; [f_equal|]; lia.
  - intros p Hp [c Hc] Ha Hsize s'. subst s'.
    rewrite (deleteDuePayment_SignedIn _ _ _ _ Hp Hc). cbn [snd].
    pose proof (proj2 Hwhole _ _ Hc) as Hod.
    pose proof (mapSum_lookup_le (λ kv : string * CustomerData,
                                    JS.toZ (c_openingDue kv.2)) _ _ _ Hc) as Hle.
    pose proof (mapSum_abs_nonneg (λ kv : string * BillData, unpaidAmount kv.2)
                                  (bills db)) as Hnb.
    cbn beta in Hle, Hnb. cbn [snd] in Hle. unfold storeSize in Hsize.
    rewrite (whole_add _ _ Hod Ha) by lia.
    match goal with |- context [SignedIn ?d] =>
      destruct (homeTotalDue_setOpeningDue db d (dp_customerId p) c
                  (JS.toZ (c_openingDue c) + JS.toZ (dp_amount p)) Hc Hwhole)
        as (-> & -> & Hb); [unfold storeSize; lia|done|done|]
    end.
    unfold storeSize in Hb. rewrite (proj1 Ha) at 2.
    rewrite add_ofZ by lia. rewrite !toZ_ofZ by lia. split; [f_equal|]; lia.
Qed.

Lemma due_ledger_total_due_witness :
  homeTotalDue (addDuePayment (SignedIn exStore) "d1"
                  (mkDuePayment "c1" 150 "2024-02-01" None)).2 = JS.ofZ 550.
Proof.
  refine (eq_trans (proj1 (proj1 (due_ledger_total_due exStore "d1"
                             (mkDuePayment "c1" 150 "2024-02-01" None)
                             (mkDoc "d1" (mkDuePayment "c1" 150 "2024-02-01" None)) "d1"
                             wholeStore_exStore) _ _ _)) _).
  - vm_compute. eexists. reflexivity.
  - by apply (whole_ofZ 150).
  - vm_compute. reflexivity.
  - vm_compute. reflexivity.
Defined.

(** ** The selection of the collect-bill modal *)

Lemma elem_of_unpaidBills s customerId (b : Bill) :
  b ∈ unpaidBills s customerId
  ↔ bills (storeOf s) !! id b = Some (data b)
    ∧ b_customerId (data b) = customerId ∧ b_status (data b) = UNPAID.
Proof.
  unfold unpaidBills.
  rewrite sortBy_Permutation, list_elem_of_filter, elem_of_getBillsByCustomerId.
  tauto.
Qed.

Lemma elem_of_assign {V} (o : JS.Obj V) k v k' v' :
  (k', v') ∈ JS.assign o k v → (k', v') = (k, v) ∨ (k', v') ∈ o.
Proof.
  induction o as [|[k0 v0] o IH]; cbn.
  - intros Hin. apply list_elem_of_singleton in Hin. by left.
  - destruct (decide (k0 = k)) as [->|Hne]; intros Hin;
      apply elem_of_cons in Hin as [Hin|Hin].
    + by left.
    + right. by apply list_elem_of_further.
    + right. rewrite Hin. apply list_elem_of_here.
    + destruct (IH Hin) as [?|?]; [by left|right; by apply list_elem_of_further].
Qed.

Lemma keys_assign {V} (o : JS.Obj V) k v :
  JS.keys (JS.assign o k v)
  = if decide (k ∈ JS.keys o) then JS.keys o else JS.keys o ++ [k].
Proof.
  induction o as [|[k0 v0] o IH]; [done|]. cbn.
  destruct (decide (k0 = k)) as [->|Hne].
  - rewrite decide_True by apply list_elem_of_here. done.
  - unfold JS.keys in *. cbn. rewrite IH.
    destruct (decide (k ∈ o.*1)) as [Hin|Hnin].
    + rewrite decide_True by by apply list_elem_of_further. done.
    + rewrite decide_False; [done|]. intros Hin.
      apply elem_of_cons in Hin as [->|Hin]; done.
Qed.

Lemma NoDup_assign {V} (o : JS.Obj V) k v :
  NoDup (JS.keys o) → NoDup (JS.keys (JS.assign o k v)).
Proof.
  intros Hnd. rewrite keys_assign. destruct (decide (k ∈ JS.keys o)); [done|].
  apply NoDup_app. split; [done|]. split; [|apply NoDup_singleton].
  intros x Hx Hk. apply list_elem_of_singleton in Hk as ->. done.
Qed.

Lemma NoDup_remove {V} (o : JS.Obj V) k :
  NoDup (JS.keys o) → NoDup (JS.keys (JS.remove o k)).
Proof.
  unfold JS.keys, JS.remove. induction o as [|[k0 v0] o IH]; [done|].
  intros Hnd. rewrite fmap_cons in Hnd. apply NoDup_cons in Hnd as [Hnin Hnd].
  rewrite filter_cons. destruct (decide _); [|by apply IH].
  rewrite fmap_cons. apply NoDup_cons. split; [|by apply IH].
  intros Hin. apply Hnin. apply list_elem_of_fmap in Hin as (x & -> & Hx).
  apply list_elem_of_filter in Hx as [_ Hx]. apply list_elem_of_fmap. eauto.
Qed.

(** A number that is at least 0 is not [NaN], and is at most itself. *)
Lemma leb_refl_of_nonneg (x : JS.Number) : JS.leb JS.zero x = true → JS.leb x x = true.
Proof.
  destruct x as [s|s| |s m e]; try done.
  - by destruct s.
  - intros _. unfold JS.leb, SFleb, SFcompare. destruct s.
    + rewrite Z.compare_refl. by rewrite Pos.compare_refl.
    + rewrite Z.compare_refl. by rewrite Pos.compare_refl.
Qed.


Lemma modalStep_ok (unpaid : list Bill) (P : JS.Number → Prop)
    (sel : JS.Obj JS.Number) (e : ModalEvent) :
  P JS.zero →
  eventBill e ∈ unpaid →
  JS.leb JS.zero (b_amount (data (eventBill e))) = true →
  P (b_amount (data (eventBill e))) →
  (∀ b n, e = ChangeAmount b (NumberText n) → P n) →
  selectionOk unpaid P sel → selectionOk unpaid P (modalStep sel e).
Proof.
  intros Hzero Hin Hpos Hamount Htyped Hok. pose proof Hok as [Hnd Hsel].
  assert (∀ a, P a → JS.leb JS.zero a = true →
               JS.leb a (b_amount (data (eventBill e))) = true →
               selectionOk unpaid P (JS.assign sel (id (eventBill e)) a)) as Hassign.
  { intros a Ha H0 Hle. split; [by apply NoDup_assign|].
    intros k' a' Hin'. apply elem_of_assign in Hin' as [[= -> ->]|Hin'].
    - split; [done|]. by exists (eventBill e).
    - by apply Hsel. }
  destruct e as [bill|bill value]; cbn [modalStep eventBill] in *.
  - unfold handleToggleBillSelection. destruct (JS.hasOwnProperty sel (id bill)).
    + split; [by apply NoDup_remove|]. intros k a Ha.
      unfold JS.remove in Ha. apply list_elem_of_filter in Ha as [_ Ha]. by apply Hsel.
    + apply Hassign; [done|done|]. by apply leb_refl_of_nonneg.
  - unfold handleAmountChange. destruct value as [|amount|]; cbn [parseFloat].
    + by apply Hassign.
    + change (JS.geb amount JS.zero) with (JS.leb JS.zero amount).
      destruct (JS.isNaN amount); cbn [negb andb]; [done|].
      destruct (JS.leb JS.zero amount) eqn:H0; cbn [andb]; [|done].
      destruct (JS.leb amount (b_amount (data bill))) eqn:Hle; [|done].
      apply Hassign; [|done|done]. by apply (Htyped bill).
    + done.
Qed.

Lemma selectionAfter_ok (unpaid : list Bill) (P : JS.Number → Prop)
    (events : list ModalEvent) :
  P JS.zero →
  (∀ e, e ∈ events →
     eventBill e ∈ unpaid
     ∧ JS.leb JS.zero (b_amount (data (eventBill e))) = true
     ∧ P (b_amount (data (eventBill e)))) →
  (∀ b n, ChangeAmount b (NumberText n) ∈ events → P n) →
  selectionOk unpaid P (selectionAfter events).
Proof.
  intros Hzero. unfold selectionAfter.
  assert (selectionOk unpaid P []) as Hnil.
  { split; [apply NoDup_nil_2|]. intros k a Ha. by apply elem_of_nil in Ha. }
  revert Hnil. generalize ([] : JS.Obj JS.Number).
  induction events as [|e events IH]; intros sel Hsel Hev Htyped; [done|].
  cbn [fold_left]. apply IH.
  - destruct (Hev e (list_elem_of_here _ _)) as (Hin & Hpos & Hamount).
    apply modalStep_ok; try done.
    intros b n ->. apply (Htyped b). apply list_elem_of_here.
  - intros e' He'. by apply Hev, list_elem_of_further.
  - intros b n Hin. apply (Htyped b). by apply list_elem_of_further.
Qed.

(** X13. From the empty selection the modal opens with, whatever the user
    ticks and types on the unpaid bills listed (bill amounts at least 0),
    no bill is selected twice and each selected amount stays between 0 and
    the amount of its bill.  With nothing selected the submit sends
    nothing; otherwise it records one payment of the selected total and
    succeeds, and, when the amounts of the store and the amounts typed are
    whole numbers that add up below 2^52, the total due of the home screen
    drops by exactly that total. *)
Theorem collectBill_pays_selected_total (db : Store) (newId customerId date : string)
    (events : list ModalEvent) :
  is_Some (customers db !! customerId) →
  (∀ e, e ∈ events →
     eventBill e ∈ unpaidBills (SignedIn db) customerId
     ∧ JS.leb JS.zero (b_amount (data (eventBill e))) = true) →
  let sel := selectionAfter events in
  validSelection (bills db) sel
  ∧ (sel = [] → collectBillSubmit (SignedIn db) newId customerId sel date = None)
  ∧ (sel ≠ [] →
     ∃ s' p, collectBillSubmit (SignedIn db) newId customerId sel date = Some (ok, s')
             ∧ payments (storeOf s') !! newId = Some p
             ∧ p_amount p = totalSelectedAmount sel
             ∧ p_customerId p = customerId
             ∧ (wholeStore db → storeSize db < 2 ^ 52 →
                (∀ b n, ChangeAmount b (NumberText n) ∈ events → whole n) →
                homeTotalDue s'
                = JS.sub (homeTotalDue (SignedIn db)) (totalSelectedAmount sel)
                ∧ JS.toZ (homeTotalDue s')
                  = JS.toZ (homeTotalDue (SignedIn db))
                    - JS.toZ (totalSelectedAmount sel))).
Proof.
  intros [c Hc] Hev sel.
  assert (validSelection (bills db) sel) as Hvalid.
  { destruct (selectionAfter_ok (unpaidBills (SignedIn db) customerId)
                (λ _, True) events) as [Hnd Hsel]; [done| |done|].
    - intros e He. destruct (Hev e He). done.
    - split; [done|]. intros k a Ha.
      destruct (Hsel k a Ha) as (_ & b & Hb & <- & H0 & Hle).
      apply elem_of_unpaidBills in Hb as (Hb & _ & Hst). cbn [storeOf] in Hb.
      by exists (data b). }
  split; [exact Hvalid|]. unfold collectBillSubmit. split.
  - by intros ->.
  - intros Hne.
    assert ((length (JS.keys sel) =? 0)%nat = false) as ->.
    { destruct sel; done. }
    set (pd := mkPayment customerId (totalSelectedAmount sel) date _).
    exists (SignedIn (paidStore db newId pd sel c)), pd.
    split; [by rewrite (addPayment_SignedIn db newId pd sel c Hc)|].
    split; [apply lookup_insert_eq|]. split; [done|]. split; [done|].
    intros Hwhole Hsize Htyped.
    apply (paidStore_total_due db newId pd sel c); try done.
    destruct (selectionAfter_ok (unpaidBills (SignedIn db) customerId)
                whole events) as [_ Hsel]; [exact whole_zero| |done|].
    + intros e He. destruct (Hev e He) as [Hin Hpos]. split; [done|]. split; [done|].
      apply elem_of_unpaidBills in Hin as (Hb & _). cbn [storeOf] in Hb.
      by apply (proj1 Hwhole _ _ Hb).
    + intros k a Ha. by destruct (Hsel k a Ha).
Qed.

Lemma collectBill_pays_selected_total_witness :
  ∃ s', collectBillSubmit (SignedIn exStore) "p1" "c1"
          (selectionAfter [ToggleBill (mkDoc "c1-2024-1" exBillA);
                           ChangeAmount (mkDoc "c1-2024-1" exBillA)
                                        (NumberText (JS.ofZ 300))])
          "2024-02-01"
        = Some (ok, s')
        ∧ homeTotalDue s' = JS.ofZ 400.
Proof.
  destruct (collectBill_pays_selected_total exStore "p1" "c1" "2024-02-01"
              [ToggleBill (mkDoc "c1-2024-1" exBillA);
               ChangeAmount (mkDoc "c1-2024-1" exBillA) (NumberText (JS.ofZ 300))])
    as (_ & _ & H).
  - vm_compute. eexists. reflexivity.
  - intros e He.
    assert (eventBill e = mkDoc "c1-2024-1" exBillA) as ->.
    { apply elem_of_cons in He as [->|He]; [done|].
      apply elem_of_cons in He as [->|He]; [done|]. by apply elem_of_nil in He. }
    split; [|vm_compute; reflexivity]. apply elem_of_unpaidBills. vm_compute. done.
  - destruct H as (s' & p & Hs' & _ & _ & _ & Htotal); [vm_compute; discriminate|].
    exists s'. split; [exact Hs'|].
    refine (eq_trans (proj1 (Htotal wholeStore_exStore _ _)) _).
    + vm_compute. reflexivity.
    + intros b n Hin.
      apply elem_of_cons in Hin as [Hin|Hin]; [discriminate|].
      apply list_elem_of_singleton in Hin as [= _ ->]. by apply (whole_ofZ 300).
    + vm_compute. reflexivity.
Defined.

(** ** The report over all areas *)

Lemma filter_all {A} (P : A → Prop) `{∀ x, Decision (P x)} (l : list A) :
  (∀ x, x ∈ l → P x) → filter P l = l.
Proof.
  induction l as [|x l IH]; intros Hall; [done|].
  rewrite filter_cons, decide_True by (apply Hall, list_elem_of_here).
  f_equal. apply IH. intros y Hy. by apply Hall, list_elem_of_further.
Qed.

(** X14. With the filter on all areas the report counts every customer,
    and its total due is the total due of the home screen as long as every
    bill belongs to a customer of the store (which every mutation keeps);
    the bills of no customer are left out of the report. *)
Theorem report_all_areas (s : Session) :
  reportCustomers s "all" = customersOf s
  ∧ (billsHaveCustomers (storeOf s) → reportTotalDue s "all" = homeTotalDue s).
Proof.
  assert (reportCustomers s "all" = customersOf s) as Hall.
  { unfold reportCustomers. apply filter_all. intros; by left. }
  split; [exact Hall|]. intros Hinv.
  unfold reportTotalDue, homeTotalDue. rewrite Hall. f_equal. f_equal.
  apply filter_all. intros b Hb. apply elem_of_list_to_set.
  destruct s as [|db]; [by apply elem_of_nil in Hb|].
  cbn [billsOf customersOf storeOf] in *. apply elem_of_snapshot in Hb.
  destruct (Hinv _ _ Hb) as [c Hc].
  apply list_elem_of_fmap. exists (mkDoc (b_customerId (data b)) c).
  split; [done|]. by apply elem_of_snapshot.
Qed.

Lemma report_all_areas_witness :
  reportTotalDue (SignedIn exStore) "all" = JS.ofZ 700.
Proof.
  refine (eq_trans (proj2 (report_all_areas (SignedIn exStore)) _) _).
  - intros k b Hb. cbn in Hb. apply lookup_singleton_Some in Hb as [_ <-].
    vm_compute. eexists. reflexivity.
  - vm_compute. reflexivity.
Defined.

(** ** Trial and subscription request *)

Lemma ceilDiv_pos (a : Z) : 0 < ceilDiv a msPerDay ↔ 0 < a.
Proof.
  pose proof (ceilDiv_le a 0) as H. lia.
Qed.

Lemma free_trial_gate {U : JS.UnicodeCase} (user : User) (now t : Z) :
  trialEndDate user = Some t →
  status (useSubscriptionStatus (Some user) now) = "free_trial" →
  let g := useSubscriptionStatus (Some user) now in
  (isLocked g = false ↔ now < t)
  ∧ (isTrialActive g = true ↔ now < t)
  ∧ (now < t →
     1 ≤ trialDaysLeft g
     ∧ (trialDaysLeft g - 1) * msPerDay < t - now
     ∧ t - now ≤ trialDaysLeft g * msPerDay)
  ∧ (t ≤ now → trialDaysLeft g = 0).
Proof.
  intros Ht Hst g. subst g. revert Hst. unfold useSubscriptionStatus.
  cbn [mbind option_bind]. rewrite Ht.
  set (st := orFreeTrial _). cbn [status isLocked isTrialActive trialDaysLeft].
  intros ->. change (bool_decide ("free_trial" = "active")) with false.
  change (bool_decide ("free_trial" = "pending")) with false.
  change (bool_decide ("free_trial" = "free_trial")) with true.
  cbn [negb andb].
  pose proof (ceilDiv_pos (t - now)) as Hpos.
  pose proof (ceilDiv_le (t - now) (ceilDiv (t - now) msPerDay)) as Hup.
  pose proof (ceilDiv_le (t - now) (ceilDiv (t - now) msPerDay - 1)) as Hlow.
  assert ((0 <? Z.max 0 (ceilDiv (t - now) msPerDay)) = true ↔ now < t) as Hact.
  { rewrite Z.ltb_lt. lia. }
  split; [|split; [exact Hact|split]].
  - rewrite andb_true_r, negb_false_iff. exact Hact.
  - intros Hlt. lia.
  - intros Hge. lia.
Qed.


(** X15. A free trial ends at the stored [trialEndDate]: a user whose
    status reads 'free_trial' is unlocked exactly while the current time is
    before it, and then [trialDaysLeft] is the time left rounded up to whole
    days, at least 1; from the end on the days left are 0 and the user is
    locked. *)
Theorem trial_ends_at_trialEndDate {U : JS.UnicodeCase} (user : User) (now t : Z) :
  trialEndDate user = Some t →
  status (useSubscriptionStatus (Some user) now) = "free_trial" →
  let g := useSubscriptionStatus (Some user) now in
  (isLocked g = false ↔ now < t)
  ∧ (isTrialActive g = true ↔ now < t)
  ∧ (now < t →
     1 ≤ trialDaysLeft g
     ∧ (trialDaysLeft g - 1) * msPerDay < t - now
     ∧ t - now ≤ trialDaysLeft g * msPerDay)
  ∧ (t ≤ now → trialDaysLeft g = 0).
Proof.
  apply free_trial_gate.
Qed.

Lemma trial_ends_at_trialEndDate_witness :
  isLocked (@useSubscriptionStatus asciiOnly
              (Some (mkUser None (Some (3 * msPerDay)))) msPerDay)
  = false.
Proof.
  apply (@trial_ends_at_trialEndDate asciiOnly (mkUser None (Some (3 * msPerDay)))
           msPerDay (3 * msPerDay) eq_refl eq_refl).
  vm_compute. reflexivity.
Defined.

(** X16. The trial [register] grants ends at the last millisecond of the
    local day 30 days after the registration (local time at a fixed offset
    from UTC): between 30 and 31 days after it.  So the new user is
    unlocked for the next 30 days at least, and the gate shows 31 days left
    at registration, 30 only in the last millisecond of a day. *)
Theorem register_trial_length {U : JS.UnicodeCase} (tzOffset now t : Z) :
  let u := profile (registeredUser tzOffset now) in
  let trialEnd := trialEndFor tzOffset now in
  (trialEnd + tzOffset) mod msPerDay = msPerDay - 1
  ∧ 30 * msPerDay ≤ trialEnd - now < 31 * msPerDay
  ∧ 30 ≤ trialDaysLeft (useSubscriptionStatus (Some u) now) ≤ 31
  ∧ (trialDaysLeft (useSubscriptionStatus (Some u) now) = 30
     ↔ (now + tzOffset) mod msPerDay = msPerDay - 1)
  ∧ (now ≤ t < now + 30 * msPerDay →
     isLocked (useSubscriptionStatus (Some u) t) = false).
Proof.
  intros u trialEnd.
  assert ((trialEnd + tzOffset) mod msPerDay = msPerDay - 1
          ∧ trialEnd - now = 30 * msPerDay + (msPerDay - 1 - (now + tzOffset) mod msPerDay)
          ∧ 0 ≤ (now + tzOffset) mod msPerDay < msPerDay) as (Hend & Hlen & Hmod).
  { subst trialEnd. unfold trialEndFor. replace msPerDay with 86400000 by reflexivity.
    change (23 * 3600000 + 59 * 60000 + 59 * 1000 + 999) with 86399999.
    pose proof (Z.div_mod (now + tzOffset + 30 * 86400000) 86400000 ltac:(lia)).
    pose proof (Z.mod_pos_bound (now + tzOffset + 30 * 86400000) 86400000 ltac:(lia)).
    pose proof (Z.mod_pos_bound (now + tzOffset) 86400000 ltac:(lia)).
    assert ((now + tzOffset + 30 * 86400000) mod 86400000 = (now + tzOffset) mod 86400000)
      as Hshift by (apply Z.mod_add; lia).
    split; [|split; [lia|lia]].
    replace ((now + tzOffset + 30 * 86400000) / 86400000 * 86400000 + 86399999
             - tzOffset + tzOffset)
      with (86399999 + (now + tzOffset + 30 * 86400000) / 86400000 * 86400000) by lia.
    rewrite Z.mod_add by lia. by apply Z.mod_small. }
  split; [exact Hend|]. split; [lia|].
  assert (∀ t', trialDaysLeft (useSubscriptionStatus (Some u) t')
                = Z.max 0 (ceilDiv (trialEnd - t') msPerDay)) as Hdays by done.
  pose proof (ceilDiv_le (trialEnd - now) 31) as H31.
  pose proof (ceilDiv_le (trialEnd - now) 30) as H30.
  pose proof (ceilDiv_le (trialEnd - now) 29) as H29.
  assert (msPerDay = 86400000) as Hday by reflexivity.
  split; [rewrite Hdays; lia|]. split; [rewrite Hdays; lia|].
  intros Ht.
  assert (trialEndDate u = Some trialEnd) as Hu by done.
  apply (free_trial_gate u t trialEnd Hu eq_refl). lia.
Qed.

Lemma register_trial_length_witness :
  isLocked (@useSubscriptionStatus asciiOnly
              (Some (profile (registeredUser 0 0))) (29 * msPerDay))
  = false.
Proof.
  destruct (@register_trial_length asciiOnly 0 0 (29 * msPerDay)) as (_ & _ & _ & _ & H).
  apply H. unfold msPerDay. lia.
Defined.

(** X17. A subscription request of a signed-in user succeeds, stores the
    request and turns the status to 'pending', keeping the trial end.  From
    then on the gate is pending and not locked at any time, also when the
    trial has run out, and the banner is the pending one. *)
Theorem submitSubscriptionRequest_unlocks {U : JS.UnicodeCase} (u : UserDoc)
    (senderPhone transactionId requestDate : string) (now : Z) :
  ∃ u', submitSubscriptionRequest (Some u) senderPhone transactionId requestDate
        = (ok, Some u')
        ∧ subscriptionRequest u' = Some (senderPhone, transactionId, requestDate)
        ∧ trialEndDate (profile u') = trialEndDate (profile u)
        ∧ let g := useSubscriptionStatus (Some (profile u')) now in
          status g = "pending" ∧ isPending g = true ∧ isLocked g = false
          ∧ isSubscribed g = false ∧ isTrialActive g = false
          ∧ trialDaysLeft g = trialDaysLeft (useSubscriptionStatus (Some (profile u)) now)
          ∧ trialStatusBanner g = PendingBanner.
Proof.
  eexists. split; [reflexivity|]. cbn [subscriptionRequest profile trialEndDate].
  split; [reflexivity|]. split; [reflexivity|].
  unfold useSubscriptionStatus, trialStatusBanner.
  cbn [mbind option_bind fmap option_fmap option_map subscriptionStatus trialEndDate
       status isPending isLocked isSubscribed isTrialActive trialDaysLeft].
  change (orFreeTrial (Some ((JS.toLowerCase ∘ JS.trim) "pending"))) with "pending".
  change (bool_decide ("pending" = "active")) with false.
  change (bool_decide ("pending" = "pending")) with true.
  change (bool_decide ("pending" = "free_trial")) with false.
  cbn [negb andb]. done.
Qed.

(** X18. The banner follows the gate: for every user and time exactly one
    of the four cases holds.  The expired banner is shown exactly when the
    gate is locked, no banner exactly for an active subscription, the
    pending banner exactly for a pending request, and the trial banner
    exactly during an active trial, with the gate's days left, which are at
    least 1. *)
Theorem trialStatusBanner_cases {U : JS.UnicodeCase} (user : option User) (now : Z) :
  let g := useSubscriptionStatus user now in
  (trialStatusBanner g = ExpiredBanner ↔ isLocked g = true)
  ∧ (trialStatusBanner g = NoBanner ↔ isSubscribed g = true)
  ∧ (trialStatusBanner g = PendingBanner ↔ isPending g = true)
  ∧ (∀ d, trialStatusBanner g = TrialBanner d
          ↔ isTrialActive g = true ∧ d = trialDaysLeft g)
  ∧ (isTrialActive g = true → 1 ≤ trialDaysLeft g).
Proof.
  unfold useSubscriptionStatus, trialStatusBanner.
  set (st := orFreeTrial _). set (days := match user ≫= trialEndDate with
                                          | Some t => _ | None => 0 end).
  cbn [status isPending isLocked isSubscribed isTrialActive trialDaysLeft].
  assert (∀ d, TrialBanner days = TrialBanner d ↔ true = true ∧ d = days) as Hinj.
  { intros d. split; [intros [= ->]; done|intros [_ ->]; done]. }
  destruct (decide (st = "active")) as [Ha|Ha];
    [rewrite (bool_decide_eq_true_2 _ Ha)|rewrite (bool_decide_eq_false_2 _ Ha)];
  (destruct (decide (st = "pending")) as [Hp|Hp];
    [rewrite (bool_decide_eq_true_2 _ Hp)|rewrite (bool_decide_eq_false_2 _ Hp)]);
  (destruct (decide (st = "free_trial")) as [Hf|Hf];
    [rewrite (bool_decide_eq_true_2 _ Hf)|rewrite (bool_decide_eq_false_2 _ Hf)]);
  try (exfalso; congruence);
  cbn [negb andb];
  try (destruct (0 <? days) eqn:Hd; [apply Z.ltb_lt in Hd|]);
  cbn [negb andb];
  (split; [|split; [|split; [|split]]]);
  try exact Hinj; try (intros d); try (split; intros; try discriminate; try done);
  try (intros; discriminate); try (intros; lia); try (intros [? _]; discriminate).
Qed.


(** ** The dues customer by customer *)

Lemma Zsum_zero {A} (l : list A) : Zsum ((λ _, 0) <$> l) = 0.
Proof. induction l as [|x l IH]; [done|]. by rewrite fmap_cons, Zsum_cons, IH. Qed.

Lemma Zsum_fmap_plus {A} (f g : A → Z) (l : list A) :
  Zsum ((λ x, f x + g x) <$> l) = Zsum (f <$> l) + Zsum (g <$> l).
Proof.
  induction l as [|x l IH]; [done|]. rewrite !fmap_cons, !Zsum_cons, IH. lia.
Qed.

Lemma Zsum_filter_indicator {A} (f : A → Z) (P : A → Prop) `{∀ x, Decision (P x)}
    (l : list A) :
  Zsum (f <$> filter P l) = Zsum ((λ x, if decide (P x) then f x else 0) <$> l).
Proof.
  induction l as [|x l IH]; [done|].
  rewrite filter_cons, (fmap_cons _ x l), Zsum_cons, <- IH.
  destruct (decide (P x)); [by rewrite fmap_cons, Zsum_cons|lia].
Qed.

Lemma Zsum_swap {A B} (g : A → B → Z) (la : list A) (lb : list B) :
  Zsum ((λ a, Zsum (g a <$> lb)) <$> la)
  = Zsum ((λ b, Zsum ((λ a, g a b) <$> la)) <$> lb).
Proof.
  induction la as [|a la IH].
  - cbn [fmap list_fmap]. by rewrite Zsum_zero.
  - rewrite fmap_cons, Zsum_cons, IH.
    rewrite <- (Zsum_fmap_plus (g a) (λ b, Zsum ((λ a, g a b) <$> la))).
    apply Zsum_fmap_ext. intros b _. by rewrite fmap_cons, Zsum_cons.
Qed.

Lemma Zsum_indicator_NoDup (ks : list string) (k : string) (v : Z) :
  NoDup ks →
  Zsum ((λ k', if decide (k = k') then v else 0) <$> ks)
  = if decide (k ∈ ks) then v else 0.
Proof.
  induction 1 as [|k0 ks Hk0 Hnd IH].
  - cbn. rewrite decide_False; [done|]. by intros ?%elem_of_nil.
  - rewrite fmap_cons, Zsum_cons, IH. destruct (decide (k = k0)) as [->|Hne].
    + rewrite decide_False by done. rewrite decide_True by apply list_elem_of_here. lia.
    + destruct (decide (k ∈ ks)) as [Hin|Hout].
      * rewrite decide_True by (by apply list_elem_of_further). lia.
      * rewrite decide_False; [lia|]. intros [?|?]%elem_of_cons; done.
Qed.

Lemma NoDup_customersOf s : NoDup (id <$> customersOf s).
Proof.
  destruct s as [|db]; cbn [customersOf]; [apply NoDup_nil_2|apply NoDup_snapshot_ids].
Qed.

Lemma filter_none {A} (P : A → Prop) `{∀ x, Decision (P x)} (l : list A) :
  (∀ x, x ∈ l → ¬ P x) → filter P l = [].
Proof.
  induction l as [|x l IH]; intros Hnone; [done|].
  rewrite filter_cons, decide_False by (apply Hnone, list_elem_of_here).
  apply IH. intros y Hy. by apply Hnone, list_elem_of_further.
Qed.

Lemma Zsum_abs_submseteq {A} (f : A → Z) (l k : list A) :
  l ⊆+ k → Zsum ((λ x, Z.abs (f x)) <$> l) ≤ Zsum ((λ x, Z.abs (f x)) <$> k).
Proof.
  intros [k' Hk]%submseteq_Permutation.
  rewrite (Zsum_Permutation _ _ (fmap_Permutation _ _ _ Hk)), fmap_app, Zsum_app.
  pose proof (Zsum_abs_le f k'). lia.
Qed.

Lemma billsOf_size (g : Z → Z) s :
  Zsum ((λ b : Bill, g (unpaidAmount (data b))) <$> billsOf s)
  = mapSum (λ kv, g (unpaidAmount kv.2)) (bills (storeOf s)).
Proof.
  destruct s as [|db].
  - change (bills (storeOf SignedOut)) with (∅ : gmap string BillData).
    by rewrite mapSum_empty.
  - apply (Zsum_snapshot (λ b, g (unpaidAmount b))).
Qed.

Lemma customersOf_size (g : Z → Z) s :
  Zsum ((λ c : Customer, g (JS.toZ (c_openingDue (data c)))) <$> customersOf s)
  = mapSum (λ kv, g (JS.toZ (c_openingDue kv.2))) (customers (storeOf s)).
Proof.
  destruct s as [|db].
  - change (customers (storeOf SignedOut)) with (∅ : gmap string CustomerData).
    by rewrite mapSum_empty.
  - apply (Zsum_snapshot (λ c, g (JS.toZ (c_openingDue c)))).
Qed.

(** The unpaid total of a part of the bills and the opening dues of a
    part of the customers, the amounts of the store being whole. *)
Lemma unpaidTotal_part s (l : list Bill) :
  wholeStore (storeOf s) → storeSize (storeOf s) < 2 ^ 53 → l ⊆+ billsOf s →
  unpaidTotal l = JS.ofZ (Zsum ((λ b : Bill, unpaidAmount (data b)) <$> l))
  ∧ Zsum ((λ b : Bill, Z.abs (unpaidAmount (data b))) <$> l)
    ≤ mapSum (λ kv, Z.abs (unpaidAmount kv.2)) (bills (storeOf s)).
Proof.
  intros Hwhole Hsize Hsub.
  pose proof (Zsum_abs_submseteq (λ b : Bill, unpaidAmount (data b)) _ _ Hsub) as Hle.
  cbn beta in Hle. rewrite (billsOf_size Z.abs) in Hle.
  pose proof (mapSum_abs_nonneg (λ kv : string * CustomerData,
                JS.toZ (c_openingDue kv.2)) (customers (storeOf s))) as Hnc.
  cbn beta in Hnc. unfold storeSize in Hsize.
  split; [|done]. apply unpaidTotal_whole; [|lia].
  intros b Hb. eapply elem_of_submseteq in Hb; [|done].
  destruct s as [|db]; [by apply elem_of_nil in Hb|].
  apply elem_of_snapshot in Hb. by eapply (proj1 Hwhole).
Qed.

Lemma openingDueTotal_part s (cs : list Customer) :
  wholeStore (storeOf s) → storeSize (storeOf s) < 2 ^ 53 → cs ⊆+ customersOf s →
  openingDueTotal cs
  = JS.ofZ (Zsum ((λ c : Customer, JS.toZ (c_openingDue (data c))) <$> cs))
  ∧ Zsum ((λ c : Customer, Z.abs (JS.toZ (c_openingDue (data c)))) <$> cs)
    ≤ mapSum (λ kv, Z.abs (JS.toZ (c_openingDue kv.2))) (customers (storeOf s)).
Proof.
  intros Hwhole Hsize Hsub.
  pose proof (Zsum_abs_submseteq (λ c : Customer, JS.toZ (c_openingDue (data c)))
                _ _ Hsub) as Hle.
  cbn beta in Hle. rewrite (customersOf_size Z.abs) in Hle.
  pose proof (mapSum_abs_nonneg (λ kv : string * BillData, unpaidAmount kv.2)
                (bills (storeOf s))) as Hnb.
  cbn beta in Hnb. unfold storeSize in Hsize.
  split; [|done]. apply openingDueTotal_whole; [|lia].
  intros c Hc. eapply elem_of_submseteq in Hc; [|done].
  destruct s as [|db]; [by apply elem_of_nil in Hc|].
  apply elem_of_snapshot in Hc. by eapply (proj2 Hwhole).
Qed.

Lemma getBillsByCustomerId_submseteq s customerId :
  getBillsByCustomerId s customerId ⊆+ billsOf s.
Proof.
  unfold getBillsByCustomerId. rewrite sortBy_Permutation.
  apply sublist_submseteq, sublist_filter.
Qed.

Lemma customerMonthlyDue_whole s customerId :
  wholeStore (storeOf s) → storeSize (storeOf s) < 2 ^ 53 →
  JS.toZ (customerMonthlyDue s customerId)
  = Zsum ((λ b : Bill, if decide (b_customerId (data b) = customerId)
                       then unpaidAmount (data b) else 0) <$> billsOf s).
Proof.
  intros Hwhole Hsize. unfold customerMonthlyDue.
  destruct (unpaidTotal_part s (getBillsByCustomerId s customerId) Hwhole Hsize
              (getBillsByCustomerId_submseteq s customerId)) as [-> Hle].
  pose proof (Zsum_abs_le (λ b : Bill, unpaidAmount (data b))
                (getBillsByCustomerId s customerId)) as Habs.
  pose proof (mapSum_abs_nonneg (λ kv : string * CustomerData,
                JS.toZ (c_openingDue kv.2)) (customers (storeOf s))) as Hnc.
  cbn beta in Habs, Hnc. unfold storeSize in Hsize.
  rewrite toZ_ofZ by lia. unfold getBillsByCustomerId.
  rewrite (Zsum_Permutation _ _ (fmap_Permutation _ _ _ (sortBy_Permutation _ _))).
  apply Zsum_filter_indicator.
Qed.

Lemma dues_by_customer (s : Session) (cs : list Customer) :
  wholeStore (storeOf s) → storeSize (storeOf s) < 2 ^ 53 →
  NoDup (id <$> cs) →
  Zsum ((λ b : Bill, unpaidAmount (data b))
        <$> filter (λ b : Bill, b_customerId (data b)
                                ∈ (list_to_set (id <$> cs) : gset string))
                   (billsOf s))
  + Zsum ((λ c : Customer, JS.toZ (c_openingDue (data c))) <$> cs)
  = Zsum ((λ c : Customer, JS.toZ (customerMonthlyDue s (id c))
                           + JS.toZ (c_openingDue (data c))) <$> cs).
Proof.
  intros Hwhole Hsize Hnd. rewrite Zsum_fmap_plus. f_equal.
  rewrite Zsum_filter_indicator.
  rewrite (Zsum_fmap_ext _ _ cs
             (λ c _, customerMonthlyDue_whole s (id c) Hwhole Hsize)).
  rewrite (Zsum_swap (λ (c : Customer) (b : Bill),
             if decide (b_customerId (data b) = id c) then unpaidAmount (data b) else 0)).
  apply Zsum_fmap_ext. intros b _.
  pose proof (Zsum_indicator_NoDup (id <$> cs) (b_customerId (data b))
                (unpaidAmount (data b)) Hnd) as Hsum.
  rewrite <- list_fmap_compose in Hsum. symmetry. refine (eq_trans Hsum _).
  destruct (decide (b_customerId (data b) ∈ id <$> cs)) as [Hin|Hout].
  - rewrite decide_True; [done|]. by apply elem_of_list_to_set.
  - rewrite decide_False; [done|]. by rewrite elem_of_list_to_set.
Qed.

(** X19. The totals are the customers' dues added up, the amounts of the
    store being whole numbers that add up below 2^53.  The total due of
    the report for an area filter is the sum, over the customers the filter
    keeps, of the monthly due shown on the customer's detail screen and the
    customer's opening due.  The total due of the home screen is the same
    sum over all customers as long as every bill belongs to a customer of
    the store; the bills of no customer count on the home screen only. *)
Theorem totals_by_customer (s : Session) (areaFilter : string) :
  wholeStore (storeOf s) → storeSize (storeOf s) < 2 ^ 53 →
  let dueOf (c : Customer) :=
    JS.toZ (customerMonthlyDue s (id c)) + JS.toZ (c_openingDue (data c)) in
  reportTotalDue s areaFilter
  = JS.ofZ (Zsum (dueOf <$> reportCustomers s areaFilter))
  ∧ (billsHaveCustomers (storeOf s) →
     homeTotalDue s = JS.ofZ (Zsum (dueOf <$> customersOf s)))
  ∧ homeTotalDue s
    = JS.ofZ (Zsum (dueOf <$> customersOf s)
              + JS.toZ (unpaidTotal
                          (filter (λ b : Bill,
                                     b_customerId (data b)
                                     ∉ (list_to_set (id <$> customersOf s) : gset string))
                                  (billsOf s)))).
Proof.
  intros Hwhole Hsize dueOf.
  pose proof (mapSum_abs_nonneg (λ kv : string * CustomerData,
                JS.toZ (c_openingDue kv.2)) (customers (storeOf s))) as Hnc.
  pose proof (mapSum_abs_nonneg (λ kv : string * BillData, unpaidAmount kv.2)
                (bills (storeOf s))) as Hnb.
  cbn beta in Hnc, Hnb.
  assert (∀ cs, cs ⊆+ customersOf s → NoDup (id <$> cs) →
            JS.add (unpaidTotal
                      (filter (λ b : Bill, b_customerId (data b)
                                           ∈ (list_to_set (id <$> cs) : gset string))
                              (billsOf s)))
                   (openingDueTotal cs)
            = JS.ofZ (Zsum (dueOf <$> cs))) as Hpart.
  { intros cs Hsub Hnd.
    destruct (unpaidTotal_part s
                (filter (λ b : Bill, b_customerId (data b)
                                     ∈ (list_to_set (id <$> cs) : gset string))
                        (billsOf s)) Hwhole Hsize) as [-> Hb];
      [apply sublist_submseteq, sublist_filter|].
    destruct (openingDueTotal_part s cs Hwhole Hsize Hsub) as [-> Hc].
    pose proof (Zsum_abs_le (λ b : Bill, unpaidAmount (data b))
                  (filter (λ b : Bill, b_customerId (data b)
                                       ∈ (list_to_set (id <$> cs) : gset string))
                          (billsOf s))) as Hab.
    pose proof (Zsum_abs_le (λ c : Customer, JS.toZ (c_openingDue (data c))) cs) as Hac.
    cbn beta in Hab, Hac. unfold storeSize in Hsize.
    rewrite add_ofZ by lia. f_equal. by apply dues_by_customer. }
  assert (homeTotalDue s
    = JS.ofZ (Zsum (dueOf <$> customersOf s)
              + JS.toZ (unpaidTotal
                          (filter (λ b : Bill,
                                     b_customerId (data b)
                                     ∉ (list_to_set (id <$> customersOf s) : gset string))
                                  (billsOf s))))) as Hhome.
  { unfold dueOf. rewrite <- dues_by_customer by (done || apply NoDup_customersOf).
    destruct (unpaidTotal_part s
                (filter (λ b : Bill, b_customerId (data b)
                                     ∉ (list_to_set (id <$> customersOf s) : gset string))
                        (billsOf s)) Hwhole Hsize) as [-> Hb];
      [apply sublist_submseteq, sublist_filter|].
    pose proof (Zsum_abs_le (λ b : Bill, unpaidAmount (data b))
                  (filter (λ b : Bill, b_customerId (data b)
                                       ∉ (list_to_set (id <$> customersOf s) : gset string))
                          (billsOf s))) as Hab.
    cbn beta in Hab. unfold storeSize in Hsize.
    rewrite toZ_ofZ by lia.
    unfold homeTotalDue.
    destruct (unpaidTotal_part s (billsOf s) Hwhole Hsize) as [-> Hb']; [done|].
    destruct (openingDueTotal_part s (customersOf s) Hwhole Hsize) as [-> Hc']; [done|].
    pose proof (Zsum_abs_le (λ b : Bill, unpaidAmount (data b)) (billsOf s)) as Hab'.
    pose proof (Zsum_abs_le (λ c : Customer, JS.toZ (c_openingDue (data c)))
                  (customersOf s)) as Hac'.
    cbn beta in Hab', Hac'.
    rewrite add_ofZ by lia. f_equal.
    rewrite !Zsum_filter_indicator.
    assert (Zsum ((λ b : Bill, unpaidAmount (data b)) <$> billsOf s)
            = Zsum ((λ b : Bill,
                      (if decide (b_customerId (data b)
                                  ∈ (list_to_set (id <$> customersOf s) : gset string))
                       then unpaidAmount (data b) else 0)
                      + (if decide (b_customerId (data b)
                                    ∉ (list_to_set (id <$> customersOf s) : gset string))
                         then unpaidAmount (data b) else 0)) <$> billsOf s)) as ->.
    { apply Zsum_fmap_ext. intros b _.
      destruct (decide (b_customerId (data b)
                        ∈ (list_to_set (id <$> customersOf s) : gset string))).
      - rewrite decide_False by (intros Hn; by apply Hn). lia.
      - rewrite decide_True by done. lia. }
    rewrite Zsum_fmap_plus. lia. }
  split; [|split; [|exact Hhome]].
  - unfold reportTotalDue. apply Hpart.
    + unfold reportCustomers. apply sublist_submseteq, sublist_filter.
    + unfold reportCustomers. apply NoDup_fmap_filter, NoDup_customersOf.
  - intros Hinv. rewrite Hhome. f_equal.
    assert (filter (λ b : Bill, b_customerId (data b)
                                ∉ (list_to_set (id <$> customersOf s) : gset string))
                   (billsOf s) = []) as ->; [|cbn; lia].
    apply filter_none. intros b Hb Hn. apply Hn. apply elem_of_list_to_set.
    destruct s as [|db]; [by apply elem_of_nil in Hb|].
    cbn [billsOf customersOf storeOf] in *. apply elem_of_snapshot in Hb.
    destruct (Hinv _ _ Hb) as [c Hc].
    apply list_elem_of_fmap. exists (mkDoc (b_customerId (data b)) c).
    split; [done|]. by apply elem_of_snapshot.
Qed.

Lemma totals_by_customer_witness :
  reportTotalDue (SignedIn exStore) "North" = JS.ofZ 700.
Proof.
  refine (eq_trans (proj1 (totals_by_customer (SignedIn exStore) "North"
                             wholeStore_exStore _)) _).
  - vm_compute. reflexivity.
  - vm_compute. reflexivity.
Defined.

(** ** Whom the generator bills *)

Lemma elem_of_visitedMonths fuel cy cm loopDate y m :
  (y, m) ∈ visitedMonths fuel cy cm loopDate →
  y < cy ∨ (y = cy ∧ m ≤ cm + 1).
Proof.
  revert loopDate. induction fuel as [|fuel IH]; intros loopDate; cbn [visitedMonths].
  - by intros ?%elem_of_nil.
  - destruct (inRange cy cm loopDate) eqn:Hin; [|by intros ?%elem_of_nil].
    intros [[= -> ->]|Hrest]%elem_of_cons; [|by eapply IH].
    unfold inRange in Hin. apply orb_true_iff in Hin as [Hin|Hin]; [left; lia|right].
    apply andb_true_iff in Hin. lia.
Qed.

Lemma elem_of_monthsVisited currentDate (customer : Customer) y m :
  (y, m) ∈ monthsVisited currentDate customer →
  c_connectionStatus (data customer) = ACTIVE
  ∧ JS.Date_gtb (c_startDate (data customer)) currentDate = false
  ∧ (y < JS.getFullYear currentDate
     ∨ (y = JS.getFullYear currentDate ∧ m ≤ JS.getMonth currentDate + 1)).
Proof.
  unfold monthsVisited. case_bool_decide as Hst; [|by intros ?%elem_of_nil].
  destruct (JS.Date_gtb _ _); [by intros ?%elem_of_nil|].
  intros Hin. split; [done|]. split; [done|]. by eapply elem_of_visitedMonths.
Qed.

Lemma elem_of_generatedBatch_active customers bills currentDate k b :
  SetBill k b ∈ generatedBatch customers bills currentDate →
  ∃ c : Customer,
    c ∈ customers ∧ b_customerId b = id c
    ∧ c_connectionStatus (data c) = ACTIVE
    ∧ JS.Date_gtb (c_startDate (data c)) currentDate = false
    ∧ (b_year b < JS.getFullYear currentDate
       ∨ (b_year b = JS.getFullYear currentDate
          ∧ b_month b ≤ JS.getMonth currentDate + 1))
    ∧ k = billIdOf (b_customerId b) (b_year b) (b_month b).
Proof.
  rewrite generatedBatch_emit, list_elem_of_bind.
  intros (c & Hin & Hc). unfold emitBills in Hin.
  apply list_elem_of_fmap in Hin as ([y m] & Heq & Hym).
  apply list_elem_of_filter in Hym as [_ Hym]. cbn [fst snd] in *.
  injection Heq as -> ->. apply elem_of_monthsVisited in Hym as (Hst & Hgt & Hrange).
  exists c. cbn [newBillOf b_customerId b_year b_month]. done.
Qed.

Lemma generatedBatch_nil customers bills currentDate :
  (∀ c : Customer, c ∈ customers →
     c_connectionStatus (data c) ≠ ACTIVE
     ∨ JS.Date_gtb (c_startDate (data c)) currentDate = true) →
  generatedBatch customers bills currentDate = [].
Proof.
  intros Hall. rewrite generatedBatch_emit.
  induction customers as [|c cs IH]; [done|]. rewrite bind_cons, IH.
  - assert (monthsVisited currentDate c = []) as ->; [|done].
    unfold monthsVisited.
    destruct (Hall c (list_elem_of_here _ _)) as [Hst|Hgt].
    + by rewrite bool_decide_eq_false_2.
    + rewrite Hgt. by destruct (bool_decide _).
  - intros c' Hc'. by apply Hall, list_elem_of_further.
Qed.

(** X20. The generator bills Active customers that have started, and no
    month after the current one: a bill a run adds belongs to a customer
    whose status is Active and whose start date is not after the day of the
    run, is for the current month or an earlier one, and is stored under
    the key made of the customer id, the year and the month.  When no
    customer is Active with a start date reached, the run changes
    nothing; a reactivation date plays no part. *)
Theorem generateBills_active_customers_only (currentDate : JS.Date) (s : Session) :
  let s' := generateBills currentDate s in
  (∀ k b, bills (storeOf s') !! k = Some b → bills (storeOf s) !! k = None →
     ∃ c, customers (storeOf s) !! b_customerId b = Some c
          ∧ c_connectionStatus c = ACTIVE
          ∧ JS.Date_gtb (c_startDate c) currentDate = false
          ∧ (b_year b < JS.getFullYear currentDate
             ∨ (b_year b = JS.getFullYear currentDate
                ∧ b_month b ≤ JS.getMonth currentDate + 1))
          ∧ k = billIdOf (b_customerId b) (b_year b) (b_month b))
  ∧ ((∀ k c, customers (storeOf s) !! k = Some c →
        c_connectionStatus c ≠ ACTIVE
        ∨ JS.Date_gtb (c_startDate c) currentDate = true) →
     s' = s).
Proof.
  intros s'. subst s'. destruct s as [|db]; [done|].
  unfold generateBills. cbn [customersOf billsOf storeOf]. split.
  - destruct (commit_setBills_lookup
                (generatedBatch (snapshot (customers db)) (snapshot (bills db)) currentDate)
                db (generatedBatch_isSetBill _ _ _))
      as (bs' & -> & Hfrom & _).
    cbn [storeOf bills customers withBills].
    intros k b Hb Hnew. destruct (Hfrom k b Hb) as [Hold|Hin]; [congruence|].
    apply elem_of_generatedBatch_active in Hin
      as (c & Hc & Hid & Hst & Hgt & Hrange & Hk).
    apply elem_of_snapshot in Hc. exists (data c). split; [by rewrite Hid|done].
  - intros Hall. rewrite generatedBatch_nil; [done|].
    intros c Hc. apply elem_of_snapshot in Hc. by eapply Hall.
Qed.
